(** * modmaps: the SCS archive reader (V2) and the map assembly pass

    A shallow embedding of
    [packages/clis/parser/game-files/scs-archive.ts] (the V2 container
    reader, its hash-indexed stores, the per-entry compression dispatch and
    the texture-object synthesizer) and of the last stages of [postProcess]
    in the map-files parser (road-split detection, mileage-target
    augmentation, emission of the map data bundle).

    Conventions.
    - A [Buffer] is a [list byte]; integers, whether [number] or [bigint], are
      [Z], with the wrap-around of the 32-bit operators written out; buffer
      lengths and offsets into buffers are [nat].
    - Code that throws, touches the file descriptor, calls one of the native
      bindings or logs a warning runs in the monad [M]: a trace of the
      external calls made so far, and a value or the error thrown.
    - The native bindings ([city64], [zlib.inflateSync], [gdeflate]) are the
      fields of the class [Natives]; nothing is assumed about them.
    - The coordinates of nodes are rationals ([Q]): every finite double is
      one, and [Math.round] is exact on them. The products and quotients
      by 100 of the mileage stage are rounded as IEEE 754 binary64
      arithmetic rounds them ([binary64]), and the coordinates of mileage
      targets are numbers that may be infinite or [NaN] ([JsNumber]).
    - A string is kept as its UTF-8 encoding; [Buffer.toString] decodes
      UTF-8 and replaces what is ill-formed ([toString]). *)

From Stdlib Require Import ZArith NArith QArith Qround Qabs Qpower String List
  Lia Lqa.
From Stdlib.Strings Require Import Byte.
From stdpp Require Import base option list gmap strings pretty.

Local Open Scope Z_scope.

(* ===================================================================== *)
(** * Part I: the embedding                                               *)
(* ===================================================================== *)

(** ** Buffers *)

Module Buffer.

Definition t : Type := list byte.

Definition zero : byte := x00.

(** [Buffer.alloc(n)]: [n] zero bytes, on an [ArrayBuffer] of its own. *)
Definition alloc (n : nat) : t := replicate n zero.

(** [buf.subarray(start, end)]: both ends are clamped to the buffer. *)
Definition subarray (buf : t) (start stop : nat) : t :=
  take (stop - start) (drop start buf).

(** [src.copy(target, targetStart)]: overwrites [target] from
    [targetStart] on with as much of [src] as fits; [target] keeps its
    length. *)
Definition copy (src target : t) (targetStart : nat) : t :=
  take targetStart target
    ++ take (length target - targetStart) src
    ++ drop (targetStart + length src) target.

(** [buf.write(s)]: the bytes of [s] written at offset 0. *)
Definition write (s : string) (target : t) : t :=
  copy (list_byte_of_string s) target 0.

Definition u8 (b : byte) : Z := Z.of_N (Byte.to_N b).

Definition byte_of_Z (n : Z) : byte :=
  match Byte.of_N (Z.to_N (n mod 256)) with
  | Some b => b
  | None => zero
  end.

(** Little-endian unsigned integer held by a run of bytes. *)
Fixpoint uintle (bs : t) : Z :=
  match bs with
  | [] => 0
  | b :: rest => u8 b + 256 * uintle rest
  end.

(** The [w]-byte little-endian encoding of [n]; like [DataView.setUintN]
    it keeps the low [8 * w] bits of [n]. *)
Fixpoint to_uintle (w : nat) (n : Z) : t :=
  match w with
  | O => []
  | S w' => byte_of_Z n :: to_uintle w' (n / 256)
  end.

(** The [w]-byte field at offset [off]. *)
Definition field (buf : t) (off w : nat) : t := take w (drop off buf).

End Buffer.

(** ** Errors, external events and the monad of the reader *)

Inductive Error : Type :=
| IllegalState                         (* Preconditions.checkState *)
| IllegalArgument                      (* Preconditions.checkArgument *)
| AssertionFailed                      (* assert / assertExists *)
| RangeError                           (* a read past the end of a buffer *)
| Unreachable (type : Z)               (* new UnreachableError(type) *)
| UnknownCompression (value : Z)       (* toCompression's default case *)
| UnsupportedCompression (tag : Z)
| GdeflateError (result : Z)
| InflateError.                        (* zlib.inflateSync threw *)

Inductive Event : Type :=
| ReadSync (position : Z) (length : nat)
| Inflate (input : Buffer.t)
| Gdeflate (input : Buffer.t) (outputLength : nat)
| Warn (message : string) (types : list Z).

Inductive result (A : Type) : Type :=
| Ok (a : A)
| Throw (e : Error).
Arguments Ok {A} a.
Arguments Throw {A} e.

Definition M (A : Type) : Type := list Event * result A.

Definition trace {A} (m : M A) : list Event := fst m.
Definition outcome {A} (m : M A) : result A := snd m.

#[global] Instance M_ret : MRet M := fun A a => ([], Ok a).

#[global] Instance M_bind : MBind M := fun A B f m =>
  match m with
  | (t, Ok a) => let '(t', r) := f a in (t ++ t', r)
  | (t, Throw e) => (t, Throw e)
  end.

Definition throw {A} (e : Error) : M A := ([], Throw e).
Definition emit (e : Event) : M unit := ([e], Ok tt).

Definition assert (b : bool) : M unit :=
  if b then mret tt else throw AssertionFailed.

Definition assertExists {A} (o : option A) : M A :=
  match o with
  | Some a => mret a
  | None => throw AssertionFailed
  end.

Definition is_warn (e : Event) : bool :=
  match e with Warn _ _ => true | _ => false end.

Definition is_inflate (e : Event) : bool :=
  match e with Inflate _ => true | _ => false end.

(** Left-to-right loop with an accumulator, as a [for ... of] whose body
    may throw. *)
Fixpoint foldM {A B} (f : A -> B -> M A) (a : A) (l : list B) : M A :=
  match l with
  | [] => mret a
  | b :: l' => a' ← f a b; foldM f a' l'
  end.

(** ** The native bindings *)

Class Natives : Type := {
  (** [require('bindings')('cityhash').city64] *)
  city64 : string -> Z;
  (** [zlib.inflateSync]; [None] when it throws. *)
  inflateSync : Buffer.t -> option Buffer.t;
  (** [require('bindings')('gdeflate').gdeflate]: from the input and the
      capacity of the output buffer, the result code and the bytes the
      decoder wrote. *)
  gdeflate : Buffer.t -> nat -> Z * Buffer.t
}.

(** [fs.readSync(fd, buffer, {length, position})] on a file whose content
    is [fd]: the buffer after the call and the number of bytes read. *)
Definition readSync (fd : Buffer.t) (buffer : Buffer.t) (length : nat)
    (position : Z) : M (Buffer.t * nat) :=
  let data := take length (drop (Z.to_nat position) fd) in
  _ ← emit (ReadSync position length);
  mret (Buffer.copy data buffer 0, List.length data).

(** ** Hash-indexed stores *)

Class HasHash (V : Type) : Type := hash : V -> Z.

Record Store (V : Type) : Type := { get : string -> option V }.
Arguments get {V} s key.

(** [salt + key] for a number [salt] that holds an integer. *)
Definition Number_toString (salt : Z) : string := pretty salt.

Definition saltedKey (salt : Z) (key : string) : string :=
  if salt =? 0 then key else Number_toString salt +:+ key.

(** [new Map(values.map(v => [v.hash, v]))]: inserted left to right. *)
Definition Map_of_pairs {V} (pairs : list (Z * V)) : gmap Z V :=
  foldl (fun m kv => <[kv.1 := kv.2]> m) ∅ pairs.

Definition createStore `{Natives} {V} `{HasHash V} (values : list V)
    (salt : Z) : Store V :=
  let map := Map_of_pairs ((fun v => (hash v, v)) <$> values) in
  {| get := fun key => map !! city64 (saltedKey salt key) |}.

(** ** The 32-bit operators of JavaScript *)

Definition toInt32 (n : Z) : Z := (n + 2 ^ 31) mod 2 ^ 32 - 2 ^ 31.

(** [a & b] *)
Definition js_and (a b : Z) : Z := Z.land (toInt32 a) (toInt32 b).

(** [a >> k] *)
Definition js_shr (a k : Z) : Z := Z.shiftr (toInt32 a) (k mod 32).

(** [a << k] *)
Definition js_shl (a k : Z) : Z := toInt32 (Z.shiftl (toInt32 a) (k mod 32)).

(** ** Structs of the V2 container *)

Definition liftR {A} (r : result A) : M A := ([], r).

(** A struct is decoded from a buffer that holds at least its [sizeof]
    bytes; on a shorter one the underlying [DataView] read throws. *)
Definition decodeStruct {A} (size : nat) (decode : Buffer.t -> result A)
    (buf : Buffer.t) : result A :=
  if (length buf <? size)%nat then Throw RangeError else decode buf.

Module FileHeaderV2.
Record t : Type := {
  magic : string;
  version : Z;
  salt : Z;
  hashMethod : string;
  entryTableCount : Z;
  entryTableCompressedSize : Z;
  metadataTableSize : Z;
  metadataTableCompressedSize : Z;
  entryTableOffset : Z;
  metadataTableOffset : Z;
  securityDescriptorOffset : Z;
  hashfsV2Platform : Z
}.
End FileHeaderV2.

Module EntryV2Header.
Record t : Type := {
  hash : Z;
  metadataIndex : Z;
  metadataCount : Z;
  isDirectory : bool;        (* flags.isDirectory, bit 0 of the flag byte *)
  someByte : Z
}.

Definition sizeof : nat := 8 + 4 + 2 + 1 + 1.

Definition decode : Buffer.t -> result t :=
  decodeStruct sizeof (fun buf =>
    Ok {| hash := Buffer.uintle (Buffer.field buf 0 8);
          metadataIndex := Buffer.uintle (Buffer.field buf 8 4);
          metadataCount := Buffer.uintle (Buffer.field buf 12 2);
          isDirectory := Z.testbit (Buffer.uintle (Buffer.field buf 14 1)) 0;
          someByte := Buffer.uintle (Buffer.field buf 15 1) |}).

(** [new r.Array(EntryV2Header, count).fromBuffer(buf)] *)
Fixpoint decodeArray (count : nat) (buf : Buffer.t) : result (list t) :=
  match count with
  | O => Ok []
  | S count' =>
      match decode buf with
      | Throw e => Throw e
      | Ok h =>
          match decodeArray count' (drop sizeof buf) with
          | Throw e => Throw e
          | Ok hs => Ok (h :: hs)
          end
      end
  end.
End EntryV2Header.

Module MetadataType.
Definition IMG : Z := 1.
Definition SAMPLE : Z := 2.
Definition MIP_PROXY : Z := 3.
Definition INLINE_DIRECTORY : Z := 4.
Definition PMA_INFO : Z := 5.
Definition PMG_INFO : Z := 6.
Definition PLAIN : Z := Z.shiftl 1 7.
Definition DIRECTORY : Z := Z.lor PLAIN 1.
Definition MIP_0 : Z := Z.lor PLAIN 2.
Definition MIP_1 : Z := Z.lor PLAIN 3.
Definition MIP_TAIL : Z := Z.lor PLAIN 4.

(** The cases of the [switch] in [createMetadataMap] that store a
    descriptor, and those that are skipped. *)
Definition described : list Z :=
  [IMG; SAMPLE; PLAIN; DIRECTORY; MIP_TAIL; PMA_INFO; PMG_INFO].
Definition skipped : list Z := [MIP_0; MIP_1; MIP_PROXY; INLINE_DIRECTORY].

Definition is_described (type : Z) : bool := existsb (Z.eqb type) described.
Definition is_skipped (type : Z) : bool := existsb (Z.eqb type) skipped.
End MetadataType.

Inductive Compression : Type :=
| NONE | ZLIB | ZLIB_HEADERLESS | GDEFLATE | ZSTD.

Definition Compression_tag (c : Compression) : Z :=
  match c with
  | NONE => 0 | ZLIB => 1 | ZLIB_HEADERLESS => 2 | GDEFLATE => 3 | ZSTD => 4
  end.

Definition toCompression (compression : Z) : result Compression :=
  if compression =? 0 then Ok NONE
  else if compression =? 1 then Ok ZLIB
  else if compression =? 2 then Ok ZLIB_HEADERLESS
  else if compression =? 3 then Ok GDEFLATE
  else if compression =? 4 then Ok ZSTD
  else Throw (UnknownCompression compression).

Module ImageMeta.
Record image_t : Type := {
  mipmapCount : Z;
  format : Z;
  isCube : bool;
  count : Z;
  pitchAlignment : Z;
  imageAlignment : Z
}.

Record t : Type := { width : Z; height : Z; image : image_t }.

Definition sizeof : nat := 2 + 2 + 4.

Definition toImage (n : Z) : image_t :=
  {| mipmapCount := 1 + js_and n 15;
     format := js_and (js_shr n 4) 255;
     isCube := negb (js_and (js_shr n 12) 3 =? 0);
     count := js_and (js_shr n 14) 63 + 1;
     pitchAlignment := js_shl 1 (js_and (js_shr n 20) 15);
     imageAlignment := js_shl 1 (js_and (js_shr n 24) 15) |}.

Definition decode : Buffer.t -> result t :=
  decodeStruct sizeof (fun buf =>
    Ok {| width := Buffer.uintle (Buffer.field buf 0 2) + 1;
          height := Buffer.uintle (Buffer.field buf 2 2) + 1;
          image := toImage (Buffer.uintle (Buffer.field buf 4 4)) |}).
End ImageMeta.

Module SampleMeta.
Record addr_t : Type := { u : Z; v : Z; w : Z }.

Record sample_t : Type := {
  magFilter : Z;
  minFilter : Z;
  mipFilter : Z;
  addr : addr_t
}.

Record t : Type := { sample : sample_t }.

Definition sizeof : nat := 4.

Definition toSample (n : Z) : sample_t :=
  {| magFilter := js_and n 1;
     minFilter := js_and (js_shr n 1) 1;
     mipFilter := js_and (js_shr n 2) 3;
     addr := {| u := js_and (js_shr n 4) 7;
                v := js_and (js_shr n 7) 7;
                w := js_and (js_shr n 10) 7 |} |}.

Definition decode : Buffer.t -> result t :=
  decodeStruct sizeof (fun buf =>
    Ok {| sample := toSample (Buffer.uintle (Buffer.field buf 0 4)) |}).
End SampleMeta.

Module PmaInfoMeta.
(** The five [floatle] fields are kept as the 32-bit patterns read. *)
Record t : Type := {
  flag : Z;
  animationLength : Z;
  skeletonHash : Z;
  bSphereRad : Z;
  bSphereOrgX : Z;
  bSphereOrgY : Z;
  bSphereOrgZ : Z
}.

Definition sizeof : nat := 4 + 4 + 8 + 4 + 4 + 4 + 4.

Definition decode : Buffer.t -> result t :=
  decodeStruct sizeof (fun buf =>
    Ok {| flag := Buffer.uintle (Buffer.field buf 0 4);
          animationLength := Buffer.uintle (Buffer.field buf 4 4);
          skeletonHash := Buffer.uintle (Buffer.field buf 8 8);
          bSphereRad := Buffer.uintle (Buffer.field buf 16 4);
          bSphereOrgX := Buffer.uintle (Buffer.field buf 20 4);
          bSphereOrgY := Buffer.uintle (Buffer.field buf 24 4);
          bSphereOrgZ := Buffer.uintle (Buffer.field buf 28 4) |}).
End PmaInfoMeta.

Module PmgInfoMeta.
Record t : Type := { skeletonHash : Z }.

Definition sizeof : nat := 8.

Definition decode : Buffer.t -> result t :=
  decodeStruct sizeof (fun buf =>
    Ok {| skeletonHash := Buffer.uintle (Buffer.field buf 0 8) |}).
End PmgInfoMeta.

Module PlainMeta.
Record t : Type := {
  compressedSize : Z;
  compression : Compression;
  size : Z;
  offset : Z
}.

Definition sizeof : nat := 3 + 1 + 3 + 1 + 4 + 4.

(** The fields are read in order, so an unknown compression value is
    reported as soon as the fourth byte is read. *)
Definition decode (buf : Buffer.t) : result t :=
  if (length buf <? 4)%nat then Throw RangeError
  else
    match toCompression (js_shr (Buffer.uintle (Buffer.field buf 3 1)) 4) with
    | Throw e => Throw e
    | Ok c =>
        if (length buf <? sizeof)%nat then Throw RangeError
        else
          Ok {| compressedSize := Buffer.uintle (Buffer.field buf 0 3);
                compression := c;
                size := Buffer.uintle (Buffer.field buf 4 3);
                offset := Buffer.uintle (Buffer.field buf 12 4) * 16 |}
    end.
End PlainMeta.

Inductive Descriptor : Type :=
| OfImageMeta (m : ImageMeta.t)
| OfSampleMeta (m : SampleMeta.t)
| OfPmaInfoMeta (m : PmaInfoMeta.t)
| OfPmgInfoMeta (m : PmgInfoMeta.t)
| OfPlainMeta (m : PlainMeta.t).

(** [{ version: metadataHeader.type, ...descriptor.fromBuffer(...) }] *)
Record MetadataEntry : Type := { version : Z; fields : Descriptor }.

Module MetadataEntryHeader.
Record t : Type := { index : Z; type : Z }.

Definition sizeof : nat := 3 + 1.

Definition decode : Buffer.t -> result t :=
  decodeStruct sizeof (fun buf =>
    Ok {| index := Buffer.uintle (Buffer.field buf 0 3);
          type := Buffer.uintle (Buffer.field buf 3 1) |}).
End MetadataEntryHeader.

Module TileStreamHeader.
(** id, magic, numTiles, tileSizeIdx, lastTileSize *)
Definition sizeof : nat := 1 + 1 + 2 + 4 + 4.
End TileStreamHeader.

(** A JavaScript [Set] of numbers: insertion-ordered, [add] of a member
    changes nothing. *)
Definition Set_add (x : Z) (s : list Z) : list Z :=
  if existsb (Z.eqb x) s then s else s ++ [x].

(** ** Entries and their readers *)

Module EntryV2Metadata.
Record t : Type := {
  hash : Z;
  offset : Z;
  compressedSize : Z;
  uncompressedSize : Z;
  compression : Compression;
  isDirectory : bool
}.
End EntryV2Metadata.

(** [zlib.inflateSync(buffer)] *)
Definition inflate `{Natives} (buffer : Buffer.t) : M Buffer.t :=
  _ ← emit (Inflate buffer);
  match inflateSync buffer with
  | Some out => mret out
  | None => throw InflateError
  end.

(** [ScsArchiveEntryV2.read] *)
Definition read `{Natives} (fd : Buffer.t) (metadata : EntryV2Metadata.t)
    : M Buffer.t :=
  let rawData0 :=
    Buffer.alloc (Z.to_nat (EntryV2Metadata.compressedSize metadata)) in
  '(rawData, bytesRead) ←
    readSync fd rawData0 (length rawData0) (EntryV2Metadata.offset metadata);
  _ ← assert (bytesRead =? length rawData)%nat;
  match EntryV2Metadata.compression metadata with
  | NONE => mret rawData
  | ZLIB => inflate rawData
  | GDEFLATE =>
      let outputBuffer :=
        Buffer.alloc (Z.to_nat (EntryV2Metadata.uncompressedSize metadata)) in
      let input := drop TileStreamHeader.sizeof rawData in
      _ ← emit (Gdeflate input (length outputBuffer));
      let '(result, written) := gdeflate input (length outputBuffer) in
      if negb (result =? 0) then throw (GdeflateError result)
      else mret (Buffer.copy written outputBuffer 0)
  | ZLIB_HEADERLESS => throw (UnsupportedCompression (Compression_tag ZLIB_HEADERLESS))
  | ZSTD => throw (UnsupportedCompression (Compression_tag ZSTD))
  end.

(** *** The texture container synthesized for texture objects *)

(** The members of [D3d10ResourceDimension] and [D3d10ResourceMiscFlag]
    that the reader uses; their values are declared in [enum-dds-format]. *)
Class DdsEnums : Type := {
  Texture2d : Z;
  TextureCube : Z
}.

Module DdsPixelFormat.
Record t : Type := {
  size : Z;
  flags : Z;
  fourCc : string;
  rgbBitCount : Z;
  rBitMask : Z;
  gBitMask : Z;
  bBitMask : Z;
  aBitMask : Z
}.

Definition toBuffer (p : t) : Buffer.t :=
  Buffer.to_uintle 4 (size p) ++ Buffer.to_uintle 4 (flags p)
    ++ list_byte_of_string (fourCc p)
    ++ Buffer.to_uintle 4 (rgbBitCount p)
    ++ Buffer.to_uintle 4 (rBitMask p) ++ Buffer.to_uintle 4 (gBitMask p)
    ++ Buffer.to_uintle 4 (bBitMask p) ++ Buffer.to_uintle 4 (aBitMask p).
End DdsPixelFormat.

Module DdsHeader.
Record t : Type := {
  size : Z;
  flags : Z;
  height : Z;
  width : Z;
  pitchOrLinearSize : Z;
  depth : Z;
  mipMapCount : Z;
  ddsPixelFormat : DdsPixelFormat.t;
  caps : Z;
  caps2 : Z;
  caps3 : Z;
  caps4 : Z
}.

(** Modelled from the spec: the layout of the struct [DdsHeader], declared
    in [dds-parser]. It is the 124-byte legacy header of the DDS container:
    seven 32-bit fields, eleven reserved words ([reserved1]), the 32-byte
    pixel format, four capability words and one reserved word
    ([reserved2]); the fourCC is then at offset 84 of a file that starts
    with the 4-byte magic. *)
Definition sizeof : nat := 7 * 4 + 11 * 4 + 32 + 4 * 4 + 4.

Definition toBuffer (h : t) : Buffer.t :=
  Buffer.to_uintle 4 (size h) ++ Buffer.to_uintle 4 (flags h)
    ++ Buffer.to_uintle 4 (height h) ++ Buffer.to_uintle 4 (width h)
    ++ Buffer.to_uintle 4 (pitchOrLinearSize h)
    ++ Buffer.to_uintle 4 (depth h) ++ Buffer.to_uintle 4 (mipMapCount h)
    ++ Buffer.alloc (11 * 4)
    ++ DdsPixelFormat.toBuffer (ddsPixelFormat h)
    ++ Buffer.to_uintle 4 (caps h) ++ Buffer.to_uintle 4 (caps2 h)
    ++ Buffer.to_uintle 4 (caps3 h) ++ Buffer.to_uintle 4 (caps4 h)
    ++ Buffer.alloc 4.
End DdsHeader.

Module DdsHeaderDX10.
Record t : Type := {
  dxgiFormat : Z;
  resourceDimension : Z;
  miscFlag : Z;
  arraySize : Z;
  miscFlags2 : Z
}.

(** Modelled from the spec: the layout of the struct [DdsHeaderDX10],
    declared in [dds-parser]: the 20-byte DX10 extension, five 32-bit
    fields in this order. *)
Definition sizeof : nat := 5 * 4.

Definition toBuffer (h : t) : Buffer.t :=
  Buffer.to_uintle 4 (dxgiFormat h)
    ++ Buffer.to_uintle 4 (resourceDimension h)
    ++ Buffer.to_uintle 4 (miscFlag h)
    ++ Buffer.to_uintle 4 (arraySize h)
    ++ Buffer.to_uintle 4 (miscFlags2 h).
End DdsHeaderDX10.

(** The two headers [ScsArchiveTobjFile.read] builds for a payload. *)
Definition tobjHeader (imageMetadata : ImageMeta.t) (ddsBytes : Buffer.t)
    : DdsHeader.t :=
  {| DdsHeader.size := Z.of_nat DdsHeader.sizeof;
     DdsHeader.flags := 0;
     DdsHeader.height := ImageMeta.height imageMetadata;
     DdsHeader.width := ImageMeta.width imageMetadata;
     DdsHeader.pitchOrLinearSize := Z.of_nat (length ddsBytes);
     DdsHeader.depth := 0;
     DdsHeader.mipMapCount :=
       ImageMeta.mipmapCount (ImageMeta.image imageMetadata);
     DdsHeader.ddsPixelFormat :=
       {| DdsPixelFormat.size := 32;
          DdsPixelFormat.flags := 4;
          DdsPixelFormat.fourCc := "DX10";
          DdsPixelFormat.rgbBitCount := 0;
          DdsPixelFormat.rBitMask := 0;
          DdsPixelFormat.gBitMask := 0;
          DdsPixelFormat.bBitMask := 0;
          DdsPixelFormat.aBitMask := 0 |};
     DdsHeader.caps := 0;
     DdsHeader.caps2 := 0;
     DdsHeader.caps3 := 0;
     DdsHeader.caps4 := 0 |}.

Definition tobjHeaderDX10 `{DdsEnums} (imageMetadata : ImageMeta.t)
    : DdsHeaderDX10.t :=
  {| DdsHeaderDX10.dxgiFormat :=
       ImageMeta.format (ImageMeta.image imageMetadata);
     DdsHeaderDX10.resourceDimension := Texture2d;
     DdsHeaderDX10.miscFlag :=
       if ImageMeta.isCube (ImageMeta.image imageMetadata)
       then TextureCube else 0;
     DdsHeaderDX10.arraySize := 1;
     DdsHeaderDX10.miscFlags2 := 0 |}.

(** The body of [ScsArchiveTobjFile.read] after [super.read()]. *)
Definition synthesizeDds `{DdsEnums} (imageMetadata : ImageMeta.t)
    (ddsBytes : Buffer.t) : Buffer.t :=
  let header := DdsHeader.toBuffer (tobjHeader imageMetadata ddsBytes) in
  let headerDX10 := DdsHeaderDX10.toBuffer (tobjHeaderDX10 imageMetadata) in
  let ddsFile :=
    Buffer.alloc (4 + DdsHeader.sizeof + DdsHeaderDX10.sizeof
                    + length ddsBytes) in
  let ddsFile := Buffer.write "DDS " ddsFile in
  let ddsFile := Buffer.copy header ddsFile 4 in
  let ddsFile := Buffer.copy headerDX10 ddsFile 128 in
  Buffer.copy ddsBytes ddsFile (4 + DdsHeader.sizeof + DdsHeaderDX10.sizeof).

Inductive FileEntry : Type :=
| ScsArchiveFileV2 (metadata : EntryV2Metadata.t)
| ScsArchiveTobjFile (metadata : EntryV2Metadata.t)
    (imageMetadata : ImageMeta.t).

Definition FileEntry_metadata (e : FileEntry) : EntryV2Metadata.t :=
  match e with
  | ScsArchiveFileV2 metadata => metadata
  | ScsArchiveTobjFile metadata _ => metadata
  end.

#[global] Instance FileEntry_hash : HasHash FileEntry :=
  fun e => EntryV2Metadata.hash (FileEntry_metadata e).

(** [entry.read()] for a file entry; [ScsArchiveTobjFile] overrides it. *)
Definition FileEntry_read `{Natives} `{DdsEnums} (fd : Buffer.t)
    (e : FileEntry) : M Buffer.t :=
  match e with
  | ScsArchiveFileV2 metadata => read fd metadata
  | ScsArchiveTobjFile metadata imageMetadata =>
      ddsBytes ← read fd metadata;
      mret (synthesizeDds imageMetadata ddsBytes)
  end.

(** *** Directories *)

Module ScsArchiveDirectoryV2.
Record t : Type := {
  metadata : EntryV2Metadata.t;
  subdirectories : list string;
  files : list string
}.
End ScsArchiveDirectoryV2.

Abbreviation DirectoryEntry := ScsArchiveDirectoryV2.t.

#[global] Instance DirectoryEntry_hash : HasHash DirectoryEntry :=
  fun e => EntryV2Metadata.hash (ScsArchiveDirectoryV2.metadata e).

(** [reader.readBuffer(length)] of a [DecodeStream] over [buffer] at
    position [pos]: the slice is clamped, the position is not. *)
Definition readBuffer (buffer : Buffer.t) (pos length : nat)
    : Buffer.t * nat :=
  (Buffer.subarray buffer pos (pos + length), (pos + length)%nat).

(** [buffer.toString()] decodes UTF-8. A JavaScript string is kept here
    as its UTF-8 encoding, which loses nothing for a decoded string: it
    has no lone surrogate. So a well-formed sequence is copied, and each
    maximal ill-formed part of the input gives U+FFFD, the bytes
    [ef bf bd]. The decoder is the one of the Encoding standard: after a
    lead byte it expects continuation bytes between [lower] and [upper];
    a byte outside ends the sequence in error and is then read again as
    the start of the next. *)
Definition replacementCharacter : list byte := [xef; xbf; xbd].

Record Utf8State : Type := {
  bytesNeeded : nat;
  lowerBoundary : Z;
  upperBoundary : Z;
  bytesSeen : list byte
}.

(** A byte read with no sequence open. *)
Definition utf8Start (b : byte) : list byte * option Utf8State :=
  let n := Buffer.u8 b in
  if n <=? 0x7F then ([b], None)
  else if (0xC2 <=? n) && (n <=? 0xDF)
  then ([], Some {| bytesNeeded := 1; lowerBoundary := 0x80;
                    upperBoundary := 0xBF; bytesSeen := [b] |})
  else if (0xE0 <=? n) && (n <=? 0xEF)
  then ([], Some {| bytesNeeded := 2;
                    lowerBoundary := if n =? 0xE0 then 0xA0 else 0x80;
                    upperBoundary := if n =? 0xED then 0x9F else 0xBF;
                    bytesSeen := [b] |})
  else if (0xF0 <=? n) && (n <=? 0xF4)
  then ([], Some {| bytesNeeded := 3;
                    lowerBoundary := if n =? 0xF0 then 0x90 else 0x80;
                    upperBoundary := if n =? 0xF4 then 0x8F else 0xBF;
                    bytesSeen := [b] |})
  else (replacementCharacter, None).

Fixpoint utf8Decode (state : option Utf8State) (bytes : list byte)
    : list byte :=
  match bytes with
  | [] =>
      match state with
      | None => []
      | Some _ => replacementCharacter
      end
  | b :: rest =>
      match state with
      | None =>
          let '(out, state') := utf8Start b in out ++ utf8Decode state' rest
      | Some s =>
          let n := Buffer.u8 b in
          if (lowerBoundary s <=? n) && (n <=? upperBoundary s)
          then match bytesNeeded s with
               | S (S k) =>
                   utf8Decode
                     (Some {| bytesNeeded := S k; lowerBoundary := 0x80;
                              upperBoundary := 0xBF;
                              bytesSeen := bytesSeen s ++ [b] |})
                     rest
               | _ => (bytesSeen s ++ [b]) ++ utf8Decode None rest
               end
          else let '(out, state') := utf8Start b in
               replacementCharacter ++ out ++ utf8Decode state' rest
      end
  end.

Definition toString (buffer : Buffer.t) : string :=
  string_of_list_byte (utf8Decode None buffer).

(** The loop of the constructor of [ScsArchiveDirectoryV2] over the
    string lengths. *)
Fixpoint readNames (buffer : Buffer.t) (pos : nat)
    (stringLengths : list byte) (subdirectories files : list string)
    : list string * list string :=
  match stringLengths with
  | [] => (subdirectories, files)
  | stringLength :: rest =>
      let '(bytes, pos') :=
        readBuffer buffer pos (Z.to_nat (Buffer.u8 stringLength)) in
      let str := toString bytes in
      if String.prefix "/" str
      then readNames buffer pos' rest
             (subdirectories ++ [String.substring 1 (String.length str - 1) str])
             files
      else readNames buffer pos' rest subdirectories (files ++ [str])
  end.

(** [new ScsArchiveDirectoryV2(fd, metadata)] *)
Definition newScsArchiveDirectoryV2 `{Natives} (fd : Buffer.t)
    (metadata : EntryV2Metadata.t) : M DirectoryEntry :=
  data ← read fd metadata;
  let '(head, pos) := readBuffer data 0 4 in
  numStrings ← liftR (decodeStruct 4 (fun b => Ok (Buffer.uintle b)) head);
  let '(stringLengths, pos) := readBuffer data pos (Z.to_nat numStrings) in
  let '(subdirectories, files) := readNames data pos stringLengths [] [] in
  mret {| ScsArchiveDirectoryV2.metadata := metadata;
          ScsArchiveDirectoryV2.subdirectories := subdirectories;
          ScsArchiveDirectoryV2.files := files |}.

(** *** Entries from the tables *)

Definition metadataOf (header : EntryV2Header.t) (plainMeta : PlainMeta.t)
    : EntryV2Metadata.t :=
  {| EntryV2Metadata.hash := EntryV2Header.hash header;
     EntryV2Metadata.offset := PlainMeta.offset plainMeta;
     EntryV2Metadata.compressedSize := PlainMeta.compressedSize plainMeta;
     EntryV2Metadata.uncompressedSize := PlainMeta.size plainMeta;
     EntryV2Metadata.compression := PlainMeta.compression plainMeta;
     EntryV2Metadata.isDirectory := EntryV2Header.isDirectory header |}.

(** The casts [as BaseOf<typeof PlainMeta>] and [as BaseOf<typeof
    ImageMeta>]. A metadata map built by [createMetadataMap] holds the
    descriptor that goes with each version, so the casts never fail on it. *)
Definition asPlainMeta (m : MetadataEntry) : M PlainMeta.t :=
  match fields m with
  | OfPlainMeta p => mret p
  | _ => throw AssertionFailed
  end.

Definition asImageMeta (m : MetadataEntry) : M ImageMeta.t :=
  match fields m with
  | OfImageMeta p => mret p
  | _ => throw AssertionFailed
  end.

Definition checkArgument (b : bool) : M unit :=
  if b then mret tt else throw IllegalArgument.

Definition checkState (b : bool) : M unit :=
  if b then mret tt else throw IllegalState.

(** [metas.find(m => m.version === version)] *)
Definition findVersion (version' : Z) (metas : list MetadataEntry)
    : option MetadataEntry :=
  List.find (fun m => version m =? version') metas.

Definition createTobjEntry (header : EntryV2Header.t)
    (metadataMap : gmap Z MetadataEntry) : M FileEntry :=
  _ ← checkArgument (negb (EntryV2Header.isDirectory header)
                       && (EntryV2Header.metadataCount header =? 3));
  m0 ← assertExists (metadataMap !! EntryV2Header.metadataIndex header);
  m1 ← assertExists (metadataMap !! (EntryV2Header.metadataIndex header + 1));
  m2 ← assertExists (metadataMap !! (EntryV2Header.metadataIndex header + 2));
  let metas := [m0; m1; m2] in
  imageEntry ← assertExists (findVersion MetadataType.IMG metas);
  imageMeta ← asImageMeta imageEntry;
  _ ← assertExists (findVersion MetadataType.SAMPLE metas);
  plainEntry ← assertExists (findVersion MetadataType.MIP_TAIL metas);
  plainMeta ← asPlainMeta plainEntry;
  mret (ScsArchiveTobjFile (metadataOf header plainMeta) imageMeta).

Definition createEntryV2 `{Natives} (fd : Buffer.t)
    (header : EntryV2Header.t) (metadataMap : gmap Z MetadataEntry)
    : M (DirectoryEntry + FileEntry) :=
  if EntryV2Header.metadataCount header =? 3
  then entry ← createTobjEntry header metadataMap; mret (inr entry)
  else
    assocMetadata ←
      assertExists (metadataMap !! EntryV2Header.metadataIndex header);
    _ ← (if EntryV2Header.isDirectory header
         then assert (version assocMetadata =? MetadataType.DIRECTORY)
         else mret tt);
    _ ← assert ((version assocMetadata =? MetadataType.PLAIN)
                  || (version assocMetadata =? MetadataType.DIRECTORY));
    plainMeta ← asPlainMeta assocMetadata;
    let metadata := metadataOf header plainMeta in
    if EntryV2Metadata.isDirectory metadata
    then entry ← newScsArchiveDirectoryV2 fd metadata; mret (inl entry)
    else mret (inr (ScsArchiveFileV2 metadata)).

(** ** The V2 archive *)

Record Entries : Type := {
  directories : Store DirectoryEntry;
  files : Store FileEntry
}.

Module ScsArchiveV2.
Record t : Type := {
  fd : Buffer.t;                 (* the content of the open file *)
  header : FileHeaderV2.t;
  entries : option Entries       (* the cache of [parseEntries] *)
}.

Definition isValid (this : t) : bool :=
  String.eqb (FileHeaderV2.magic (header this)) "SCS#"
  && String.eqb (FileHeaderV2.hashMethod (header this)) "CITY"
  && (FileHeaderV2.version (header this) =? 2).

Definition readData `{Natives} (this : t) (offset : Z)
    (compressedSize uncompressedSize : Z) : M Buffer.t :=
  let buffer0 := Buffer.alloc (Z.to_nat compressedSize) in
  '(buffer, _) ← readSync (fd this) buffer0 (length buffer0) offset;
  if negb (compressedSize =? uncompressedSize)
  then inflate buffer
  else mret buffer.

(** The descriptor a version is decoded with. *)
Definition decodeDescriptor (type : Z) (buf : Buffer.t) : result Descriptor :=
  if type =? MetadataType.IMG then
    match ImageMeta.decode buf with Ok m => Ok (OfImageMeta m) | Throw e => Throw e end
  else if type =? MetadataType.SAMPLE then
    match SampleMeta.decode buf with Ok m => Ok (OfSampleMeta m) | Throw e => Throw e end
  else if type =? MetadataType.PMA_INFO then
    match PmaInfoMeta.decode buf with Ok m => Ok (OfPmaInfoMeta m) | Throw e => Throw e end
  else if type =? MetadataType.PMG_INFO then
    match PmgInfoMeta.decode buf with Ok m => Ok (OfPmgInfoMeta m) | Throw e => Throw e end
  else
    match PlainMeta.decode buf with Ok m => Ok (OfPlainMeta m) | Throw e => Throw e end.

Definition descriptorSize (type : Z) : nat :=
  if type =? MetadataType.IMG then ImageMeta.sizeof
  else if type =? MetadataType.SAMPLE then SampleMeta.sizeof
  else if type =? MetadataType.PMA_INFO then PmaInfoMeta.sizeof
  else if type =? MetadataType.PMG_INFO then PmgInfoMeta.sizeof
  else PlainMeta.sizeof.

(** The metadata header of slot [key] of the metadata table. *)
Definition metadataHeaderAt (metadataTable : Buffer.t) (key : Z)
    : result MetadataEntryHeader.t :=
  let metadataHeaderByteOffset := Z.to_nat (4 * key) in
  MetadataEntryHeader.decode
    (Buffer.subarray metadataTable metadataHeaderByteOffset
       (metadataHeaderByteOffset + MetadataEntryHeader.sizeof)).

(** The state of the loops of [createMetadataMap]: the map and the set
    [skippedMetaTypes]. *)
Definition MapState : Type := gmap Z MetadataEntry * list Z.

(** The body of the inner loop, for the slot [header.metadataIndex + i]. *)
Definition metadataStep (metadataTable : Buffer.t) (st : MapState) (key : Z)
    : M MapState :=
  let '(metadataMap, skippedMetaTypes) := st in
  metadataHeader ← liftR (metadataHeaderAt metadataTable key);
  let type := MetadataEntryHeader.type metadataHeader in
  if MetadataType.is_described type then
    let metadataEntryByteOffset :=
      Z.to_nat (4 * MetadataEntryHeader.index metadataHeader) in
    descriptor ← liftR (decodeDescriptor type
      (Buffer.subarray metadataTable metadataEntryByteOffset
         (metadataEntryByteOffset + descriptorSize type)));
    mret (<[key := {| version := type; fields := descriptor |}]> metadataMap,
          skippedMetaTypes)
  else if MetadataType.is_skipped type then
    mret (metadataMap, Set_add type skippedMetaTypes)
  else throw (Unreachable type).

(** The slots an entry header walks: [metadataIndex + i] for
    [0 <= i < metadataCount]. *)
Definition slotsOf (header : EntryV2Header.t) : list Z :=
  seqZ (EntryV2Header.metadataIndex header)
       (EntryV2Header.metadataCount header).

Definition slots (entryHeaders : list EntryV2Header.t) : list Z :=
  concat (slotsOf <$> entryHeaders).

Definition metadataLoop (metadataTable : Buffer.t)
    (entryHeaders : list EntryV2Header.t) : M MapState :=
  foldM (fun st header => foldM (metadataStep metadataTable) st (slotsOf header))
        (∅, []) entryHeaders.

Definition createMetadataMap `{Natives} (this : t)
    (entryHeaders : list EntryV2Header.t) : M (gmap Z MetadataEntry) :=
  metadataTable ←
    readData this (FileHeaderV2.metadataTableOffset (header this))
      (FileHeaderV2.metadataTableCompressedSize (header this))
      (FileHeaderV2.metadataTableSize (header this));
  '(metadataMap, skippedMetaTypes) ← metadataLoop metadataTable entryHeaders;
  _ ← (if negb (length skippedMetaTypes =? 0)%nat
       then emit (Warn "skipped metadata types" skippedMetaTypes)
       else mret tt);
  mret metadataMap.

(** The loop of [parseEntries] that sorts the entries into directories and
    files. *)
Definition entryStep `{Natives} (this : t)
    (metadataMap : gmap Z MetadataEntry)
    (acc : list DirectoryEntry * list FileEntry) (header : EntryV2Header.t)
    : M (list DirectoryEntry * list FileEntry) :=
  entry ← createEntryV2 (fd this) header metadataMap;
  match entry with
  | inl directory => mret (acc.1 ++ [directory], acc.2)
  | inr file => mret (acc.1, acc.2 ++ [file])
  end.

Definition readEntryHeaders `{Natives} (this : t) : M (list EntryV2Header.t) :=
  table ←
    readData this (FileHeaderV2.entryTableOffset (header this))
      (FileHeaderV2.entryTableCompressedSize (header this))
      (Z.of_nat EntryV2Header.sizeof
         * FileHeaderV2.entryTableCount (header this));
  liftR (EntryV2Header.decodeArray
           (Z.to_nat (FileHeaderV2.entryTableCount (header this))) table).

(** [parseEntries]: the entries and the archive with its cache filled. *)
Definition parseEntries `{Natives} (this : t) : M (Entries * t) :=
  _ ← checkState (isValid this);
  match entries this with
  | Some cached => mret (cached, this)
  | None =>
      entryHeaders ← readEntryHeaders this;
      metadataMap ← createMetadataMap this entryHeaders;
      '(directories, files) ←
        foldM (entryStep this metadataMap) ([], []) entryHeaders;
      let entries :=
        {| directories :=
             createStore directories (FileHeaderV2.salt (header this));
           files := createStore files (FileHeaderV2.salt (header this)) |} in
      mret (entries,
            {| fd := fd this; header := header this;
               entries := Some entries |})
  end.
End ScsArchiveV2.

(** ** Opening an archive *)

(** [r.int16le]: two bytes in two's complement. *)
Definition int16le (bs : Buffer.t) : Z :=
  let u := Buffer.uintle bs in
  if u <? 2 ^ 15 then u else u - 2 ^ 16.

(** [new r.String(4)]: text is kept as the bytes read. The reader only
    compares it with literals made of ASCII characters, and a byte is
    decoded to an ASCII character only if it is that character. *)
Definition string4 (bs : Buffer.t) : string := string_of_list_byte bs.

Module Version.
Record t : Type := { magic : string; version : Z }.

Definition sizeof : nat := 4 + 2.

Definition decode : Buffer.t -> result t :=
  decodeStruct sizeof (fun buf =>
    Ok {| magic := string4 (Buffer.field buf 0 4);
          version := int16le (Buffer.field buf 4 2) |}).
End Version.

(** [FileHeaderV2.size()] and [FileHeaderV2.fromBuffer]. *)
Definition FileHeaderV2_sizeof : nat :=
  4 + 2 + 2 + 4 + 4 + 4 + 4 + 4 + 8 + 8 + 8 + 1.

Definition FileHeaderV2_decode : Buffer.t -> result FileHeaderV2.t :=
  decodeStruct FileHeaderV2_sizeof (fun buf =>
    Ok {| FileHeaderV2.magic := string4 (Buffer.field buf 0 4);
          FileHeaderV2.version := int16le (Buffer.field buf 4 2);
          FileHeaderV2.salt := int16le (Buffer.field buf 6 2);
          FileHeaderV2.hashMethod := string4 (Buffer.field buf 8 4);
          FileHeaderV2.entryTableCount :=
            Buffer.uintle (Buffer.field buf 12 4);
          FileHeaderV2.entryTableCompressedSize :=
            Buffer.uintle (Buffer.field buf 16 4);
          FileHeaderV2.metadataTableSize :=
            Buffer.uintle (Buffer.field buf 20 4);
          FileHeaderV2.metadataTableCompressedSize :=
            Buffer.uintle (Buffer.field buf 24 4);
          FileHeaderV2.entryTableOffset :=
            Buffer.uintle (Buffer.field buf 28 8);
          FileHeaderV2.metadataTableOffset :=
            Buffer.uintle (Buffer.field buf 36 8);
          FileHeaderV2.securityDescriptorOffset :=
            Buffer.uintle (Buffer.field buf 44 8);
          FileHeaderV2.hashfsV2Platform :=
            Buffer.uintle (Buffer.field buf 52 1) |}).

(** [new ScsArchiveV2(fd, path)]. The read names no position and so
    starts at the current one, which is 0: [ScsArchive], the one caller,
    has just opened the file, and its own read, which names its position,
    does not move the current one. *)
Definition newScsArchiveV2 (fd : Buffer.t) : M ScsArchiveV2.t :=
  let buffer0 := Buffer.alloc FileHeaderV2_sizeof in
  '(buffer, _) ← readSync fd buffer0 (length buffer0) 0;
  header ← liftR (FileHeaderV2_decode buffer);
  mret {| ScsArchiveV2.fd := fd;
          ScsArchiveV2.header := header;
          ScsArchiveV2.entries := None |}.

(** Modelled from the spec: the readers [ScsArchiveV1] and [ZipArchive],
    defined in other files. Their constructors take the open file and its
    path; what they read, and whether they throw, is theirs to say. *)
Class Readers : Type := {
  ScsArchiveV1 : Type;
  ZipArchive : Type;
  newScsArchiveV1 : Buffer.t -> string -> M ScsArchiveV1;
  newZipArchive : Buffer.t -> string -> M ZipArchive
}.

(** The three readers that [ScsArchive] chooses from. *)
Inductive Archive `{Readers} : Type :=
| OfScsArchiveV1 (archive : ScsArchiveV1)
| OfScsArchiveV2 (archive : ScsArchiveV2.t)
| OfZipArchive (archive : ZipArchive).

(** [ScsArchive(path)], for a path that [fs.openSync] opens on a file
    whose content is [file]. *)
Definition ScsArchive `{Readers} (path : string) (file : Buffer.t)
    : M Archive :=
  let buffer0 := Buffer.alloc Version.sizeof in
  '(buffer, _) ← readSync file buffer0 (length buffer0) 0;
  fileType ← liftR (Version.decode buffer);
  if String.eqb (Version.magic fileType) "SCS#"
     && (Version.version fileType =? 1)
  then archive ← newScsArchiveV1 file path; mret (OfScsArchiveV1 archive)
  else if String.eqb (Version.magic fileType) "SCS#"
          && (Version.version fileType =? 2)
  then archive ← newScsArchiveV2 file; mret (OfScsArchiveV2 archive)
  else archive ← newZipArchive file path; mret (OfZipArchive archive).

(* ===================================================================== *)
(** ** The map assembly pass: the last stages of [postProcess]           *)
(* ===================================================================== *)

(** A JavaScript number: a finite value, kept as a rational, an infinity
    or [NaN]. The two zeros are one here: the code embedded here does not
    tell them apart. *)
Inductive JsNumber : Type :=
| Finite (q : Q)
| Infinity (negative : bool)
| NaN.

(** The integer nearest to [n / d], a tie going to the even one. *)
Definition roundHalfEven (n d : Z) : Z :=
  let k := n / d in
  match 2 * (n mod d) ?= d with
  | Lt => k
  | Gt => k + 1
  | Eq => if Z.even k then k else k + 1
  end.

(** [n / d / 2 ^ e] as a fraction of integers. *)
Definition scaled (n d e : Z) : Z * Z :=
  (n * 2 ^ Z.max 0 (- e), d * 2 ^ Z.max 0 e).

(** The exponent of the last bit of the binary64 value nearest to
    [n / d]: the significand [n / d / 2 ^ e] has 53 bits, unless that
    takes the exponent below the least one, -1074. *)
Definition exponent (n d : Z) : Z :=
  let e0 := Z.log2 n - Z.log2 d - 52 in
  let '(a, b) := scaled n d e0 in
  Z.max (if 2 ^ 52 * b <=? a then e0 else e0 - 1) (-1074).

(** The result of an operation whose exact value is [q]: the binary64
    value nearest to [q], a tie going to the even significand, and an
    infinity from [2 ^ 1024] on. *)
Definition binary64 (q : Q) : JsNumber :=
  let n := Z.abs (Qnum q) in
  let d := Zpos (Qden q) in
  if n =? 0 then Finite 0
  else
    let e := exponent n d in
    let '(a, b) := scaled n d e in
    let m := roundHalfEven a b in
    if (0 <=? e) && (2 ^ 1024 <=? m * 2 ^ e)
    then Infinity (Qnum q <? 0)
    else Finite (Qred (inject_Z (if Qnum q <? 0 then - m else m) * 2 ^ e)%Q).

Local Open Scope Q_scope.

(** [Math.round]: the nearest integer, a tie going up. *)
Definition Math_round (q : Q) : Q := inject_Z (Qfloor (q + (1 # 2))).

(** [Math.round(q * 100) / 100] for a coordinate [q]: the product is
    rounded to binary64, [Math.round] is exact, and the quotient is
    rounded to binary64. *)
Definition round2 (q : Q) : JsNumber :=
  match binary64 (q * 100) with
  | Finite product => binary64 (Math_round product / 100)
  | Infinity negative => Infinity negative
  | NaN => NaN
  end.

(** [a < b] on numbers. *)
Definition Qltb (a b : Q) : bool := negb (Qle_bool b a).

(** Modelled from the spec: the type [Node] of [map/types]: nodes carry a
    64-bit UID and a world-space position. *)
Record Node : Type := { node_uid : Z; x : Q; y : Q; z : Q }.

(** [distance] of [base/geom], between the positions of two nodes. *)
Class Geom : Type := { distance : Node -> Node -> Q }.

(** Modelled from the spec: the item types [Road], [Terrain], [Building]
    and [Curve] of [map/types], with the properties the pass reads. *)
Record Road : Type := {
  road_uid : Z;
  roadLookToken : string;
  road_startNodeUid : Z;
  road_endNodeUid : Z;
  maybeDivided : option bool       (* an optional property *)
}.

Record Terrain : Type := {
  terrain_uid : Z;
  terrain_startNodeUid : Z;
  terrain_endNodeUid : Z
}.

Record Building : Type := {
  building_uid : Z;
  scheme : string;
  building_startNodeUid : Z;
  building_endNodeUid : Z
}.

Record Curve : Type := {
  curve_uid : Z;
  model : string;
  curve_startNodeUid : Z;
  curve_endNodeUid : Z
}.

(** An item, discriminated by its [type]; the item types the stages
    embedded here do not look at are [OtherItem]. *)
Inductive Item : Type :=
| RoadItem (i : Road)
| TerrainItem (i : Terrain)
| BuildingItem (i : Building)
| CurveItem (i : Curve)
| OtherItem (uid : Z).

(** [Terrain | Building | Curve] *)
Inductive Divider : Type :=
| DTerrain (i : Terrain)
| DBuilding (i : Building)
| DCurve (i : Curve).

Definition startNodeUid (d : Divider) : Z :=
  match d with
  | DTerrain i => terrain_startNodeUid i
  | DBuilding i => building_startNodeUid i
  | DCurve i => curve_startNodeUid i
  end.

Definition endNodeUid (d : Divider) : Z :=
  match d with
  | DTerrain i => terrain_endNodeUid i
  | DBuilding i => building_endNodeUid i
  | DCurve i => curve_endNodeUid i
  end.

Definition isTerrain (d : Divider) : bool :=
  match d with DTerrain _ => true | _ => false end.

Definition threshold : Q := 2.

(** The body of the loop over [items.values()]. *)
Definition classifyStep (acc : list Road * list Divider) (i : Item)
    : list Road * list Divider :=
  let '(sectorRoads, sectorDividers) := acc in
  match i with
  | RoadItem r => (sectorRoads ++ [r], sectorDividers)
  | TerrainItem t => (sectorRoads, sectorDividers ++ [DTerrain t])
  | BuildingItem b =>
      if String.eqb (scheme b) "scheme20"
      then (sectorRoads, sectorDividers ++ [DBuilding b])
      else acc
  | CurveItem c =>
      if String.eqb (model c) "0i03a" || String.eqb (model c) "0i03b"
      then (sectorRoads, sectorDividers ++ [DCurve c])
      else acc
  | OtherItem _ => acc
  end.

Definition classify (items : list Item) : list Road * list Divider :=
  foldl classifyStep ([], []) items.

Definition splitsRoad `{Geom} (nodesByUid : gmap Z Node) (rStart rEnd : Node)
    (t : Divider) : bool :=
  match nodesByUid !! startNodeUid t, nodesByUid !! endNodeUid t with
  | Some tStart, Some tEnd =>
      (Qltb (distance rStart tStart) threshold
         && Qltb (distance rEnd tEnd) threshold)
      || (Qltb (distance rStart tEnd) threshold
            && Qltb (distance rEnd tStart) threshold)
  | _, _ => false
  end.

Definition flag (r : Road) : Road :=
  {| road_uid := road_uid r;
     roadLookToken := roadLookToken r;
     road_startNodeUid := road_startNodeUid r;
     road_endNodeUid := road_endNodeUid r;
     maybeDivided := Some true |}.

Record SplitState : Type := {
  referencedNodeUids : list Z;
  roads : list Road;
  dividers : list Divider;
  splitCount : Z
}.

(** The body of the loop over [sectorRoads]. *)
Definition roadStep `{Geom} (nodesByUid : gmap Z Node)
    (sectorDividers : list Divider) (acc : list Road * Z) (r : Road)
    : list Road * Z :=
  match nodesByUid !! road_startNodeUid r, nodesByUid !! road_endNodeUid r with
  | Some rStart, Some rEnd =>
      if existsb (splitsRoad nodesByUid rStart rEnd) sectorDividers
      then (acc.1 ++ [flag r], (acc.2 + 1)%Z)
      else (acc.1 ++ [r], acc.2)
  | _, _ => acc
  end.

(** The body of the loop over [sectors.entries()]. *)
Definition sectorStep `{Geom} (nodesByUid : gmap Z Node) (st : SplitState)
    (sector : string * list Item) : SplitState :=
  let '(sectorRoads, sectorDividers) := classify sector.2 in
  let dividers' :=
    dividers st ++ filter (fun d => negb (isTerrain d)) sectorDividers in
  let referenced' :=
    foldl (fun s d => Set_add (endNodeUid d) (Set_add (startNodeUid d) s))
          (referencedNodeUids st) dividers' in
  let '(roads', splitCount') :=
    foldl (roadStep nodesByUid sectorDividers) (roads st, splitCount st)
          sectorRoads in
  {| referencedNodeUids := referenced';
     roads := roads';
     dividers := dividers';
     splitCount := splitCount' |}.

Definition splitStage `{Geom} (nodesByUid : gmap Z Node)
    (referencedNodeUids : list Z) (sectors : list (string * list Item))
    : SplitState :=
  foldl (sectorStep nodesByUid)
        {| referencedNodeUids := referencedNodeUids;
           roads := []; dividers := []; splitCount := 0 |}
        sectors.

(** *** Mileage targets *)

(** Modelled from the spec: the type [MileageTarget] of [map/types]: a
    target may carry explicit coordinates and may carry a node UID;
    [others] stands for its remaining properties. *)
Record MileageTarget : Type := {
  target_x : option JsNumber;
  target_y : option JsNumber;
  nodeUid : option Z;
  others : string
}.

(** Truthiness of an optional number and of an optional [bigint]. *)
Definition truthyNumber (o : option JsNumber) : bool :=
  match o with
  | Some (Finite q) => negb (Qeq_bool q 0)
  | Some (Infinity _) => true
  | Some NaN | None => false
  end.

Definition truthyZ (o : option Z) : bool :=
  match o with Some n => negb (n =? 0)%Z | None => false end.

(** A JavaScript [Map] with string keys, in insertion order. *)
Definition JsMap (V : Type) : Type := list (string * V).

Fixpoint Map_set {V} (key : string) (v : V) (m : JsMap V) : JsMap V :=
  match m with
  | [] => [(key, v)]
  | (k, v') :: m' =>
      if String.eqb k key then (k, v) :: m' else (k, v') :: Map_set key v m'
  end.

(** The body of the loop over [defData.mileageTargets]. *)
Definition mileageStep (nodesByUid : gmap Z Node)
    (mileageTargets : JsMap MileageTarget) (entry : string * MileageTarget)
    : JsMap MileageTarget :=
  let '(token, target) := entry in
  if (truthyNumber (target_x target) && truthyNumber (target_y target))
     || negb (truthyZ (nodeUid target))
  then mileageTargets
  else
    match nodeUid target ≫= (fun uid => nodesByUid !! uid) with
    | Some node =>
        Map_set token
          {| target_x := Some (round2 (x node));
             target_y := Some (round2 (y node));
             nodeUid := None;
             others := others target |}
          mileageTargets
    | None => mileageTargets
    end.

Definition mileageStage (nodesByUid : gmap Z Node)
    (mileageTargets : JsMap MileageTarget) : JsMap MileageTarget :=
  foldl (mileageStep nodesByUid) mileageTargets mileageTargets.

(** *** Emission *)

(** The nodes of a set of UIDs; a UID without a node is dropped. *)
Definition nodesOf (nodesByUid : gmap Z Node) (uids : list Z) : list Node :=
  omap (fun uid => nodesByUid !! uid) uids.

Definition roundedTriple (n : Node) : Q * Q * Q :=
  (Math_round (x n), Math_round (y n), Math_round (z n)).

(** The properties of [mapData] that the embedded stages compute. *)
Record MapData : Type := {
  mapData_nodes : list Node;
  mapData_elevation : list (Q * Q * Q);
  mapData_roads : list Road;
  mapData_dividers : list Divider;
  mapData_mileageTargets : JsMap MileageTarget
}.

(** [postProcess] from the road-split stage to its [return], on the state
    the earlier stages leave. *)
Definition emitMapData `{Geom} (nodesByUid : gmap Z Node)
    (referencedNodeUids0 elevationNodeUids : list Z)
    (sectors : list (string * list Item))
    (mileageTargets : JsMap MileageTarget) : MapData :=
  let st := splitStage nodesByUid referencedNodeUids0 sectors in
  let mileageTargets' := mileageStage nodesByUid mileageTargets in
  let referencedNodes := nodesOf nodesByUid (referencedNodeUids st) in
  let elevationNodes := nodesOf nodesByUid elevationNodeUids in
  {| mapData_nodes := referencedNodes;
     mapData_elevation := roundedTriple <$> elevationNodes;
     mapData_roads := roads st;
     mapData_dividers := dividers st;
     mapData_mileageTargets := mileageTargets' |}.

Local Close Scope Q_scope.

(** *** Localized names and token lists *)

(** [s.replaceAll('@', '')] *)
Fixpoint removeAts (s : string) : string :=
  match s with
  | EmptyString => EmptyString
  | String c rest =>
      if Ascii.eqb c (Ascii.ascii_of_byte "@"%byte) then removeAts rest
      else String c (removeAts rest)
  end.

(** Modelled from the spec: a record that carries [name] and an optional
    [nameLocalized]; [rest] stands for its other properties. *)
Module Named.
Record t : Type := {
  name : string;
  nameLocalized : option string;
  rest : string
}.
End Named.

(** [createWithLocalizedName(l10n)]: an absent and an empty
    [nameLocalized] are both falsy; [??] falls back to [o.name] only when
    the table has no entry. *)
Definition createWithLocalizedName (l10n : gmap string string)
    (o : Named.t) : Named.t :=
  {| Named.name :=
       match Named.nameLocalized o with
       | Some (String c s) =>
           default (Named.name o) (l10n !! removeAts (String c s))
       | _ => Named.name o
       end;
     Named.nameLocalized := None;
     Named.rest := Named.rest o |}.

(** A property value: a string, or any other value. *)
Inductive JsValue : Type :=
| JsString (s : string)
| JsOther (id : Z).

(** An object, as the map from its property names to their values. *)
Definition JsObject : Type := gmap string JsValue.

(** [valuesWithTokens(map)]: in [{ token, ...v }] the properties of [v]
    are written after [token]. *)
Definition valuesWithTokens (map : JsMap JsObject) : list JsObject :=
  (fun entry : string * JsObject =>
     entry.2 ∪ {[ "token" := JsString entry.1 ]}) <$> map.

(** *** Cities *)

(** Modelled from the spec: a city area of a sector, the partial city of
    the definitions ([partial] stands for its properties) and the complete
    city record. *)
Record CityArea : Type := {
  area_uid : Z;
  hidden : bool;
  area_x : Q;
  area_y : Q
}.

Record City : Type := {
  partial : string;
  city_x : Q;
  city_y : Q;
  areas : list CityArea
}.

(** The two warnings of the city stage. *)
Inductive CityWarning : Type :=
| NoMatchingCityArea (token : string)
| NoLocationCityArea (token : string).

(** The body of the loop over [defData.cities]: the map [cities] and the
    warnings logged so far. *)
Definition cityStep (cityAreas : gmap string (list CityArea))
    (acc : JsMap City * list CityWarning) (entry : string * string)
    : JsMap City * list CityWarning :=
  let '(token, partialCity) := entry in
  match cityAreas !! token with
  | None => (acc.1, acc.2 ++ [NoMatchingCityArea token])
  | Some areas =>
      match List.find (fun a => negb (hidden a)) areas with
      | None => (acc.1, acc.2 ++ [NoLocationCityArea token])
      | Some nonHidden =>
          (Map_set token
             {| partial := partialCity;
                city_x := area_x nonHidden;
                city_y := area_y nonHidden;
                areas := areas |}
             acc.1,
           acc.2)
      end
  end.

Definition cityStage (cityAreas : gmap string (list CityArea))
    (defCities : JsMap string) : JsMap City * list CityWarning :=
  foldl (cityStep cityAreas) ([], []) defCities.

(** *** Sector files *)

(** [s.endsWith(suffix)], on the bytes of the two texts. *)
Definition endsWith (suffix s : string) : bool :=
  let bytes := list_byte_of_string s in
  let tail := list_byte_of_string suffix in
  String.eqb
    (string_of_list_byte (drop (length bytes - length tail) bytes)) suffix.

(** The filter that makes [baseFiles]. *)
Definition isBaseFile (f : string) : bool :=
  endsWith ".base" f || endsWith ".aux" f.

(** [f.replace(/\.(base|aux)$/, '')] *)
Definition sectorKeyOf (f : string) : string :=
  let bytes := list_byte_of_string f in
  if endsWith ".base" f
  then string_of_list_byte (take (length bytes - 5) bytes)
  else if endsWith ".aux" f
  then string_of_list_byte (take (length bytes - 4) bytes)
  else f.

(** The classes [\d] and [[+-]] of the sector pattern. *)
Definition isDigit (b : byte) : bool :=
  (48 <=? Buffer.u8 b)%Z && (Buffer.u8 b <=? 57)%Z.

Definition isSign (b : byte) : bool :=
  Byte.eqb b "+"%byte || Byte.eqb b "-"%byte.

(** [sectorRegex.exec(sectorKey)] for
    [/^sec([+-]\d{4})([+-]\d{4})$/]: the two groups of a match. *)
Definition sectorRegex_exec (sectorKey : string)
    : option (list byte * list byte) :=
  match list_byte_of_string sectorKey with
  | [s; e; c; s1; a1; a2; a3; a4; s2; b1; b2; b3; b4] =>
      if Byte.eqb s "s"%byte && Byte.eqb e "e"%byte && Byte.eqb c "c"%byte
         && isSign s1 && isDigit a1 && isDigit a2 && isDigit a3 && isDigit a4
         && isSign s2 && isDigit b1 && isDigit b2 && isDigit b3 && isDigit b4
      then Some ([s1; a1; a2; a3; a4], [s2; b1; b2; b3; b4])
      else None
  | _ => None
  end.

(** The value of the longest run of decimal digits at the start of a
    text. *)
Fixpoint digitsValue (acc : Z) (bs : list byte) : Z :=
  match bs with
  | b :: rest =>
      if isDigit b then digitsValue (10 * acc + (Buffer.u8 b - 48))%Z rest
      else acc
  | [] => acc
  end.

(** [parseFloat] of a text that starts with an optional sign and decimal
    digits; [None] is [NaN]. The fraction and the exponent of a decimal
    literal are not modelled: the groups of the sector pattern, the only
    texts it is applied to, have neither. Minus zero is zero. *)
Definition parseFloat (bs : list byte) : option Z :=
  let '(sign, digits) :=
    match bs with
    | b :: rest =>
        if Byte.eqb b "-"%byte then ((-1)%Z, rest)
        else if Byte.eqb b "+"%byte then (1%Z, rest)
        else (1%Z, bs)
    | [] => (1%Z, [])
    end in
  match digits with
  | d :: _ => if isDigit d then Some (sign * digitsValue 0 digits)%Z else None
  | [] => None
  end.

(** What the loop over [baseFiles] makes of a file name: one of its two
    errors, or the key and the coordinates of the sector. *)
Inductive SectorFile : Type :=
| UnexpectedSectorKey (sectorKey : string)
| CouldNotParse
| SectorAt (sectorKey : string) (sectorX sectorY : Z).

Definition sectorOf (f : string) : SectorFile :=
  let sectorKey := sectorKeyOf f in
  match sectorRegex_exec sectorKey with
  | None => UnexpectedSectorKey sectorKey
  | Some (groupX, groupY) =>
      match parseFloat groupX, parseFloat groupY with
      | Some sectorX, Some sectorY => SectorAt sectorKey sectorX sectorY
      | _, _ => CouldNotParse
      end
  end.

(* ===================================================================== *)
(** ** The vocabulary of the properties                                   *)
(* ===================================================================== *)

(** The bytes a [fs.readSync] of [length] bytes at [position] leaves in a
    fresh buffer of that length: the bytes of the file, then zeros if the
    file ends early. *)
Definition bytesAt (fd : Buffer.t) (position : Z) (length : nat) : Buffer.t :=
  Buffer.copy (take length (drop (Z.to_nat position) fd))
              (Buffer.alloc length) 0.

(** The header of slot [key] carries the skipped tag [type]. *)
Definition skippedAt (metadataTable : Buffer.t) (key type : Z) : Prop :=
  exists metadataHeader,
    ScsArchiveV2.metadataHeaderAt metadataTable key = Ok metadataHeader
    /\ MetadataEntryHeader.type metadataHeader = type
    /\ MetadataType.is_skipped type = true.

(** The dividers of the pass: a terrain, a building whose scheme is
    ["scheme20"], a curve whose model is ["0i03a"] or ["0i03b"]. *)
Inductive isDividerOf : Item -> Divider -> Prop :=
| terrain_divides (t : Terrain) : isDividerOf (TerrainItem t) (DTerrain t)
| building_divides (b : Building) :
    scheme b = "scheme20" -> isDividerOf (BuildingItem b) (DBuilding b)
| curve_divides (c : Curve) :
    model c = "0i03a" \/ model c = "0i03b" ->
    isDividerOf (CurveItem c) (DCurve c).

Definition roadOf (i : Item) : option Road :=
  match i with RoadItem r => Some r | _ => None end.

Definition dividerOf (i : Item) : option Divider :=
  match i with
  | TerrainItem t => Some (DTerrain t)
  | BuildingItem b =>
      if String.eqb (scheme b) "scheme20" then Some (DBuilding b) else None
  | CurveItem c =>
      if String.eqb (model c) "0i03a" || String.eqb (model c) "0i03b"
      then Some (DCurve c) else None
  | _ => None
  end.

(** An item with the two ends of a terrain, building or curve exchanged. *)
Definition swapEnds (i : Item) : Item :=
  match i with
  | TerrainItem t =>
      TerrainItem {| terrain_uid := terrain_uid t;
                     terrain_startNodeUid := terrain_endNodeUid t;
                     terrain_endNodeUid := terrain_startNodeUid t |}
  | BuildingItem b =>
      BuildingItem {| building_uid := building_uid b;
                      scheme := scheme b;
                      building_startNodeUid := building_endNodeUid b;
                      building_endNodeUid := building_startNodeUid b |}
  | CurveItem c =>
      CurveItem {| curve_uid := curve_uid c;
                   model := model c;
                   curve_startNodeUid := curve_endNodeUid c;
                   curve_endNodeUid := curve_startNodeUid c |}
  | _ => i
  end.

(** Sectors that differ at most by dividers whose ends are exchanged. *)
Definition sameUpToSwaps (sectors sectors' : list (string * list Item))
    : Prop :=
  Forall2 (fun s s' =>
             s'.1 = s.1
             /\ Forall2 (fun i i' => i' = i \/ i' = swapEnds i) s.2 s'.2)
          sectors sectors'.

(** The road pushed for [r], if any. *)
Definition roadOut `{Geom} (nodesByUid : gmap Z Node)
    (sectorDividers : list Divider) (r : Road) : option Road :=
  match nodesByUid !! road_startNodeUid r, nodesByUid !! road_endNodeUid r with
  | Some rStart, Some rEnd =>
      Some (if existsb (splitsRoad nodesByUid rStart rEnd) sectorDividers
            then flag r else r)
  | _, _ => None
  end.

Definition sectorRoadsOut `{Geom} (nodesByUid : gmap Z Node)
    (items : list Item) : list Road :=
  omap (roadOut nodesByUid (omap dividerOf items)) (omap roadOf items).

Definition swapDivider (d : Divider) : Divider :=
  match d with
  | DTerrain t =>
      DTerrain {| terrain_uid := terrain_uid t;
                  terrain_startNodeUid := terrain_endNodeUid t;
                  terrain_endNodeUid := terrain_startNodeUid t |}
  | DBuilding b =>
      DBuilding {| building_uid := building_uid b;
                   scheme := scheme b;
                   building_startNodeUid := building_endNodeUid b;
                   building_endNodeUid := building_startNodeUid b |}
  | DCurve c =>
      DCurve {| curve_uid := curve_uid c;
                model := model c;
                curve_startNodeUid := curve_endNodeUid c;
                curve_endNodeUid := curve_startNodeUid c |}
  end.

(** The triple of coordinates an emitted node carries. *)
Definition coordinates (n : Node) : Q * Q * Q := (x n, y n, z n).

(** Both [nodes] and [elevation] hold, for each node, the triple of its
    rounded coordinates. *)
Definition nodes_and_elevation_are_rounded_triples : Prop :=
  forall (G : Geom) (nodesByUid : gmap Z Node)
         (referencedNodeUids0 elevationNodeUids : list Z)
         (sectors : list (string * list Item))
         (mileageTargets : JsMap MileageTarget),
    let referenced :=
      referencedNodeUids
        (splitStage nodesByUid referencedNodeUids0 sectors) in
    let mapData :=
      emitMapData nodesByUid referencedNodeUids0 elevationNodeUids sectors
        mileageTargets in
    coordinates <$> mapData_nodes mapData
    = roundedTriple <$> nodesOf nodesByUid referenced
    /\ mapData_elevation mapData
       = roundedTriple <$> nodesOf nodesByUid elevationNodeUids.

(** What the pass makes of one target. *)
Definition augment (nodesByUid : gmap Z Node) (target : MileageTarget)
    : MileageTarget :=
  if (truthyNumber (target_x target) && truthyNumber (target_y target))
     || negb (truthyZ (nodeUid target))
  then target
  else
    match nodeUid target ≫= (fun uid => nodesByUid !! uid) with
    | Some node =>
        {| target_x := Some (round2 (x node));
           target_y := Some (round2 (y node));
           nodeUid := None;
           others := others target |}
    | None => target
    end.

(** A coordinate that is present and neither zero nor [NaN]: what
    JavaScript takes for true in [target.x && target.y]. *)
Definition nonzero (o : option JsNumber) : Prop :=
  exists v,
    o = Some v
    /\ match v with
       | Finite q => ~ (q == 0)%Q
       | Infinity _ => True
       | NaN => False
       end.

(** The target the pass writes for a target whose node is [node]. *)
Definition positioned (target : MileageTarget) (node : Node) : MileageTarget :=
  {| target_x := Some (round2 (x node));
     target_y := Some (round2 (y node));
     nodeUid := None;
     others := others target |}.

(** The claim at one target: a target with both coordinates, or without a
    node UID, or whose node is not found, is kept; any other is replaced
    by one positioned at its node. *)
Definition mileage_claim_at (nodesByUid : gmap Z Node)
    (mileageTargets : JsMap MileageTarget) (i : nat) (token : string)
    (target : MileageTarget) : Prop :=
  let out := mileageStage nodesByUid mileageTargets in
  match target_x target, target_y target with
  | Some _, Some _ => out !! i = Some (token, target)
  | _, _ =>
      match nodeUid target with
      | None => out !! i = Some (token, target)
      | Some uid =>
          match nodesByUid !! uid with
          | None => out !! i = Some (token, target)
          | Some node => out !! i = Some (token, positioned target node)
          end
      end
  end.

Definition mileage_claim : Prop :=
  forall nodesByUid mileageTargets i token target,
    NoDup mileageTargets.*1 ->
    mileageTargets !! i = Some (token, target) ->
    mileage_claim_at nodesByUid mileageTargets i token target.

(** A successful [read] of a file entry returns as many bytes as the
    entry declares uncompressed. *)
Definition read_length_is_declared : Prop :=
  forall (N : Natives) (D : DdsEnums) (fd : Buffer.t) (e : FileEntry)
         (out : Buffer.t),
    outcome (FileEntry_read fd e) = Ok out ->
    length out
    = Z.to_nat (EntryV2Metadata.uncompressedSize (FileEntry_metadata e)).

(** The entry that [createMetadataMap] stores for slot [key]: the header
    of the slot carries a tag with a descriptor, and the descriptor is
    decoded at four times the index of the header. *)
Definition describedAt (metadataTable : Buffer.t) (key : Z)
    (m : MetadataEntry) : Prop :=
  exists metadataHeader descriptor,
    ScsArchiveV2.metadataHeaderAt metadataTable key = Ok metadataHeader
    /\ MetadataType.is_described (MetadataEntryHeader.type metadataHeader)
       = true
    /\ ScsArchiveV2.decodeDescriptor (MetadataEntryHeader.type metadataHeader)
         (Buffer.subarray metadataTable
            (Z.to_nat (4 * MetadataEntryHeader.index metadataHeader))
            (Z.to_nat (4 * MetadataEntryHeader.index metadataHeader)
             + ScsArchiveV2.descriptorSize
                 (MetadataEntryHeader.type metadataHeader)))
       = Ok descriptor
    /\ m = {| version := MetadataEntryHeader.type metadataHeader;
              fields := descriptor |}.

(** The descriptor of an entry is the one that goes with its version. *)
Definition wellTyped (m : MetadataEntry) : Prop :=
  match fields m with
  | OfImageMeta _ => version m = MetadataType.IMG
  | OfSampleMeta _ => version m = MetadataType.SAMPLE
  | OfPmaInfoMeta _ => version m = MetadataType.PMA_INFO
  | OfPmgInfoMeta _ => version m = MetadataType.PMG_INFO
  | OfPlainMeta _ =>
      version m = MetadataType.PLAIN \/ version m = MetadataType.DIRECTORY
      \/ version m = MetadataType.MIP_TAIL
  end.

(** The entry headers that [createEntryV2] turns into directories: the
    directory flag is set and the entry is not a texture object. *)
Definition isDirectoryHeader (header : EntryV2Header.t) : bool :=
  negb (EntryV2Header.metadataCount header =? 3)
  && EntryV2Header.isDirectory header.

(** The hash of a created entry, directory or file. *)
Definition entryHash (entry : DirectoryEntry + FileEntry) : Z :=
  match entry with
  | inl directory => hash directory
  | inr file => hash file
  end.

(** A child of a directory, and the payload that lists children: the
    number of names on four bytes, one byte for the length of each name,
    then the names, a subdirectory being written with a leading ["/"]. *)
Inductive Child : Type :=
| Subdirectory (name : string)
| File (name : string).

Definition childText (c : Child) : string :=
  match c with
  | Subdirectory name => "/" +:+ name
  | File name => name
  end.

Definition subdirectoryNames (children : list Child) : list string :=
  omap (fun c => match c with Subdirectory n => Some n | File _ => None end)
       children.

Definition fileNames (children : list Child) : list string :=
  omap (fun c => match c with File n => Some n | Subdirectory _ => None end)
       children.

Definition encodeListing (children : list Child) : Buffer.t :=
  Buffer.to_uintle 4 (Z.of_nat (length children))
    ++ ((fun c => Buffer.byte_of_Z (Z.of_nat (String.length (childText c))))
          <$> children)
    ++ concat ((fun c => list_byte_of_string (childText c)) <$> children).

(** Well-formed UTF-8, by the table of the Unicode standard: the byte
    sequences that encode the code points other than surrogates. *)
Definition between (lo : Z) (b : byte) (hi : Z) : Prop :=
  lo <= Buffer.u8 b <= hi.

Inductive wellFormedUtf8 : list byte -> Prop :=
| utf8_end : wellFormedUtf8 []
| utf8_00_7F (b : byte) (rest : list byte) :
    between 0x00 b 0x7F ->
    wellFormedUtf8 rest -> wellFormedUtf8 (b :: rest)
| utf8_0080_07FF (b1 b2 : byte) (rest : list byte) :
    between 0xC2 b1 0xDF -> between 0x80 b2 0xBF ->
    wellFormedUtf8 rest -> wellFormedUtf8 (b1 :: b2 :: rest)
| utf8_0800_0FFF (b1 b2 b3 : byte) (rest : list byte) :
    between 0xE0 b1 0xE0 -> between 0xA0 b2 0xBF -> between 0x80 b3 0xBF ->
    wellFormedUtf8 rest -> wellFormedUtf8 (b1 :: b2 :: b3 :: rest)
| utf8_1000_CFFF (b1 b2 b3 : byte) (rest : list byte) :
    between 0xE1 b1 0xEC -> between 0x80 b2 0xBF -> between 0x80 b3 0xBF ->
    wellFormedUtf8 rest -> wellFormedUtf8 (b1 :: b2 :: b3 :: rest)
| utf8_D000_D7FF (b1 b2 b3 : byte) (rest : list byte) :
    between 0xED b1 0xED -> between 0x80 b2 0x9F -> between 0x80 b3 0xBF ->
    wellFormedUtf8 rest -> wellFormedUtf8 (b1 :: b2 :: b3 :: rest)
| utf8_E000_FFFF (b1 b2 b3 : byte) (rest : list byte) :
    between 0xEE b1 0xEF -> between 0x80 b2 0xBF -> between 0x80 b3 0xBF ->
    wellFormedUtf8 rest -> wellFormedUtf8 (b1 :: b2 :: b3 :: rest)
| utf8_010000_03FFFF (b1 b2 b3 b4 : byte) (rest : list byte) :
    between 0xF0 b1 0xF0 -> between 0x90 b2 0xBF -> between 0x80 b3 0xBF ->
    between 0x80 b4 0xBF ->
    wellFormedUtf8 rest -> wellFormedUtf8 (b1 :: b2 :: b3 :: b4 :: rest)
| utf8_040000_0FFFFF (b1 b2 b3 b4 : byte) (rest : list byte) :
    between 0xF1 b1 0xF3 -> between 0x80 b2 0xBF -> between 0x80 b3 0xBF ->
    between 0x80 b4 0xBF ->
    wellFormedUtf8 rest -> wellFormedUtf8 (b1 :: b2 :: b3 :: b4 :: rest)
| utf8_100000_10FFFF (b1 b2 b3 b4 : byte) (rest : list byte) :
    between 0xF4 b1 0xF4 -> between 0x80 b2 0x8F -> between 0x80 b3 0xBF ->
    between 0x80 b4 0xBF ->
    wellFormedUtf8 rest -> wellFormedUtf8 (b1 :: b2 :: b3 :: b4 :: rest).

(** A name that the listing can carry: well-formed UTF-8, shorter than
    256 bytes, and a file name does not start with ["/"]. *)
Definition listable (c : Child) : Prop :=
  wellFormedUtf8 (list_byte_of_string (childText c))
  /\ (String.length (childText c) < 256)%nat
  /\ match c with
     | File name => String.prefix "/" name = false
     | Subdirectory _ => True
     end.

(** A road carries the mark [maybeDivided: true]. *)
Definition isFlagged (r : Road) : bool :=
  match maybeDivided r with Some true => true | _ => false end.

(** Both end nodes of a road are known. *)
Definition resolved (nodesByUid : gmap Z Node) (r : Road) : bool :=
  match nodesByUid !! road_startNodeUid r, nodesByUid !! road_endNodeUid r with
  | Some _, Some _ => true
  | _, _ => false
  end.

(** Both end nodes of a road are known and one of the dividers splits
    it. *)
Definition isSplit `{Geom} (nodesByUid : gmap Z Node)
    (sectorDividers : list Divider) (r : Road) : bool :=
  match nodesByUid !! road_startNodeUid r, nodesByUid !! road_endNodeUid r with
  | Some rStart, Some rEnd =>
      existsb (splitsRoad nodesByUid rStart rEnd) sectorDividers
  | _, _ => false
  end.

(** The road items of all sectors, in order. *)
Definition roadItems (sectors : list (string * list Item)) : list Road :=
  concat ((fun s : string * list Item => omap roadOf s.2) <$> sectors).

(** The dividers that a sector contributes to the output: those of its
    items that are dividers and are not terrains. *)
Definition sectorDividersOut (items : list Item) : list Divider :=
  filter (fun d => negb (isTerrain d)) (omap dividerOf items).

(** What the body of the loop does with one city of the definitions. *)
Definition cityOf (cityAreas : gmap string (list CityArea))
    (entry : string * string) : JsMap City * list CityWarning :=
  cityStep cityAreas ([], []) entry.

(** The text of a sector coordinate, a sign and four digits, and the key
    of the sector at [(x, y)]. *)
Definition digitByte (d : Z) : byte := Buffer.byte_of_Z (48 + d)%Z.

Definition signed4 (n : Z) : list byte :=
  let a := Z.abs n in
  [ if (n <? 0)%Z then "-"%byte else "+"%byte;
    digitByte (a / 1000)%Z; digitByte ((a / 100) mod 10)%Z;
    digitByte ((a / 10) mod 10)%Z; digitByte (a mod 10)%Z ].

Definition sectorName (x y : Z) : string :=
  string_of_list_byte
    (["s"%byte; "e"%byte; "c"%byte] ++ signed4 x ++ signed4 y).

(** The entry header that sixteen zero bytes decode to. *)
Definition zeroHeader : EntryV2Header.t :=
  {| EntryV2Header.hash := 0;
     EntryV2Header.metadataIndex := 0;
     EntryV2Header.metadataCount := 0;
     EntryV2Header.isDirectory := false;
     EntryV2Header.someByte := 0 |}.

(** The metadata of a created entry, directory or file. *)
Definition entryMetadata (entry : DirectoryEntry + FileEntry)
    : EntryV2Metadata.t :=
  match entry with
  | inl directory => ScsArchiveDirectoryV2.metadata directory
  | inr file => FileEntry_metadata file
  end.

(* ===================================================================== *)
(** ** Inputs of the examples                                             *)
(* ===================================================================== *)

(** A geometry for examples: the distance between two nodes on a line
    parallel to an axis. *)
Definition axisDistance : Geom :=
  {| distance := fun a b => (Qabs (x a - x b) + Qabs (y a - y b))%Q |}.

(** A target with the explicit coordinates [(0, 5)] and the UID of a
    node, and one without coordinates whose node UID is 0. *)
Definition explicitAtZero : MileageTarget :=
  {| target_x := Some (Finite 0); target_y := Some (Finite 5);
     nodeUid := Some 7;
     others := "t" |}.

Definition zeroUid : MileageTarget :=
  {| target_x := None; target_y := None; nodeUid := Some 0; others := "t" |}.

Definition someNode : Node :=
  {| node_uid := 7; x := 395 # 32; y := 1 # 4; z := 0 |}.

(** Stand-ins for the native bindings: a hash that is the length of the
    path, an inflate that doubles its input, a tile decoder that copies
    its input and fails on an empty one. *)
Definition stubNatives : Natives :=
  {| city64 := fun s => Z.of_nat (String.length s);
     inflateSync := fun b => Some (b ++ b);
     gdeflate := fun input capacity =>
       (if (length input =? 0)%nat then 1 else 0, input) |}.

(** The values of the DDS format for a 2D texture and a cube map. *)
Definition ddsEnums : DdsEnums := {| Texture2d := 3; TextureCube := 4 |}.

Definition entryAt (offset compressedSize uncompressedSize : Z)
    (compression : Compression) : EntryV2Metadata.t :=
  {| EntryV2Metadata.hash := 0;
     EntryV2Metadata.offset := offset;
     EntryV2Metadata.compressedSize := compressedSize;
     EntryV2Metadata.uncompressedSize := uncompressedSize;
     EntryV2Metadata.compression := compression;
     EntryV2Metadata.isDirectory := false |}.

(** width 256, height 256, 9 mipmaps, format 0x1C, not a cube. *)
Definition image256 : ImageMeta.t :=
  {| ImageMeta.width := 256;
     ImageMeta.height := 256;
     ImageMeta.image := ImageMeta.toImage (8 + 28 * 16) |}.

Definition cubeImage : ImageMeta.t :=
  {| ImageMeta.width := 64;
     ImageMeta.height := 64;
     ImageMeta.image := ImageMeta.toImage (8 + 28 * 16 + 4096) |}.

Definition fourteenBytes : Buffer.t :=
  [x01; x02; x03; x04; x05; x06; x07; x08; x09; x0a; x0b; x0c; x0d; x0e].

Definition outcome_length (r : result Buffer.t) : option nat :=
  match r with Ok out => Some (length out) | Throw _ => None end.

(** An archive whose metadata table, stored uncompressed at offset 0, is
    the four bytes of one metadata header. *)
Definition archiveOf (metadataTable : Buffer.t) : ScsArchiveV2.t :=
  {| ScsArchiveV2.fd := metadataTable;
     ScsArchiveV2.header :=
       {| FileHeaderV2.magic := "SCS#";
          FileHeaderV2.version := 2;
          FileHeaderV2.salt := 0;
          FileHeaderV2.hashMethod := "CITY";
          FileHeaderV2.entryTableCount := 0;
          FileHeaderV2.entryTableCompressedSize := 0;
          FileHeaderV2.metadataTableSize := 4;
          FileHeaderV2.metadataTableCompressedSize := 4;
          FileHeaderV2.entryTableOffset := 0;
          FileHeaderV2.metadataTableOffset := 0;
          FileHeaderV2.securityDescriptorOffset := 0;
          FileHeaderV2.hashfsV2Platform := 0 |};
     ScsArchiveV2.entries := None |}.

(** One entry that walks slot 0 of the metadata table. *)
Definition oneSlot : list EntryV2Header.t :=
  [ {| EntryV2Header.hash := 0;
       EntryV2Header.metadataIndex := 0;
       EntryV2Header.metadataCount := 1;
       EntryV2Header.isDirectory := false;
       EntryV2Header.someByte := 0 |} ].

(** A header tagged [MIP_PROXY], and one with the unknown tag 7. *)
Definition mipProxyTable : Buffer.t := [x00; x00; x00; x03].
Definition unknownTable : Buffer.t := [x00; x00; x00; x07].

Definition nodeAt (uid : Z) (x y : Q) : Node :=
  {| node_uid := uid; x := x; y := y; z := 0 |}.

(** The scenario of a road from (0,0) to (100,0), a terrain from (0.5,0)
    to (100.5,0) and a terrain from (5,0) to (95,0). *)
Definition scenarioNodes : gmap Z Node :=
  <[1 := nodeAt 1 0 0]>
    (<[2 := nodeAt 2 100 0]>
       (<[3 := nodeAt 3 (1 # 2) 0]>
          (<[4 := nodeAt 4 (201 # 2) 0]>
             (<[5 := nodeAt 5 5 0]> (<[6 := nodeAt 6 95 0]> ∅))))).

Definition scenarioRoad : Road :=
  {| road_uid := 10; roadLookToken := "look";
     road_startNodeUid := 1; road_endNodeUid := 2; maybeDivided := None |}.

Definition nearTerrain : Terrain :=
  {| terrain_uid := 11; terrain_startNodeUid := 3; terrain_endNodeUid := 4 |}.

Definition farTerrain : Terrain :=
  {| terrain_uid := 12; terrain_startNodeUid := 5; terrain_endNodeUid := 6 |}.

(** Two mileage targets: one without coordinates that names node 7, one
    with coordinates. *)
Definition byNode : MileageTarget :=
  {| target_x := None; target_y := None; nodeUid := Some 7; others := "a" |}.

Definition byPosition : MileageTarget :=
  {| target_x := Some (Finite (3 # 2)); target_y := Some (Finite (-4 # 1));
     nodeUid := None;
     others := "b" |}.

Definition targetNodes : gmap Z Node :=
  {[ 7 := nodeAt 7 (6321 # 512) (1080863910568919 # 72057594037927936) ]}.

(** An archive with salt 7 that holds one uncompressed file of three
    bytes: the entry table (16 bytes), the metadata table (a header and a
    plain descriptor, 20 bytes), padding, and the file at offset 48. *)
Definition smallArchive : ScsArchiveV2.t :=
  {| ScsArchiveV2.fd :=
       [x05; x00; x00; x00; x00; x00; x00; x00;   (* hash *)
        x00; x00; x00; x00;                       (* metadataIndex *)
        x01; x00;                                 (* metadataCount *)
        x00; x00;                                 (* flags, someByte *)
        x01; x00; x00; x80;                       (* index 1, PLAIN *)
        x03; x00; x00;                            (* compressedSize *)
        x00;                                      (* compression *)
        x03; x00; x00;                            (* size *)
        x00; x00; x00; x00; x00;                  (* reserved *)
        x03; x00; x00; x00]                       (* offset / 16 *)
       ++ Buffer.alloc 12 ++ [x61; x62; x63];
     ScsArchiveV2.header :=
       {| FileHeaderV2.magic := "SCS#";
          FileHeaderV2.version := 2;
          FileHeaderV2.salt := 7;
          FileHeaderV2.hashMethod := "CITY";
          FileHeaderV2.entryTableCount := 1;
          FileHeaderV2.entryTableCompressedSize := 16;
          FileHeaderV2.metadataTableSize := 20;
          FileHeaderV2.metadataTableCompressedSize := 20;
          FileHeaderV2.entryTableOffset := 0;
          FileHeaderV2.metadataTableOffset := 16;
          FileHeaderV2.securityDescriptorOffset := 0;
          FileHeaderV2.hashfsV2Platform := 0 |};
     ScsArchiveV2.entries := None |}.

Definition abcFile : FileEntry :=
  ScsArchiveFileV2
    {| EntryV2Metadata.hash := 5;
       EntryV2Metadata.offset := 48;
       EntryV2Metadata.compressedSize := 3;
       EntryV2Metadata.uncompressedSize := 3;
       EntryV2Metadata.compression := NONE;
       EntryV2Metadata.isDirectory := false |}.

(** What [parseEntries] returns on [smallArchive]: the stores, the archive
    with its cache filled, and the tables it decodes on the way. *)
Definition smallEntries : Entries :=
  {| directories := @createStore stubNatives _ _ [] 7;
     files := @createStore stubNatives _ _ [abcFile] 7 |}.

Definition smallArchiveParsed : ScsArchiveV2.t :=
  {| ScsArchiveV2.fd := ScsArchiveV2.fd smallArchive;
     ScsArchiveV2.header := ScsArchiveV2.header smallArchive;
     ScsArchiveV2.entries := Some smallEntries |}.

Definition smallHeader : EntryV2Header.t :=
  {| EntryV2Header.hash := 5;
     EntryV2Header.metadataIndex := 0;
     EntryV2Header.metadataCount := 1;
     EntryV2Header.isDirectory := false;
     EntryV2Header.someByte := 0 |}.

Definition smallTable : Buffer.t :=
  [x01; x00; x00; x80;
   x03; x00; x00; x00; x03; x00; x00; x00; x00; x00; x00; x00;
   x03; x00; x00; x00].

Definition smallMap : gmap Z MetadataEntry :=
  {[ 0 := {| version := 128;
             fields := OfPlainMeta
                         {| PlainMeta.compressedSize := 3;
                            PlainMeta.compression := NONE;
                            PlainMeta.size := 3;
                            PlainMeta.offset := 48 |} |} ]}.

(** An archive whose header names another hash method. *)
Definition otherHashArchive : ScsArchiveV2.t :=
  {| ScsArchiveV2.fd := ScsArchiveV2.fd smallArchive;
     ScsArchiveV2.header :=
       {| FileHeaderV2.magic := "SCS#";
          FileHeaderV2.version := 2;
          FileHeaderV2.salt := 0;
          FileHeaderV2.hashMethod := "MD5 ";
          FileHeaderV2.entryTableCount := 1;
          FileHeaderV2.entryTableCompressedSize := 16;
          FileHeaderV2.metadataTableSize := 20;
          FileHeaderV2.metadataTableCompressedSize := 20;
          FileHeaderV2.entryTableOffset := 0;
          FileHeaderV2.metadataTableOffset := 16;
          FileHeaderV2.securityDescriptorOffset := 0;
          FileHeaderV2.hashfsV2Platform := 0 |};
     ScsArchiveV2.entries := Some smallEntries |}.

(** The header of a texture object that has the directory flag. *)
Definition tobjDirectoryHeader : EntryV2Header.t :=
  {| EntryV2Header.hash := 9;
     EntryV2Header.metadataIndex := 0;
     EntryV2Header.metadataCount := 3;
     EntryV2Header.isDirectory := true;
     EntryV2Header.someByte := 0 |}.

(** The listing of a directory with the subdirectory ["a"] and the file
    ["b"], and the entry that holds it at the start of a file. *)
Definition twoChildren : list Child := [Subdirectory "a"; File "b"].

Definition listingFile : Buffer.t :=
  [x02; x00; x00; x00; x02; x01; x2f; x61; x62].

Definition listingEntry : EntryV2Metadata.t :=
  {| EntryV2Metadata.hash := 3;
     EntryV2Metadata.offset := 0;
     EntryV2Metadata.compressedSize := 9;
     EntryV2Metadata.uncompressedSize := 9;
     EntryV2Metadata.compression := NONE;
     EntryV2Metadata.isDirectory := true |}.

(** A kerb between nodes 3 and 4 of the scenario. *)
Definition kerb : Building :=
  {| building_uid := 13; scheme := "scheme20";
     building_startNodeUid := 3; building_endNodeUid := 4 |}.

Definition kerbSectors : list (string * list Item) :=
  [("sec+0000+0000", [RoadItem scenarioRoad; BuildingItem kerb])].

(** The areas of one city, the first of them hidden, and two cities of
    the definitions, one of them without areas. *)
Definition berlinAreas : gmap string (list CityArea) :=
  {[ "berlin" := [ {| area_uid := 1; hidden := true;
                      area_x := 10; area_y := 20 |};
                   {| area_uid := 2; hidden := false;
                      area_x := 30; area_y := 40 |} ] ]}.

Definition twoCities : JsMap string :=
  [("berlin", "Berlin"); ("atlantis", "Atlantis")].

(** The three metadata of a texture object, the image last. *)
Definition plainAt48 : PlainMeta.t :=
  {| PlainMeta.compressedSize := 3;
     PlainMeta.compression := NONE;
     PlainMeta.size := 3;
     PlainMeta.offset := 48 |}.

Definition sampleEntry : MetadataEntry :=
  {| version := MetadataType.SAMPLE;
     fields := OfSampleMeta {| SampleMeta.sample := SampleMeta.toSample 0 |} |}.

Definition tailEntry : MetadataEntry :=
  {| version := MetadataType.MIP_TAIL; fields := OfPlainMeta plainAt48 |}.

Definition imageEntry : MetadataEntry :=
  {| version := MetadataType.IMG; fields := OfImageMeta image256 |}.

Definition textureMap : gmap Z MetadataEntry :=
  <[0 := sampleEntry]> (<[1 := tailEntry]> (<[2 := imageEntry]> ∅)).

Definition textureHeader : EntryV2Header.t :=
  {| EntryV2Header.hash := 9;
     EntryV2Header.metadataIndex := 0;
     EntryV2Header.metadataCount := 3;
     EntryV2Header.isDirectory := false;
     EntryV2Header.someByte := 0 |}.

(** A valid header on an empty file. *)
Definition emptyArchive : ScsArchiveV2.t :=
  {| ScsArchiveV2.fd := [];
     ScsArchiveV2.header :=
       {| FileHeaderV2.magic := "SCS#";
          FileHeaderV2.version := 2;
          FileHeaderV2.salt := 0;
          FileHeaderV2.hashMethod := "CITY";
          FileHeaderV2.entryTableCount := 1;
          FileHeaderV2.entryTableCompressedSize := 16;
          FileHeaderV2.metadataTableSize := 4;
          FileHeaderV2.metadataTableCompressedSize := 4;
          FileHeaderV2.entryTableOffset := 0;
          FileHeaderV2.metadataTableOffset := 16;
          FileHeaderV2.securityDescriptorOffset := 0;
          FileHeaderV2.hashfsV2Platform := 0 |};
     ScsArchiveV2.entries := None |}.

(** A localization table with an entry for ["berlin"], and a city that
    names it as ["@@berlin@@"]. *)
Definition germanNames : gmap string string :=
  <["berlin" := "Berlin (DE)"]> ∅.

Definition berlinNamed : Named.t :=
  {| Named.name := "Berlin";
     Named.nameLocalized := Some "@@berlin@@";
     Named.rest := "country: germany" |}.

(** The scenario as sectors: the road with the near terrain, and the road
    with the far terrain. *)
Definition nearSector : string * list Item :=
  ("sec+0000+0000", [RoadItem scenarioRoad; TerrainItem nearTerrain]).

Definition farSector : string * list Item :=
  ("sec+0000+0000", [RoadItem scenarioRoad; TerrainItem farTerrain]).

(** A listing of one file whose name is the byte [ff], which is not
    UTF-8. *)
Definition illFormedListing : Buffer.t := [x01; x00; x00; x00; x01; xff].

(** Stand-ins for the readers of the other files: a V1 reader that reads
    two bytes after the version and keeps the first eight bytes, and a zip
    reader that reads four bytes and fails. *)
Definition stubReaders : Readers :=
  {| ScsArchiveV1 := Buffer.t;
     ZipArchive := Buffer.t;
     newScsArchiveV1 := fun fd path => ([ReadSync 6 2], Ok (take 8 fd));
     newZipArchive := fun fd path => ([ReadSync 0 4], Throw AssertionFailed) |}.

(** A file that starts as a V1 archive. *)
Definition firstVersionFile : Buffer.t :=
  [x53; x43; x53; x23; x01; x00; x07; x00; x09].

(* ===================================================================== *)
(** * Part II: properties                                                 *)
(* ===================================================================== *)

(** ** The monad *)

Lemma outcome_bind_Ok {A B} (m : M A) (f : A -> M B) (a : A) :
  outcome m = Ok a -> outcome (m ≫= f) = outcome (f a).
Proof.
  destruct m as [t r]; simpl; intros ->.
  unfold mbind, M_bind. destruct (f a); reflexivity.
Qed.

Lemma outcome_bind_Throw {A B} (m : M A) (f : A -> M B) (e : Error) :
  outcome m = Throw e -> outcome (m ≫= f) = Throw e.
Proof. destruct m as [t r]; simpl; intros ->. reflexivity. Qed.

Lemma trace_bind_Ok {A B} (m : M A) (f : A -> M B) (a : A) :
  outcome m = Ok a -> trace (m ≫= f) = trace m ++ trace (f a).
Proof.
  destruct m as [t r]; simpl; intros ->.
  unfold mbind, M_bind. destruct (f a); reflexivity.
Qed.

Lemma trace_bind_Throw {A B} (m : M A) (f : A -> M B) (e : Error) :
  outcome m = Throw e -> trace (m ≫= f) = trace m.
Proof. destruct m as [t r]; simpl; intros ->. reflexivity. Qed.

Lemma bind_inv_Ok {A B} (m : M A) (f : A -> M B) (b : B) :
  outcome (m ≫= f) = Ok b ->
  exists a, outcome m = Ok a /\ outcome (f a) = Ok b.
Proof.
  destruct m as [t [a | e]]; simpl.
  - intros Hb. exists a. split; [reflexivity |].
    unfold mbind, M_bind in Hb. destruct (f a); exact Hb.
  - discriminate.
Qed.

(** ** Hash-indexed stores *)

Section store.
Context `{Natives} {V : Type} `{HasHash V}.

Lemma Map_of_pairs_snoc (pairs : list (Z * V)) (k : Z) (v : V) :
  Map_of_pairs (pairs ++ [(k, v)]) = <[k := v]> (Map_of_pairs pairs).
Proof. unfold Map_of_pairs. rewrite foldl_app. reflexivity. Qed.

(** The map holds, under each key, the last value paired with it. *)
Lemma Map_of_pairs_lookup (values : list V) (h : Z) :
  Map_of_pairs ((fun v => (hash v, v)) <$> values) !! h
  = last (filter (fun v => hash v = h) values).
Proof.
  induction values as [| v values IH] using rev_ind; [reflexivity |].
  rewrite fmap_app. simpl. rewrite Map_of_pairs_snoc, filter_app.
  rewrite filter_cons, filter_nil.
  destruct (decide (hash v = h)) as [Heq | Hne].
  - rewrite last_snoc, <- Heq. apply lookup_insert_eq.
  - rewrite app_nil_r, lookup_insert_ne by exact Hne. exact IH.
Qed.

(** The key a lookup hashes: the path, after the salt in decimal when the
    salt is not 0. *)
Lemma createStore_get (values : list V) (s : Z) (p : string) :
  get (createStore values s) p
  = Map_of_pairs ((fun v => (hash v, v)) <$> values)
      !! city64 (match s with 0 => p | _ => pretty s +:+ p end).
Proof.
  unfold createStore, saltedKey, Number_toString; simpl.
  destruct s; reflexivity.
Qed.

(** C10. Two entries with one hash raise no error ([createStore] is a
    total function that builds the store), and a lookup of a key with that
    hash returns the entry that comes last in the list. *)
Theorem createStore_last_writer_wins (values : list V) (salt : Z)
    (key : string) :
  get (createStore values salt) key
  = last (filter (fun v => hash v = city64 (saltedKey salt key)) values).
Proof. unfold createStore; simpl. apply Map_of_pairs_lookup. Qed.

End store.

(** ** Buffers *)

Lemma alloc_length (n : nat) : length (Buffer.alloc n) = n.
Proof. apply length_replicate. Qed.

Lemma copy_length (src target : Buffer.t) (off : nat) :
  (off <= length target)%nat ->
  length (Buffer.copy src target off) = length target.
Proof.
  intros Hoff. unfold Buffer.copy.
  rewrite !length_app, !length_take, length_drop. lia.
Qed.

(** Copying into a buffer that [src] fills from [off] to its end. *)
Lemma copy_exact (src target : Buffer.t) (off : nat) :
  (off + length src = length target)%nat ->
  Buffer.copy src target off = take off target ++ src.
Proof.
  intros Hlen. unfold Buffer.copy.
  rewrite (take_ge src) by lia. rewrite drop_ge by lia.
  rewrite app_nil_r. reflexivity.
Qed.

Lemma bytesAt_length (fd : Buffer.t) (position : Z) (n : nat) :
  length (bytesAt fd position n) = n.
Proof.
  unfold bytesAt. rewrite copy_length; rewrite alloc_length; lia.
Qed.

Lemma bytesAt_full (fd : Buffer.t) (position : Z) (n : nat) :
  length (take n (drop (Z.to_nat position) fd)) = n ->
  bytesAt fd position n = take n (drop (Z.to_nat position) fd).
Proof.
  intros Hlen. unfold bytesAt.
  rewrite copy_exact by (rewrite alloc_length; lia). reflexivity.
Qed.

(** ** Reading the tables *)

Section tables.
Context `{Natives}.

Lemma readSync_alloc (fd : Buffer.t) (n : nat) (position : Z) :
  readSync fd (Buffer.alloc n) (length (Buffer.alloc n)) position
  = ([ReadSync position n],
     Ok (bytesAt fd position n,
         length (take n (drop (Z.to_nat position) fd)))).
Proof. rewrite alloc_length. reflexivity. Qed.

Lemma inflate_eq (buffer : Buffer.t) :
  inflate buffer
  = ([Inflate buffer],
     match inflateSync buffer with
     | Some out => Ok out
     | None => Throw InflateError
     end).
Proof. unfold inflate. destruct (inflateSync buffer); reflexivity. Qed.

Lemma readData_eq (this : ScsArchiveV2.t) (offset c u : Z) :
  ScsArchiveV2.readData this offset c u
  = let bytes := bytesAt (ScsArchiveV2.fd this) offset (Z.to_nat c) in
    if decide (c = u)
    then ([ReadSync offset (Z.to_nat c)], Ok bytes)
    else ([ReadSync offset (Z.to_nat c); Inflate bytes],
          match inflateSync bytes with
          | Some out => Ok out
          | None => Throw InflateError
          end).
Proof.
  unfold ScsArchiveV2.readData. rewrite readSync_alloc. simpl.
  destruct (decide (c = u)) as [-> | Hne].
  - rewrite Z.eqb_refl. reflexivity.
  - apply Z.eqb_neq in Hne. rewrite Hne. simpl. rewrite inflate_eq.
    reflexivity.
Qed.

(** [readData] inflates what it read exactly when the two sizes differ. *)
Lemma readData_spec (this : ScsArchiveV2.t)
    (offset compressedSize uncompressedSize : Z) :
  let bytes :=
    bytesAt (ScsArchiveV2.fd this) offset (Z.to_nat compressedSize) in
  let run :=
    ScsArchiveV2.readData this offset compressedSize uncompressedSize in
  (In (Inflate bytes) (trace run) <-> compressedSize <> uncompressedSize)
  /\ (existsb is_inflate (trace run)
      = negb (compressedSize =? uncompressedSize))
  /\ outcome run
     = (if compressedSize =? uncompressedSize then Ok bytes
        else match inflateSync bytes with
             | Some out => Ok out
             | None => Throw InflateError
             end).
Proof.
  intros bytes run. subst run. rewrite readData_eq. fold bytes.
  destruct (decide (compressedSize = uncompressedSize)) as [-> | Hne].
  - rewrite Z.eqb_refl. simpl. repeat split; try reflexivity.
    + intros [Hin | []]. discriminate Hin.
    + intros Hne. contradiction.
  - pose proof Hne as Hneb. apply Z.eqb_neq in Hneb. rewrite Hneb. simpl.
    repeat split; try reflexivity; auto.
Qed.

End tables.

(** ** Reading an entry *)

Section entries.
Context `{Natives}.

(** What [ScsArchiveEntryV2.read] does, spelled out. *)
Lemma read_eq (fd : Buffer.t) (m : EntryV2Metadata.t) :
  let n := Z.to_nat (EntryV2Metadata.compressedSize m) in
  let u := Z.to_nat (EntryV2Metadata.uncompressedSize m) in
  let position := EntryV2Metadata.offset m in
  let rawData := bytesAt fd position n in
  read fd m
  = if (length (take n (drop (Z.to_nat position) fd)) =? n)%nat
    then
      match EntryV2Metadata.compression m with
      | NONE => ([ReadSync position n], Ok rawData)
      | ZLIB =>
          ([ReadSync position n; Inflate rawData],
           match inflateSync rawData with
           | Some out => Ok out
           | None => Throw InflateError
           end)
      | GDEFLATE =>
          ([ReadSync position n;
            Gdeflate (drop TileStreamHeader.sizeof rawData) u],
           let r := gdeflate (drop TileStreamHeader.sizeof rawData) u in
           if r.1 =? 0 then Ok (Buffer.copy r.2 (Buffer.alloc u) 0)
           else Throw (GdeflateError r.1))
      | ZLIB_HEADERLESS => ([ReadSync position n], Throw (UnsupportedCompression 2))
      | ZSTD => ([ReadSync position n], Throw (UnsupportedCompression 4))
      end
    else ([ReadSync position n], Throw AssertionFailed).
Proof.
  intros n u position rawData. unfold read.
  fold n u position. rewrite readSync_alloc. fold rawData. simpl.
  replace (length rawData) with n by (symmetry; apply bytesAt_length).
  destruct (length (take n (drop (Z.to_nat position) fd)) =? n)%nat;
    simpl; [| reflexivity].
  destruct (EntryV2Metadata.compression m); simpl; try reflexivity.
  - rewrite inflate_eq. reflexivity.
  - rewrite alloc_length.
    destruct (gdeflate (drop TileStreamHeader.sizeof rawData) u) as [rc w].
    simpl. destruct (rc =? 0); reflexivity.
Qed.

(** C5. For an entry whose compression is tiled parallel deflate, [read]
    hands the decoder the payload without its first 12 bytes, the size of
    the tile-stream header, and throws whenever the decoder returns a
    nonzero result. *)
Theorem read_gdeflate_strips_header (fd : Buffer.t) (m : EntryV2Metadata.t) :
  EntryV2Metadata.compression m = GDEFLATE ->
  let n := Z.to_nat (EntryV2Metadata.compressedSize m) in
  let u := Z.to_nat (EntryV2Metadata.uncompressedSize m) in
  let position := EntryV2Metadata.offset m in
  let rawData := take n (drop (Z.to_nat position) fd) in
  length rawData = n ->
  TileStreamHeader.sizeof = 12%nat
  /\ trace (read fd m) = [ReadSync position n; Gdeflate (drop 12 rawData) u]
  /\ (12 <= n -> rawData = take 12 rawData ++ drop 12 rawData
                 /\ length (take 12 rawData) = 12)%nat
  /\ outcome (read fd m)
     = (let result := (gdeflate (drop 12 rawData) u).1 in
        if result =? 0
        then Ok (Buffer.copy (gdeflate (drop 12 rawData) u).2
                   (Buffer.alloc u) 0)
        else Throw (GdeflateError result))
  /\ ((gdeflate (drop 12 rawData) u).1 <> 0 ->
      exists e, outcome (read fd m) = Throw e).
Proof.
  intros Hc n u position rawData Hlen.
  pose proof (read_eq fd m) as Heq. simpl in Heq.
  fold n u position in Heq. fold rawData in Heq.
  rewrite Hlen, Nat.eqb_refl, Hc in Heq.
  rewrite (bytesAt_full fd position n Hlen) in Heq. fold rawData in Heq.
  change TileStreamHeader.sizeof with 12%nat in Heq.
  rewrite Heq. simpl.
  split; [reflexivity |]. split; [reflexivity |].
  split.
  { intros Hn. split; [symmetry; apply take_drop |].
    rewrite length_take. lia. }
  split; [reflexivity |].
  intros Hrc. apply Z.eqb_neq in Hrc. rewrite Hrc. eauto.
Qed.

(** The length of what [ScsArchiveEntryV2.read] returns, by compression
    tag: the compressed size for an uncompressed entry, the declared
    uncompressed size for tiled parallel deflate, and whatever
    [zlib.inflateSync] produces, unchecked, for zlib. *)
Lemma read_length (fd : Buffer.t) (m : EntryV2Metadata.t) (out : Buffer.t) :
  outcome (read fd m) = Ok out ->
  match EntryV2Metadata.compression m with
  | NONE => length out = Z.to_nat (EntryV2Metadata.compressedSize m)
  | GDEFLATE => length out = Z.to_nat (EntryV2Metadata.uncompressedSize m)
  | ZLIB =>
      inflateSync
        (bytesAt fd (EntryV2Metadata.offset m)
           (Z.to_nat (EntryV2Metadata.compressedSize m))) = Some out
  | ZLIB_HEADERLESS | ZSTD => False
  end.
Proof.
  rewrite read_eq. simpl.
  destruct (_ =? _)%nat; [| discriminate].
  destruct (EntryV2Metadata.compression m); simpl.
  - intros [= <-]. apply bytesAt_length.
  - destruct (inflateSync _); [intros [= <-]; reflexivity | discriminate].
  - discriminate.
  - destruct (_ =? 0); [| discriminate].
    intros [= <-]. rewrite copy_length; rewrite alloc_length; lia.
  - discriminate.
Qed.

End entries.

(** ** Little-endian fields *)

Lemma u8_byte_of_Z (n : Z) : Buffer.u8 (Buffer.byte_of_Z n) = n mod 256.
Proof.
  unfold Buffer.u8, Buffer.byte_of_Z.
  assert (Hrange : 0 <= n mod 256 < 256) by (apply Z.mod_pos_bound; lia).
  destruct (Byte.of_N (Z.to_N (n mod 256))) as [b |] eqn:Hb.
  - apply Byte.to_of_N in Hb. rewrite Hb. lia.
  - apply Byte.of_N_None_iff in Hb. lia.
Qed.

Lemma to_uintle_length (w : nat) (n : Z) :
  length (Buffer.to_uintle w n) = w.
Proof.
  revert n. induction w as [| w IH]; intros n; simpl; [reflexivity |].
  rewrite IH. reflexivity.
Qed.

(** Decoding an encoded field gives back the low [8 * w] bits. *)
Lemma uintle_to_uintle (w : nat) (n : Z) :
  Buffer.uintle (Buffer.to_uintle w n) = n mod 256 ^ Z.of_nat w.
Proof.
  revert n. induction w as [| w IH]; intros n.
  - simpl. rewrite Z.mod_1_r. reflexivity.
  - cbn [Buffer.to_uintle Buffer.uintle]. rewrite u8_byte_of_Z, IH.
    rewrite Nat2Z.inj_succ, Z.pow_succ_r by lia.
    rewrite Z.rem_mul_r by lia. reflexivity.
Qed.

Lemma copy_middle (src a b c : Buffer.t) (off : nat) :
  length a = off -> length b = length src ->
  Buffer.copy src (a ++ b ++ c) off = a ++ src ++ c.
Proof.
  intros Ha Hb. unfold Buffer.copy.
  rewrite take_app_length' by (symmetry; exact Ha).
  rewrite (take_ge src) by (rewrite !length_app; lia).
  rewrite (app_assoc a b c).
  rewrite (drop_app_length' (a ++ b) c) by (rewrite length_app; lia).
  reflexivity.
Qed.

(** ** The synthesized texture container *)

Section tobj.
Context `{Natives} `{DdsEnums}.

Lemma tobjHeader_length (imageMetadata : ImageMeta.t) (ddsBytes : Buffer.t) :
  length (DdsHeader.toBuffer (tobjHeader imageMetadata ddsBytes))
  = DdsHeader.sizeof.
Proof. reflexivity. Qed.

Lemma tobjHeaderDX10_length (imageMetadata : ImageMeta.t) :
  length (DdsHeaderDX10.toBuffer (tobjHeaderDX10 imageMetadata))
  = DdsHeaderDX10.sizeof.
Proof. reflexivity. Qed.

(** The file is the magic, the two headers and the payload, in a row. *)
Lemma synthesizeDds_eq (imageMetadata : ImageMeta.t) (ddsBytes : Buffer.t) :
  synthesizeDds imageMetadata ddsBytes
  = list_byte_of_string "DDS "
      ++ DdsHeader.toBuffer (tobjHeader imageMetadata ddsBytes)
      ++ DdsHeaderDX10.toBuffer (tobjHeaderDX10 imageMetadata)
      ++ ddsBytes.
Proof.
  unfold synthesizeDds, Buffer.write.
  set (header := DdsHeader.toBuffer _).
  set (headerDX10 := DdsHeaderDX10.toBuffer _).
  set (magic := list_byte_of_string "DDS ").
  assert (Hh : length header = 124%nat) by reflexivity.
  assert (Hx : length headerDX10 = 20%nat) by reflexivity.
  assert (Hm : length magic = 4%nat) by reflexivity.
  unfold Buffer.alloc. rewrite !replicate_add.
  set (z4 := replicate 4 Buffer.zero).
  set (z124 := replicate DdsHeader.sizeof Buffer.zero).
  set (z20 := replicate DdsHeaderDX10.sizeof Buffer.zero).
  set (zL := replicate (length ddsBytes) Buffer.zero).
  assert (H4 : length z4 = 4%nat) by reflexivity.
  assert (H124 : length z124 = 124%nat) by reflexivity.
  assert (H20 : length z20 = 20%nat) by reflexivity.
  assert (HL : length zL = length ddsBytes) by apply length_replicate.
  rewrite <- !app_assoc.
  pose proof (copy_middle magic [] z4 (z124 ++ z20 ++ zL) 0 eq_refl
                (eq_trans H4 (eq_sym Hm))) as Hmagic.
  cbn [app] in Hmagic. rewrite Hmagic.
  rewrite (copy_middle header magic z124 (z20 ++ zL) 4) by congruence.
  rewrite (app_assoc magic header (z20 ++ zL)).
  rewrite (copy_middle headerDX10 (magic ++ header) z20 zL 128)
    by (rewrite ?length_app; congruence || lia).
  rewrite <- (app_nil_r zL) at 1.
  rewrite (app_assoc (magic ++ header) headerDX10 (zL ++ [])).
  rewrite (copy_middle ddsBytes ((magic ++ header) ++ headerDX10) zL [])
    by (rewrite ?length_app, ?Hh, ?Hx, ?Hm; reflexivity || exact HL).
  rewrite app_nil_r, <- !app_assoc. reflexivity.
Qed.

(** C2. A texture-object entry whose raw payload has length [L] reads as a
    buffer of length [4 + 124 + 20 + L] that starts with ["DDS "]; its
    legacy header carries [L] as [pitchOrLinearSize] and the fourCC
    ["DX10"], at offset 84 of the output; the cubemap flag of the DX10
    extension is set if and only if the image descriptor is a cube map. *)
Theorem tobj_read_synthesizes_dds (fd : Buffer.t) (m : EntryV2Metadata.t)
    (imageMetadata : ImageMeta.t) (payload : Buffer.t) :
  0 < TextureCube < 2 ^ 32 ->
  outcome (read fd m) = Ok payload ->
  exists out,
    outcome (FileEntry_read fd (ScsArchiveTobjFile m imageMetadata)) = Ok out
    /\ length out = (4 + 124 + 20 + length payload)%nat
    /\ take 4 out = list_byte_of_string "DDS "
    /\ DdsHeader.pitchOrLinearSize (tobjHeader imageMetadata payload)
       = Z.of_nat (length payload)
    /\ Buffer.uintle (Buffer.field out 20 4)
       = Z.of_nat (length payload) mod 2 ^ 32
    /\ DdsPixelFormat.fourCc
         (DdsHeader.ddsPixelFormat (tobjHeader imageMetadata payload))
       = "DX10"
    /\ Buffer.field out 84 4 = list_byte_of_string "DX10"
    /\ (Z.land (Buffer.uintle (Buffer.field out 136 4)) TextureCube <> 0
        <-> ImageMeta.isCube (ImageMeta.image imageMetadata) = true)
    /\ drop 148 out = payload.
Proof.
  intros Hcube Hread.
  exists (synthesizeDds imageMetadata payload).
  split.
  { unfold FileEntry_read.
    rewrite (outcome_bind_Ok _ _ _ Hread). reflexivity. }
  rewrite synthesizeDds_eq.
  split. { rewrite !length_app. reflexivity. }
  split; [reflexivity |].
  split; [reflexivity |].
  split.
  { change (Buffer.uintle (Buffer.to_uintle 4 (Z.of_nat (length payload)))
            = Z.of_nat (length payload) mod 2 ^ 32).
    apply uintle_to_uintle. }
  split; [reflexivity |].
  split; [reflexivity |].
  split; [| reflexivity].
  change (Buffer.field _ 136 4)
    with (Buffer.to_uintle 4
            (if ImageMeta.isCube (ImageMeta.image imageMetadata)
             then TextureCube else 0)).
  rewrite uintle_to_uintle.
  change (256 ^ Z.of_nat 4) with (2 ^ 32).
  destruct (ImageMeta.isCube (ImageMeta.image imageMetadata)).
  - rewrite Z.mod_small by lia. rewrite Z.land_diag. split; [reflexivity | lia].
  - rewrite Z.mod_0_l by lia. rewrite Z.land_0_l.
    split; [intros Hne; contradiction | discriminate].
Qed.

End tobj.

(** ** Loops in the monad *)

Lemma bind_assoc {A B C} (m : M A) (f : A -> M B) (g : B -> M C) :
  (m ≫= f) ≫= g = m ≫= (fun a => f a ≫= g).
Proof.
  destruct m as [t [a | e]]; [| reflexivity].
  unfold mbind, M_bind.
  destruct (f a) as [t1 [b | e1]]; [| reflexivity].
  destruct (g b) as [t2 r2]. rewrite app_assoc. reflexivity.
Qed.

Lemma elem_of_concat {A} (x : A) (ls : list (list A)) :
  x ∈ concat ls <-> exists l, x ∈ l /\ l ∈ ls.
Proof.
  induction ls as [| l ls IH]; cbn [concat].
  - split; [intros Hin; apply elem_of_nil in Hin; destruct Hin |].
    intros [l [_ Hl]]. apply elem_of_nil in Hl. destruct Hl.
  - rewrite elem_of_app, IH. split.
    + intros [Hin | [l' [Hin Hl']]].
      * exists l. split; [exact Hin | apply list_elem_of_here].
      * exists l'. split; [exact Hin | apply list_elem_of_further, Hl'].
    + intros [l' [Hin Hl']]. apply elem_of_cons in Hl'.
      destruct Hl' as [-> | Hl']; [left; exact Hin | right; eauto].
Qed.

Lemma ret_bind {A B} (a : A) (f : A -> M B) : mret a ≫= f = f a.
Proof. unfold mbind, M_bind, mret, M_ret. destruct (f a); reflexivity. Qed.

Lemma foldM_app {A B} (f : A -> B -> M A) (a : A) (l1 l2 : list B) :
  foldM f a (l1 ++ l2) = foldM f a l1 ≫= (fun a' => foldM f a' l2).
Proof.
  revert a. induction l1 as [| b l1 IH]; intros a.
  - symmetry. apply (ret_bind a (fun a' => foldM f a' l2)).
  - cbn [foldM app]. rewrite bind_assoc.
    destruct (f a b) as [t [a' | e]]; [| reflexivity].
    unfold mbind at 1 3, M_bind at 1 3. rewrite IH. reflexivity.
Qed.

Lemma foldM_concat {A B C} (f : A -> C -> M A) (g : B -> list C) (a : A)
    (l : list B) :
  foldM (fun st b => foldM f st (g b)) a l = foldM f a (concat (g <$> l)).
Proof.
  revert a. induction l as [| b l IH]; intros a; [reflexivity |].
  cbn [foldM fmap list_fmap concat]. rewrite foldM_app.
  destruct (foldM f a (g b)) as [t [a' | e]]; [| reflexivity].
  unfold mbind, M_bind. rewrite IH. reflexivity.
Qed.

Lemma foldM_trace_nil {A B} (f : A -> B -> M A) (a : A) (l : list B) :
  (forall a b, trace (f a b) = []) -> trace (foldM f a l) = [].
Proof.
  intros Hf. revert a. induction l as [| b l IH]; intros a; [reflexivity |].
  cbn [foldM]. specialize (Hf a b).
  destruct (f a b) as [t [a' | e]]; simpl in Hf; subst t; [| reflexivity].
  unfold mbind, M_bind. specialize (IH a').
  destruct (foldM f a' l) as [t' r]. simpl in IH. subst t'. reflexivity.
Qed.

(** A loop throws as soon as one of its elements makes the body throw
    whatever the accumulator is. *)
Lemma foldM_throws {A B} (f : A -> B -> M A) (bad : B -> Prop) (l : list B) :
  (forall a b, bad b -> exists e, outcome (f a b) = Throw e) ->
  (exists b, In b l /\ bad b) ->
  forall a, exists e, outcome (foldM f a l) = Throw e.
Proof.
  intros Hf. induction l as [| b l IH]; intros [b' [Hin Hbad]] a.
  - destruct Hin.
  - cbn [foldM]. destruct (f a b) as [t [a' | e]] eqn:Hstep.
    + destruct Hin as [-> | Hin].
      * destruct (Hf a b' Hbad) as [e He]. rewrite Hstep in He. discriminate.
      * destruct (IH (ex_intro _ b' (conj Hin Hbad)) a') as [e He].
        exists e. unfold mbind, M_bind.
        destruct (foldM f a' l) as [t' r]. exact He.
    + exists e. reflexivity.
Qed.

(** ** The metadata map *)

Section metadata.
Context `{Natives}.

Import ScsArchiveV2.

(** The body of the loop of [createMetadataMap], case by case. *)
Lemma metadataStep_eq (metadataTable : Buffer.t)
    (metadataMap : gmap Z MetadataEntry) (skippedMetaTypes : list Z) (key : Z) :
  metadataStep metadataTable (metadataMap, skippedMetaTypes) key
  = match metadataHeaderAt metadataTable key with
    | Throw e => ([], Throw e)
    | Ok metadataHeader =>
        let type := MetadataEntryHeader.type metadataHeader in
        let off := Z.to_nat (4 * MetadataEntryHeader.index metadataHeader) in
        if MetadataType.is_described type then
          match decodeDescriptor type
                  (Buffer.subarray metadataTable off
                     (off + descriptorSize type)) with
          | Ok descriptor =>
              ([], Ok (<[key := {| version := type; fields := descriptor |}]>
                         metadataMap, skippedMetaTypes))
          | Throw e => ([], Throw e)
          end
        else if MetadataType.is_skipped type then
          ([], Ok (metadataMap, Set_add type skippedMetaTypes))
        else ([], Throw (Unreachable type))
    end.
Proof.
  unfold metadataStep.
  destruct (metadataHeaderAt metadataTable key) as [hdr | e]; [| reflexivity].
  simpl. destruct (MetadataType.is_described _).
  - destruct (decodeDescriptor _ _); reflexivity.
  - destruct (MetadataType.is_skipped _); reflexivity.
Qed.

Lemma metadataStep_trace (metadataTable : Buffer.t) (st : MapState) (key : Z) :
  trace (metadataStep metadataTable st key) = [].
Proof.
  destruct st as [metadataMap skippedMetaTypes]. rewrite metadataStep_eq.
  destruct (metadataHeaderAt metadataTable key) as [hdr | e]; [| reflexivity].
  simpl. destruct (MetadataType.is_described _).
  - destruct (decodeDescriptor _ _); reflexivity.
  - destruct (MetadataType.is_skipped _); reflexivity.
Qed.

Lemma metadataLoop_eq (metadataTable : Buffer.t)
    (entryHeaders : list EntryV2Header.t) :
  metadataLoop metadataTable entryHeaders
  = foldM (metadataStep metadataTable) (∅, []) (slots entryHeaders).
Proof. unfold metadataLoop, slots. apply foldM_concat. Qed.

Lemma metadataLoop_trace (metadataTable : Buffer.t)
    (entryHeaders : list EntryV2Header.t) :
  trace (metadataLoop metadataTable entryHeaders) = [].
Proof.
  rewrite metadataLoop_eq. apply foldM_trace_nil.
  intros st key. apply metadataStep_trace.
Qed.

Lemma skipped_not_described (type : Z) :
  MetadataType.is_skipped type = true ->
  MetadataType.is_described type = false.
Proof.
  unfold MetadataType.is_skipped, MetadataType.skipped. cbn [existsb].
  rewrite !orb_true_iff, !Z.eqb_eq.
  intros [-> | [-> | [-> | [-> | Hf]]]]; try discriminate; reflexivity.
Qed.

Lemma Set_add_elem (x y : Z) (s : list Z) :
  y ∈ Set_add x s <-> y ∈ s \/ y = x.
Proof.
  unfold Set_add. destruct (existsb (Z.eqb x) s) eqn:Hmem.
  - apply existsb_exists in Hmem. destruct Hmem as [x' [Hin Heq]].
    apply Z.eqb_eq in Heq. subst x'. apply list_elem_of_In in Hin.
    split; [auto |]. intros [Hy | ->]; assumption.
  - rewrite elem_of_app, list_elem_of_singleton. reflexivity.
Qed.

Lemma Set_add_NoDup (x : Z) (s : list Z) : NoDup s -> NoDup (Set_add x s).
Proof.
  intros Hs. unfold Set_add.
  destruct (existsb (Z.eqb x) s) eqn:Hmem; [exact Hs |].
  apply NoDup_app. split; [exact Hs |]. split; [| apply NoDup_singleton].
  intros y Hy ->%list_elem_of_singleton. apply list_elem_of_In in Hy.
  assert (existsb (Z.eqb x) s = true) as Habs.
  { apply existsb_exists. exists x. split; [exact Hy | apply Z.eqb_refl]. }
  congruence.
Qed.

Lemma metadataStep_inv (metadataTable : Buffer.t) (st st' : MapState)
    (key : Z) :
  outcome (metadataStep metadataTable st key) = Ok st' ->
  (st'.2 = st.2 /\ forall type, ~ skippedAt metadataTable key type)
  \/ (exists type, skippedAt metadataTable key type
                   /\ st' = (st.1, Set_add type st.2)).
Proof.
  destruct st as [metadataMap skippedMetaTypes]. rewrite metadataStep_eq.
  destruct (metadataHeaderAt metadataTable key) as [hdr | e] eqn:Hhdr;
    [| discriminate].
  simpl. destruct (MetadataType.is_described _) eqn:Hdesc.
  - destruct (decodeDescriptor _ _); [| discriminate].
    intros [= <-]. left. split; [reflexivity |].
    intros type [hdr' [Hhdr' [Hty Hskip]]].
    rewrite Hhdr in Hhdr'. injection Hhdr' as <-. subst type.
    apply skipped_not_described in Hskip. congruence.
  - destruct (MetadataType.is_skipped _) eqn:Hskip; [| discriminate].
    intros [= <-]. right. exists (MetadataEntryHeader.type hdr).
    split; [| reflexivity]. exists hdr. auto.
Qed.

(** The set [skippedMetaTypes] after a loop that did not throw: without
    duplicates, and made of what it held and of the skipped tags met. *)
Lemma skippedMetaTypes_spec (metadataTable : Buffer.t) (keys : list Z)
    (st st' : MapState) :
  outcome (foldM (metadataStep metadataTable) st keys) = Ok st' ->
  NoDup st.2 ->
  NoDup st'.2
  /\ forall type,
       type ∈ st'.2
       <-> type ∈ st.2 \/ exists key, key ∈ keys
                                      /\ skippedAt metadataTable key type.
Proof.
  revert st. induction keys as [| key keys IH]; intros st Hrun Hnodup.
  - injection Hrun as <-. split; [exact Hnodup |].
    intros type. split; [auto |].
    intros [Hin | [key [Hkey _]]]; [exact Hin |].
    apply elem_of_nil in Hkey. destruct Hkey.
  - cbn [foldM] in Hrun. apply bind_inv_Ok in Hrun.
    destruct Hrun as [st1 [Hstep Hrest]].
    apply metadataStep_inv in Hstep.
    destruct Hstep as [[Hsame Hnone] | [ty [Hty ->]]].
    + destruct (IH st1 Hrest) as [Hnd Hiff]; [rewrite Hsame; exact Hnodup |].
      split; [exact Hnd |]. intros type. rewrite Hiff, Hsame.
      split; intros [Hin | [k [Hk Hsk]]]; auto.
      * right. exists k. split; [apply elem_of_cons; auto | exact Hsk].
      * apply elem_of_cons in Hk. destruct Hk as [-> | Hk].
        -- exfalso. exact (Hnone type Hsk).
        -- right. exists k. auto.
    + destruct (IH _ Hrest) as [Hnd Hiff];
        [apply Set_add_NoDup; exact Hnodup |].
      split; [exact Hnd |]. intros type. rewrite Hiff. simpl.
      rewrite Set_add_elem.
      split.
      * intros [[Hin | ->] | [k [Hk Hsk]]]; auto.
        -- right. exists key. split; [apply elem_of_cons; auto | exact Hty].
        -- right. exists k. split; [apply elem_of_cons; auto | exact Hsk].
      * intros [Hin | [k [Hk Hsk]]]; auto.
        apply elem_of_cons in Hk. destruct Hk as [-> | Hk].
        -- left. right.
           destruct Hty as [h1 [Hh1 [Ht1 _]]].
           destruct Hsk as [h2 [Hh2 [Ht2 _]]]. congruence.
        -- right. exists k. auto.
Qed.

Lemma readData_no_warn (this : t) (offset c u : Z) :
  List.filter is_warn (trace (readData this offset c u)) = [].
Proof. rewrite readData_eq. simpl. destruct (decide (c = u)); reflexivity. Qed.

(** [createMetadataMap] once the metadata table is read. *)
Lemma createMetadataMap_eq (this : t) (entryHeaders : list EntryV2Header.t)
    (metadataTable : Buffer.t) :
  let table :=
    readData this (FileHeaderV2.metadataTableOffset (header this))
      (FileHeaderV2.metadataTableCompressedSize (header this))
      (FileHeaderV2.metadataTableSize (header this)) in
  outcome table = Ok metadataTable ->
  createMetadataMap this entryHeaders
  = match outcome (metadataLoop metadataTable entryHeaders) with
    | Ok (metadataMap, skippedMetaTypes) =>
        (trace table
           ++ match skippedMetaTypes with
              | [] => []
              | _ => [Warn "skipped metadata types" skippedMetaTypes]
              end,
         Ok metadataMap)
    | Throw e => (trace table, Throw e)
    end.
Proof.
  intros table Hread. unfold createMetadataMap. fold table.
  destruct table as [tr r]. simpl in Hread. subst r. simpl.
  pose proof (metadataLoop_trace metadataTable entryHeaders) as Htr.
  destruct (metadataLoop metadataTable entryHeaders) as [t' [[mm sk] | e]];
    simpl in Htr; subst t'; simpl.
  - destruct sk; simpl; rewrite ?app_nil_r; reflexivity.
  - rewrite app_nil_r. reflexivity.
Qed.

Lemma createMetadataMap_trace (this : t) (entryHeaders : list EntryV2Header.t) :
  exists warnings,
    trace (createMetadataMap this entryHeaders)
    = trace (readData this (FileHeaderV2.metadataTableOffset (header this))
               (FileHeaderV2.metadataTableCompressedSize (header this))
               (FileHeaderV2.metadataTableSize (header this)))
        ++ warnings
    /\ existsb is_inflate warnings = false.
Proof.
  destruct (outcome (readData this
                       (FileHeaderV2.metadataTableOffset (header this))
                       (FileHeaderV2.metadataTableCompressedSize (header this))
                       (FileHeaderV2.metadataTableSize (header this))))
    as [metadataTable | e] eqn:Hread.
  - rewrite (createMetadataMap_eq this entryHeaders metadataTable Hread).
    destruct (outcome (metadataLoop metadataTable entryHeaders))
      as [[mm sk] | e'].
    + eexists. split; [reflexivity |]. destruct sk; reflexivity.
    + exists []. rewrite app_nil_r. split; reflexivity.
  - exists []. rewrite app_nil_r. split; [| reflexivity].
    unfold createMetadataMap. apply (trace_bind_Throw _ _ e). exact Hread.
Qed.

(** C3. When the reader reads the entry table or the metadata table, the
    bytes read from disk go through [zlib.inflateSync] if and only if the
    compressed size of the table differs from its expected uncompressed
    size; with equal sizes they are returned as they were read. *)
Theorem tables_inflated_iff_sizes_differ (this : t)
    (entryHeaders : list EntryV2Header.t) :
  (forall offset compressedSize uncompressedSize,
      let bytes := bytesAt (fd this) offset (Z.to_nat compressedSize) in
      let run := readData this offset compressedSize uncompressedSize in
      (In (Inflate bytes) (trace run) <-> compressedSize <> uncompressedSize)
      /\ existsb is_inflate (trace run)
         = negb (compressedSize =? uncompressedSize)
      /\ outcome run
         = (if compressedSize =? uncompressedSize then Ok bytes
            else match inflateSync bytes with
                 | Some out => Ok out
                 | None => Throw InflateError
                 end))
  /\ existsb is_inflate (trace (readEntryHeaders this))
     = negb (FileHeaderV2.entryTableCompressedSize (header this)
             =? 16 * FileHeaderV2.entryTableCount (header this))
  /\ existsb is_inflate (trace (createMetadataMap this entryHeaders))
     = negb (FileHeaderV2.metadataTableCompressedSize (header this)
             =? FileHeaderV2.metadataTableSize (header this)).
Proof.
  split; [intros offset c u; apply readData_spec |]. split.
  - unfold readEntryHeaders.
    set (table := readData this _ _ _).
    assert (Htrace : trace (table ≫= fun b =>
                       liftR (EntryV2Header.decodeArray
                                (Z.to_nat (FileHeaderV2.entryTableCount
                                             (header this))) b))
                     = trace table).
    { destruct table as [tr [b | e]]; [| reflexivity].
      unfold mbind, M_bind, liftR. simpl. apply app_nil_r. }
    rewrite Htrace. subst table.
    apply (readData_spec this).
  - destruct (createMetadataMap_trace this entryHeaders)
      as [warnings [-> Hw]].
    rewrite existsb_app, Hw, orb_false_r.
    apply (readData_spec this).
Qed.

Lemma unknown_type_flags (type : Z) :
  type ∉ [MetadataType.IMG; MetadataType.SAMPLE; MetadataType.MIP_PROXY;
          MetadataType.INLINE_DIRECTORY; MetadataType.PMA_INFO;
          MetadataType.PMG_INFO; MetadataType.PLAIN; MetadataType.DIRECTORY;
          MetadataType.MIP_0; MetadataType.MIP_1; MetadataType.MIP_TAIL] ->
  MetadataType.is_described type = false
  /\ MetadataType.is_skipped type = false.
Proof.
  intros Hout.
  split; apply not_true_is_false; intros Hin;
    apply existsb_exists in Hin; destruct Hin as [x [Hx Heq]];
    apply Z.eqb_eq in Heq; subst x; apply Hout; apply list_elem_of_In;
    simpl in Hx; simpl; tauto.
Qed.

(** C6. While the metadata map is built, a header tagged [MIP_PROXY],
    [MIP_0], [MIP_1] or [INLINE_DIRECTORY] is skipped without error (the
    map is left as it was and the tag is noted); at most one warning is
    emitted, and when the map is built it lists the skipped tags met, once
    each; a header whose tag is outside the recognized set makes
    [createMetadataMap], and [parseEntries] with it, throw. *)
Theorem createMetadataMap_skips_and_rejects (this : t)
    (entryHeaders : list EntryV2Header.t) (metadataTable : Buffer.t) :
  outcome (readData this (FileHeaderV2.metadataTableOffset (header this))
             (FileHeaderV2.metadataTableCompressedSize (header this))
             (FileHeaderV2.metadataTableSize (header this)))
  = Ok metadataTable ->
  let run := createMetadataMap this entryHeaders in
  (forall key metadataHeader st,
      metadataHeaderAt metadataTable key = Ok metadataHeader ->
      MetadataEntryHeader.type metadataHeader
        ∈ [MetadataType.MIP_PROXY; MetadataType.MIP_0; MetadataType.MIP_1;
           MetadataType.INLINE_DIRECTORY] ->
      metadataStep metadataTable st key
      = ([], Ok (st.1, Set_add (MetadataEntryHeader.type metadataHeader) st.2)))
  /\ (length (List.filter is_warn (trace run)) <= 1)%nat
  /\ (forall metadataMap,
        outcome run = Ok metadataMap ->
        exists skippedTypes,
          NoDup skippedTypes
          /\ (forall type,
                type ∈ skippedTypes
                <-> exists key, key ∈ slots entryHeaders
                                /\ skippedAt metadataTable key type)
          /\ List.filter is_warn (trace run)
             = match skippedTypes with
               | [] => []
               | _ => [Warn "skipped metadata types" skippedTypes]
               end)
  /\ (forall key metadataHeader,
        key ∈ slots entryHeaders ->
        metadataHeaderAt metadataTable key = Ok metadataHeader ->
        MetadataEntryHeader.type metadataHeader
          ∉ [MetadataType.IMG; MetadataType.SAMPLE; MetadataType.MIP_PROXY;
             MetadataType.INLINE_DIRECTORY; MetadataType.PMA_INFO;
             MetadataType.PMG_INFO; MetadataType.PLAIN;
             MetadataType.DIRECTORY; MetadataType.MIP_0; MetadataType.MIP_1;
             MetadataType.MIP_TAIL] ->
        (exists e, outcome run = Throw e)
        /\ (entries this = None ->
            outcome (readEntryHeaders this) = Ok entryHeaders ->
            exists e, outcome (parseEntries this) = Throw e)).
Proof.
  intros Hread run.
  pose proof (createMetadataMap_eq this entryHeaders metadataTable Hread)
    as Hrun. fold run in Hrun.
  split.
  { intros key hdr [metadataMap skippedMetaTypes] Hhdr Htype.
    rewrite metadataStep_eq, Hhdr. simpl.
    assert (Hskip : MetadataType.is_skipped (MetadataEntryHeader.type hdr)
                    = true).
    { apply existsb_exists. exists (MetadataEntryHeader.type hdr).
      split; [| apply Z.eqb_refl].
      apply list_elem_of_In in Htype. simpl in Htype. simpl. tauto. }
    rewrite (skipped_not_described _ Hskip), Hskip. reflexivity. }
  split.
  { rewrite Hrun.
    destruct (outcome (metadataLoop metadataTable entryHeaders))
      as [[mm sk] | e]; simpl.
    - rewrite List.filter_app, readData_no_warn. destruct sk; simpl; lia.
    - rewrite readData_no_warn. simpl. lia. }
  split.
  { intros metadataMap Hok. rewrite Hrun in Hok |- *.
    destruct (outcome (metadataLoop metadataTable entryHeaders))
      as [[mm sk] | e] eqn:Hloop; [| discriminate].
    rewrite metadataLoop_eq in Hloop.
    destruct (skippedMetaTypes_spec _ _ _ _ Hloop) as [Hnd Hiff];
      [apply NoDup_nil_2 |].
    exists sk. split; [exact Hnd |]. split.
    - intros type. rewrite (Hiff type). simpl. split.
      + intros [Hin | Hex]; [apply elem_of_nil in Hin; destruct Hin | exact Hex].
      + auto.
    - simpl. rewrite List.filter_app, readData_no_warn.
      destruct sk; reflexivity. }
  intros key hdr Hkey Hhdr Hout.
  apply unknown_type_flags in Hout. destruct Hout as [Hdesc Hskip].
  assert (Hthrow : exists e, outcome run = Throw e).
  { rewrite Hrun. rewrite metadataLoop_eq.
    destruct (foldM_throws (metadataStep metadataTable)
                (fun k => k = key) (slots entryHeaders)) with (a := (∅, []) : MapState)
      as [e He].
    - intros [mm sk] b ->. rewrite metadataStep_eq, Hhdr. simpl.
      rewrite Hdesc, Hskip. eauto.
    - exists key. split; [apply list_elem_of_In; exact Hkey | reflexivity].
    - rewrite He. eauto. }
  split; [exact Hthrow |].
  intros Hcache Hheaders. destruct Hthrow as [e He].
  unfold parseEntries. unfold checkState.
  destruct (isValid this); [| eexists; reflexivity].
  rewrite ret_bind, Hcache.
  rewrite (outcome_bind_Ok _ _ _ Hheaders).
  exists e. apply outcome_bind_Throw. exact He.
Qed.

End metadata.

(** ** Road-split detection *)

Section split.
Context `{Geom}.

Lemma classify_eq (items : list Item) :
  classify items = (omap roadOf items, omap dividerOf items).
Proof.
  unfold classify.
  enough (Hgen : forall rs ds,
             foldl classifyStep (rs, ds) items
             = (rs ++ omap roadOf items, ds ++ omap dividerOf items))
    by apply (Hgen [] []).
  induction items as [| i items IH]; intros rs ds.
  - simpl. rewrite !app_nil_r. reflexivity.
  - cbn [foldl]. destruct i as [r | t | b | c | uid]; cbn [classifyStep].
    + rewrite IH. cbn. rewrite <- app_assoc. reflexivity.
    + rewrite IH. cbn. rewrite <- app_assoc. reflexivity.
    + cbn [omap list_omap dividerOf roadOf].
      destruct (String.eqb (scheme b) "scheme20"); rewrite IH;
        [rewrite <- app_assoc |]; reflexivity.
    + cbn [omap list_omap dividerOf roadOf].
      destruct (String.eqb (model c) "0i03a" || String.eqb (model c) "0i03b");
        rewrite IH; [rewrite <- app_assoc |]; reflexivity.
    + rewrite IH. reflexivity.
Qed.

Lemma dividerOf_spec (i : Item) (d : Divider) :
  dividerOf i = Some d <-> isDividerOf i d.
Proof.
  split.
  - destruct i as [r | t | b | c | uid]; simpl; try discriminate.
    + intros [= <-]. constructor.
    + destruct (String.eqb (scheme b) "scheme20") eqn:Hs; [| discriminate].
      intros [= <-]. constructor. apply String.eqb_eq. exact Hs.
    + destruct (String.eqb (model c) "0i03a" || String.eqb (model c) "0i03b")
        eqn:Hm; [| discriminate].
      intros [= <-]. constructor.
      apply orb_true_iff in Hm. rewrite !String.eqb_eq in Hm. exact Hm.
  - intros [t | b Hs | c Hm]; simpl.
    + reflexivity.
    + apply String.eqb_eq in Hs. rewrite Hs. reflexivity.
    + rewrite <- !String.eqb_eq, <- orb_true_iff in Hm. rewrite Hm.
      reflexivity.
Qed.

Lemma roadStep_eq (nodesByUid : gmap Z Node) (sectorDividers : list Divider)
    (sectorRoads : list Road) (acc : list Road * Z) :
  (foldl (roadStep nodesByUid sectorDividers) acc sectorRoads).1
  = acc.1 ++ omap (roadOut nodesByUid sectorDividers) sectorRoads.
Proof.
  revert acc. induction sectorRoads as [| r rs IH]; intros acc.
  - simpl. rewrite app_nil_r. reflexivity.
  - cbn [foldl omap list_omap]. rewrite IH. unfold roadStep.
    unfold roadOut at 2.
    destruct (nodesByUid !! road_startNodeUid r) as [rStart |];
      [| reflexivity].
    destruct (nodesByUid !! road_endNodeUid r) as [rEnd |]; [| reflexivity].
    destruct (existsb _ sectorDividers); simpl; rewrite <- app_assoc;
      reflexivity.
Qed.

Lemma sectorStep_roads (nodesByUid : gmap Z Node) (st : SplitState)
    (sector : string * list Item) :
  roads (sectorStep nodesByUid st sector)
  = roads st ++ sectorRoadsOut nodesByUid sector.2.
Proof.
  unfold sectorStep, sectorRoadsOut. rewrite classify_eq.
  pose proof (roadStep_eq nodesByUid (omap dividerOf sector.2)
                (omap roadOf sector.2) (roads st, splitCount st)) as Heq.
  destruct (foldl _ (roads st, splitCount st) _) as [roads' n'].
  simpl in Heq |- *. exact Heq.
Qed.

Lemma splitStage_roads (nodesByUid : gmap Z Node) (referenced : list Z)
    (sectors : list (string * list Item)) :
  roads (splitStage nodesByUid referenced sectors)
  = concat ((fun s => sectorRoadsOut nodesByUid s.2) <$> sectors).
Proof.
  unfold splitStage.
  enough (Hgen : forall st,
             roads (foldl (sectorStep nodesByUid) st sectors)
             = roads st
                 ++ concat ((fun s => sectorRoadsOut nodesByUid s.2)
                              <$> sectors))
    by apply Hgen.
  induction sectors as [| s sectors IH]; intros st.
  - simpl. rewrite app_nil_r. reflexivity.
  - cbn [foldl]. rewrite IH, sectorStep_roads. cbn.
    rewrite <- app_assoc. reflexivity.
Qed.

End split.

Lemma Qltb_lt (a b : Q) : Qltb a b = true <-> (a < b)%Q.
Proof.
  unfold Qltb. rewrite negb_true_iff, <- not_true_iff_false, Qle_bool_iff.
  split; [apply Qnot_le_lt | apply Qlt_not_le].
Qed.

Section split_properties.
Context `{Geom}.

Lemma splitsRoad_spec (nodesByUid : gmap Z Node) (rStart rEnd : Node)
    (d : Divider) :
  splitsRoad nodesByUid rStart rEnd d = true
  <-> exists tStart tEnd,
        nodesByUid !! startNodeUid d = Some tStart
        /\ nodesByUid !! endNodeUid d = Some tEnd
        /\ ((distance rStart tStart < 2 /\ distance rEnd tEnd < 2)
            \/ (distance rStart tEnd < 2 /\ distance rEnd tStart < 2))%Q.
Proof.
  unfold splitsRoad, threshold.
  destruct (nodesByUid !! startNodeUid d) as [tStart |].
  - destruct (nodesByUid !! endNodeUid d) as [tEnd |].
    + rewrite orb_true_iff, !andb_true_iff, !Qltb_lt. split.
      * intros Hnear. exists tStart, tEnd. auto.
      * intros [ts [te [[= <-] [[= <-] Hnear]]]]. exact Hnear.
    + split; [discriminate |]. intros [ts [te [_ [Hte _]]]]. discriminate.
  - split; [discriminate |]. intros [ts [te [Hts _]]]. discriminate.
Qed.

Lemma splitsRoad_swap (nodesByUid : gmap Z Node) (rStart rEnd : Node)
    (d : Divider) :
  splitsRoad nodesByUid rStart rEnd (swapDivider d)
  = splitsRoad nodesByUid rStart rEnd d.
Proof.
  unfold splitsRoad. destruct d as [t | b | c]; simpl;
    match goal with
    | |- context [nodesByUid !! ?e] =>
        destruct (nodesByUid !! e) as [tEnd |]
    end;
    match goal with
    | |- context [nodesByUid !! ?s] =>
        destruct (nodesByUid !! s) as [tStart |]
    end; try reflexivity; apply orb_comm.
Qed.

Lemma swapEnds_roadOf (i : Item) : roadOf (swapEnds i) = roadOf i.
Proof. destruct i; reflexivity. Qed.

Lemma swapEnds_dividerOf (i : Item) :
  dividerOf (swapEnds i) = swapDivider <$> dividerOf i.
Proof.
  destruct i as [r | t | b | c | uid]; simpl; try reflexivity.
  - destruct (String.eqb (scheme b) "scheme20"); reflexivity.
  - destruct (String.eqb (model c) "0i03a" || String.eqb (model c) "0i03b");
      reflexivity.
Qed.

Lemma omap_ext_all {A B} (f g : A -> option B) (l : list A) :
  (forall a, f a = g a) -> omap f l = omap g l.
Proof.
  intros Hfg. induction l as [| a l IH]; [reflexivity |].
  cbn [omap list_omap]. rewrite Hfg, IH. reflexivity.
Qed.

Lemma roads_swap (items items' : list Item) :
  Forall2 (fun i i' => i' = i \/ i' = swapEnds i) items items' ->
  omap roadOf items' = omap roadOf items.
Proof.
  intros Hswap.
  induction Hswap as [| i i' items items' [-> | ->] _ IH];
    cbn [omap list_omap]; rewrite ?swapEnds_roadOf, ?IH; reflexivity.
Qed.

Lemma dividers_swap (nodesByUid : gmap Z Node) (rStart rEnd : Node)
    (items items' : list Item) :
  Forall2 (fun i i' => i' = i \/ i' = swapEnds i) items items' ->
  existsb (splitsRoad nodesByUid rStart rEnd) (omap dividerOf items')
  = existsb (splitsRoad nodesByUid rStart rEnd) (omap dividerOf items).
Proof.
  intros Hswap.
  induction Hswap as [| i i' items items' [-> | ->] _ IH];
    cbn [omap list_omap]; [reflexivity | |].
  - destruct (dividerOf i); cbn [existsb]; rewrite IH; reflexivity.
  - rewrite swapEnds_dividerOf.
    destruct (dividerOf i); cbn [fmap option_fmap option_map existsb];
      rewrite ?splitsRoad_swap, IH; reflexivity.
Qed.

Lemma sectorRoadsOut_swap (nodesByUid : gmap Z Node)
    (items items' : list Item) :
  Forall2 (fun i i' => i' = i \/ i' = swapEnds i) items items' ->
  sectorRoadsOut nodesByUid items' = sectorRoadsOut nodesByUid items.
Proof.
  intros Hswap. unfold sectorRoadsOut.
  rewrite (roads_swap _ _ Hswap). apply omap_ext_all. intros r.
  unfold roadOut.
  destruct (nodesByUid !! road_startNodeUid r) as [rStart |]; [| reflexivity].
  destruct (nodesByUid !! road_endNodeUid r) as [rEnd |]; [| reflexivity].
  rewrite (dividers_swap _ _ _ _ _ Hswap). reflexivity.
Qed.

Lemma splitStage_swap (nodesByUid : gmap Z Node) (referenced : list Z)
    (sectors sectors' : list (string * list Item)) :
  sameUpToSwaps sectors sectors' ->
  roads (splitStage nodesByUid referenced sectors')
  = roads (splitStage nodesByUid referenced sectors).
Proof.
  intros Hswap. rewrite !splitStage_roads. f_equal.
  induction Hswap as [| s s' sectors sectors' [_ Hitems] _ IH];
    [reflexivity |].
  cbn [fmap list_fmap]. rewrite (sectorRoadsOut_swap _ _ _ Hitems).
  f_equal. exact IH.
Qed.

(** C7. The stage emits, for a road item of a sector whose two nodes
    resolve, one road: the item itself or the item flagged
    [maybeDivided], and it is flagged if and only if some divider of that
    sector (a terrain, a building of scheme ["scheme20"], a curve of model
    ["0i03a"] or ["0i03b"]) has its two nodes within distance 2 of the two
    nodes of the road, in one orientation or the other. The roads of the
    stage are these, sector after sector and item after item, and they do
    not change when the two ends of dividers are exchanged. *)
Theorem road_flagged_iff_divider_near (nodesByUid : gmap Z Node)
    (referenced : list Z) (sectors : list (string * list Item))
    (key : string) (items : list Item) (r : Road) (rStart rEnd : Node) :
  (key, items) ∈ sectors ->
  RoadItem r ∈ items ->
  nodesByUid !! road_startNodeUid r = Some rStart ->
  nodesByUid !! road_endNodeUid r = Some rEnd ->
  maybeDivided r = None ->
  let near a b := (distance a b < 2)%Q in
  let divided :=
    exists item d tStart tEnd,
      item ∈ items /\ isDividerOf item d
      /\ nodesByUid !! startNodeUid d = Some tStart
      /\ nodesByUid !! endNodeUid d = Some tEnd
      /\ ((near rStart tStart /\ near rEnd tEnd)
          \/ (near rStart tEnd /\ near rEnd tStart)) in
  let out := roads (splitStage nodesByUid referenced sectors) in
  (exists r',
      roadOut nodesByUid (classify items).2 r = Some r'
      /\ r' ∈ sectorRoadsOut nodesByUid items
      /\ r' ∈ out
      /\ (r' = r \/ r' = flag r)
      /\ (maybeDivided r' = Some true <-> divided))
  /\ (divided -> flag r ∈ out)
  /\ (~ divided -> r ∈ out)
  /\ out = concat ((fun s => sectorRoadsOut nodesByUid s.2) <$> sectors)
  /\ (forall st key,
        roads (sectorStep nodesByUid st (key, items))
        = roads st ++ sectorRoadsOut nodesByUid items)
  /\ (forall sectors',
        sameUpToSwaps sectors sectors' ->
        roads (splitStage nodesByUid referenced sectors') = out)
  /\ (forall referenced sectors sectors',
        sameUpToSwaps sectors sectors' ->
        roads (splitStage nodesByUid referenced sectors')
        = roads (splitStage nodesByUid referenced sectors)).
Proof.
  intros Hsector Hitem Hstart Hend Hunflagged near divided out.
  assert (Hiff : existsb (splitsRoad nodesByUid rStart rEnd)
                   (omap dividerOf items) = true <-> divided).
  { rewrite existsb_exists. split.
    - intros [d [Hd Hsplit]]. apply list_elem_of_In in Hd.
      apply list_elem_of_omap in Hd. destruct Hd as [item [Hin Hdiv]].
      apply dividerOf_spec in Hdiv. apply splitsRoad_spec in Hsplit.
      destruct Hsplit as [tStart [tEnd [Hts [Hte Hnear]]]].
      exists item, d, tStart, tEnd. auto.
    - intros [item [d [tStart [tEnd [Hin [Hdiv [Hts [Hte Hnear]]]]]]]].
      exists d. split.
      + apply list_elem_of_In. apply list_elem_of_omap.
        exists item. split; [exact Hin | apply dividerOf_spec; exact Hdiv].
      + apply splitsRoad_spec. exists tStart, tEnd. auto. }
  assert (Hout : roadOut nodesByUid (omap dividerOf items) r
                 = Some (if existsb (splitsRoad nodesByUid rStart rEnd)
                              (omap dividerOf items)
                         then flag r else r)).
  { unfold roadOut. rewrite Hstart, Hend. reflexivity. }
  assert (Hin : forall r',
             roadOut nodesByUid (omap dividerOf items) r = Some r' ->
             r' ∈ sectorRoadsOut nodesByUid items).
  { intros r' Hr'. unfold sectorRoadsOut. apply list_elem_of_omap.
    exists r. split; [| exact Hr']. apply list_elem_of_omap.
    exists (RoadItem r). split; [exact Hitem | reflexivity]. }
  assert (Hstage : forall r',
             r' ∈ sectorRoadsOut nodesByUid items -> r' ∈ out).
  { intros r' Hr'. unfold out. rewrite splitStage_roads.
    apply elem_of_concat. exists (sectorRoadsOut nodesByUid items).
    split; [exact Hr' |]. apply list_elem_of_fmap.
    exists (key, items). split; [reflexivity | exact Hsector]. }
  split; [| split; [| split; [| split; [| split; [| split]]]]].
  - rewrite classify_eq. cbn [snd].
    eexists. split; [exact Hout |].
    split; [apply Hin; exact Hout |].
    split; [apply Hstage, Hin; exact Hout |].
    destruct (existsb _ (omap dividerOf items)).
    + split; [right; reflexivity |]. split; [intros _; apply Hiff |];
        reflexivity.
    + split; [left; reflexivity |]. rewrite Hunflagged. split.
      * discriminate.
      * intros Hdiv. apply Hiff in Hdiv. discriminate.
  - intros Hdiv. apply Hiff in Hdiv. rewrite Hdiv in Hout.
    apply Hstage, Hin. exact Hout.
  - intros Hnot. apply Hstage, Hin. rewrite Hout.
    destruct (existsb _ (omap dividerOf items)); [| reflexivity].
    exfalso. apply Hnot, Hiff. reflexivity.
  - apply splitStage_roads.
  - intros st key'. apply sectorStep_roads.
  - intros sectors'. apply splitStage_swap.
  - intros referenced' sectors0 sectors'. apply splitStage_swap.
Qed.

End split_properties.

(** ** Emission of the map data *)

(** [Math.round] gives the integer nearest to its argument. *)
Lemma Math_round_nearest (q : Q) :
  exists k : Z,
    Math_round q = inject_Z k
    /\ (q - (1 # 2) < inject_Z k /\ inject_Z k <= q + (1 # 2))%Q.
Proof.
  exists (Qfloor (q + (1 # 2))). split; [reflexivity |].
  pose proof (Qfloor_le (q + (1 # 2))) as Hle.
  pose proof (Qlt_floor (q + (1 # 2))) as Hlt.
  rewrite inject_Z_plus in Hlt. change (inject_Z 1) with 1%Q in Hlt.
  split; lra.
Qed.

(** C8 as stated fails on [nodes]: one referenced node at
    [(1/2, 0, 0)] is emitted as it is, not as [(1, 0, 0)]. *)
Lemma nodes_are_not_rounded : ~ nodes_and_elevation_are_rounded_triples.
Proof.
  intros Hclaim.
  pose (n := {| node_uid := 1; x := 1 # 2; y := 0; z := 0 |}).
  destruct (Hclaim axisDistance {[ 1 := n ]} [1] [] [] []) as [Hnodes _].
  vm_compute in Hnodes. discriminate Hnodes.
Qed.

(** C8, amended. [elevation] is an array of integer triples, each made of
    the coordinates of an elevation node rounded to the nearest integer;
    [nodes] is the array of the referenced nodes themselves, with their
    coordinates as they are. *)
Theorem elevation_rounded_nodes_as_they_are `{Geom}
    (nodesByUid : gmap Z Node)
    (referencedNodeUids0 elevationNodeUids : list Z)
    (sectors : list (string * list Item))
    (mileageTargets : JsMap MileageTarget) :
  let referenced :=
    referencedNodeUids (splitStage nodesByUid referencedNodeUids0 sectors) in
  let mapData :=
    emitMapData nodesByUid referencedNodeUids0 elevationNodeUids sectors
      mileageTargets in
  mapData_nodes mapData = nodesOf nodesByUid referenced
  /\ mapData_elevation mapData
     = (fun n => (Math_round (x n), Math_round (y n), Math_round (z n)))
         <$> nodesOf nodesByUid elevationNodeUids
  /\ (forall n, n ∈ nodesOf nodesByUid elevationNodeUids
                <-> exists uid, uid ∈ elevationNodeUids
                                /\ nodesByUid !! uid = Some n)
  /\ (forall q : Q,
        exists k : Z,
          Math_round q = inject_Z k
          /\ (q - (1 # 2) < inject_Z k /\ inject_Z k <= q + (1 # 2))%Q).
Proof.
  intros referenced mapData.
  split; [reflexivity |]. split; [reflexivity |]. split.
  - intros n. unfold nodesOf. apply list_elem_of_omap.
  - apply Math_round_nearest.
Qed.

(** ** Mileage targets *)

Lemma Map_set_here {V} (key : string) (v v' : V) (before after : JsMap V) :
  key ∉ before.*1 ->
  Map_set key v (before ++ (key, v') :: after) = before ++ (key, v) :: after.
Proof.
  induction before as [| [k w] before IH]; intros Hfresh.
  - simpl. rewrite String.eqb_refl. reflexivity.
  - cbn [fmap list_fmap fst] in Hfresh.
    apply not_elem_of_cons in Hfresh. destruct Hfresh as [Hne Hfresh].
    cbn [app Map_set].
    destruct (String.eqb k key) eqn:Heq.
    + apply String.eqb_eq in Heq. congruence.
    + rewrite IH by exact Hfresh. reflexivity.
Qed.

Lemma mileageStep_here (nodesByUid : gmap Z Node) (token : string)
    (target : MileageTarget) (before after : JsMap MileageTarget) :
  token ∉ before.*1 ->
  mileageStep nodesByUid (before ++ (token, target) :: after) (token, target)
  = before ++ (token, augment nodesByUid target) :: after.
Proof.
  intros Hfresh. unfold mileageStep, augment.
  destruct ((truthyNumber (target_x target) && truthyNumber (target_y target))
            || negb (truthyZ (nodeUid target))); [reflexivity |].
  destruct (nodeUid target ≫= _); [| reflexivity].
  apply Map_set_here. exact Hfresh.
Qed.

(** The loop rewrites each target in place. *)
Lemma mileageStage_eq (nodesByUid : gmap Z Node)
    (mileageTargets : JsMap MileageTarget) :
  NoDup mileageTargets.*1 ->
  mileageStage nodesByUid mileageTargets
  = (fun e => (e.1, augment nodesByUid e.2)) <$> mileageTargets.
Proof.
  intros Hnodup. unfold mileageStage.
  set (aug := fun e : string * MileageTarget =>
                (e.1, augment nodesByUid e.2)).
  enough (Hgen : forall todo done,
             NoDup (done ++ todo).*1 ->
             foldl (mileageStep nodesByUid) ((aug <$> done) ++ todo) todo
             = (aug <$> done) ++ (aug <$> todo))
    by apply (Hgen mileageTargets [] Hnodup).
  induction todo as [| [token target] todo IH]; intros done Hnd.
  - reflexivity.
  - cbn [foldl]. rewrite mileageStep_here.
    + specialize (IH (done ++ [(token, target)])).
      assert (Hdone : aug <$> done ++ [(token, target)]
                      = (aug <$> done) ++ [(token, augment nodesByUid target)])
        by (rewrite fmap_app; reflexivity).
      rewrite Hdone, <- !app_assoc in IH. cbn [app] in IH.
      apply IH. exact Hnd.
    + rewrite fmap_app in Hnd. apply NoDup_app in Hnd.
      destruct Hnd as [_ [Hdisj _]].
      rewrite <- list_fmap_compose. intros Hin. apply (Hdisj token).
      * clear -Hin. induction done as [| d done IHd];
          [apply elem_of_nil in Hin; destruct Hin |].
        cbn in Hin |- *. apply elem_of_cons in Hin.
        apply elem_of_cons. destruct Hin; auto.
      * cbn. apply elem_of_cons. auto.
Qed.

Lemma truthyNumber_spec (o : option JsNumber) :
  truthyNumber o = true <-> nonzero o.
Proof.
  unfold truthyNumber, nonzero. destruct o as [[q | negative |] |].
  - rewrite negb_true_iff, <- not_true_iff_false, Qeq_bool_iff. split.
    + intros Hq. exists (Finite q). auto.
    + intros [v [[= <-] Hq]]. exact Hq.
  - split; [| reflexivity]. intros _. exists (Infinity negative). auto.
  - split; [discriminate |]. intros [v [[= <-] Hv]]. destruct Hv.
  - split; [discriminate |]. intros [v [Hv _]]. discriminate.
Qed.

Lemma truthyZ_spec (o : option Z) :
  truthyZ o = true <-> exists uid, o = Some uid /\ uid <> 0.
Proof.
  unfold truthyZ. destruct o as [uid |].
  - rewrite negb_true_iff, Z.eqb_neq. split.
    + intros Huid. exists uid. auto.
    + intros [uid' [[= <-] Huid]]. exact Huid.
  - split; [discriminate |]. intros [uid [Huid _]]. discriminate.
Qed.

(** C9 as stated fails on two targets: the pass moves the first to
    its node although it has explicit coordinates, and keeps the second
    although node 0 exists. *)
Lemma mileage_claim_fails :
  ~ mileage_claim_at {[ 7 := someNode ]} [("a", explicitAtZero)] 0 "a"
      explicitAtZero
  /\ ~ mileage_claim_at {[ 0 := someNode ]} [("b", zeroUid)] 0 "b" zeroUid
  /\ ~ mileage_claim.
Proof.
  assert (H1 : ~ mileage_claim_at {[ 7 := someNode ]} [("a", explicitAtZero)]
                 0 "a" explicitAtZero).
  { unfold mileage_claim_at. vm_compute. discriminate. }
  split; [exact H1 |]. split.
  - unfold mileage_claim_at. vm_compute. discriminate.
  - intros Hclaim. apply H1. apply Hclaim; [| reflexivity].
    apply NoDup_singleton.
Qed.

(** ** Rounding to binary64 *)

Lemma roundHalfEven_near (n d : Z) :
  0 < d ->
  - d <= 2 * (roundHalfEven n d * d) - 2 * n <= d.
Proof.
  intros Hd. unfold roundHalfEven. cbn zeta.
  pose proof (Z.div_mod n d ltac:(lia)) as Hn.
  pose proof (Z.mod_pos_bound n d Hd) as Hr.
  destruct (Z.compare_spec (2 * (n mod d)) d) as [Heq | Hlt | Hgt];
    [destruct (Z.even (n / d)) | |]; nia.
Qed.

Local Open Scope Q_scope.

Lemma pow2_pos (e : Z) : 0 < 2 ^ e.
Proof. apply Qpower_0_lt. reflexivity. Qed.

Lemma pow2_add (a b : Z) : 2 ^ (a + b) == 2 ^ a * 2 ^ b.
Proof. apply Qpower_plus. discriminate. Qed.

Lemma pow2_nonneg (e : Z) : (0 <= e)%Z -> 2 ^ e == inject_Z (2 ^ e).
Proof. intros He. rewrite Zpower_Qpower by exact He. reflexivity. Qed.

(** [a / b = n / d / 2 ^ e] *)
Lemma scaled_ratio (n d e : Z) :
  inject_Z (scaled n d e).1 * inject_Z d * 2 ^ e
  == inject_Z n * inject_Z (scaled n d e).2.
Proof.
  unfold scaled. cbn [fst snd].
  destruct (Z.le_gt_cases 0 e) as [He | He].
  - rewrite (Z.max_l 0 (- e)), (Z.max_r 0 e) by lia.
    rewrite Z.pow_0_r, Z.mul_1_r, inject_Z_mult, pow2_nonneg by exact He.
    ring.
  - rewrite (Z.max_r 0 (- e)), (Z.max_l 0 e) by lia.
    rewrite Z.pow_0_r, Z.mul_1_r, inject_Z_mult.
    rewrite <- (pow2_nonneg (- e)) by lia.
    assert (Hinv : 2 ^ (- e) * 2 ^ e == 1).
    { rewrite <- pow2_add. replace (- e + e)%Z with 0%Z by lia. reflexivity. }
    rewrite <- (Qmult_1_r (inject_Z n * inject_Z d)), <- Hinv. ring.
Qed.

Lemma Qcancel_bound (M P X A B : Q) :
  0 < B -> 0 < P ->
  A * P == X * B ->
  - B <= 2 * (M * B) - 2 * A <= B ->
  Qabs (M * P - X) <= P / 2.
Proof.
  intros HB HP Hratio [Hlo Hhi].
  assert (Heq : (M * P - X) * B == P * (M * B - A)).
  { transitivity (M * P * B - X * B); [ring |].
    rewrite <- Hratio. ring. }
  assert (Hl : - (P / 2) * B == P * (- (1 # 2) * B)) by field.
  assert (Hh : (P / 2) * B == P * ((1 # 2) * B)) by field.
  apply Qabs_Qle_condition. split.
  - apply (Qmult_le_r _ _ B HB). rewrite Heq, Hl.
    apply Qmult_le_l; [exact HP | lra].
  - apply (Qmult_le_r _ _ B HB). rewrite Heq, Hh.
    apply Qmult_le_l; [exact HP | lra].
Qed.

Lemma scaled_pos (n d e : Z) :
  (0 < d)%Z -> (0 < (scaled n d e).2)%Z.
Proof.
  intros Hd. unfold scaled. cbn [snd].
  apply Z.mul_pos_pos; [exact Hd |]. apply Z.pow_pos_nonneg; lia.
Qed.

(** The multiple of [2 ^ e] that [binary64] takes is within half of
    [2 ^ e] of the value rounded. *)
Lemma rounded_near (n d e : Z) :
  (0 < d)%Z ->
  Qabs (inject_Z (roundHalfEven (scaled n d e).1 (scaled n d e).2) * 2 ^ e
        - inject_Z n / inject_Z d)
  <= 2 ^ e / 2.
Proof.
  intros Hd.
  pose proof (scaled_pos n d e Hd) as Hb.
  pose proof (scaled_ratio n d e) as Hratio.
  pose proof (roundHalfEven_near (scaled n d e).1 _ Hb) as [Hlo Hhi].
  set (a := (scaled n d e).1) in *. set (b := (scaled n d e).2) in *.
  set (m := roundHalfEven a b) in *.
  assert (HD : 0 < inject_Z d) by (rewrite <- (Zlt_Qlt 0); exact Hd).
  apply (Qcancel_bound _ _ _ (inject_Z a) (inject_Z b)).
  - rewrite <- (Zlt_Qlt 0). exact Hb.
  - apply pow2_pos.
  - transitivity (inject_Z a * inject_Z d * 2 ^ e / inject_Z d);
      [field; lra |].
    rewrite Hratio. field. lra.
  - rewrite <- !inject_Z_mult, <- inject_Z_opp.
    change 2 with (inject_Z 2). rewrite <- !inject_Z_mult.
    unfold Qminus. rewrite <- inject_Z_opp, <- inject_Z_plus.
    split; rewrite <- Zle_Qle; lia.
Qed.

(** Unless the exponent is the least one, the value rounded has a
    significand of at least 52 bits after the first. *)
Lemma exponent_normal (n d : Z) :
  (0 < n)%Z -> (0 < d)%Z ->
  exponent n d = (-1074)%Z
  \/ 2 ^ 52 * 2 ^ exponent n d <= inject_Z n / inject_Z d.
Proof.
  intros Hn Hd. unfold exponent.
  set (e0 := (Z.log2 n - Z.log2 d - 52)%Z).
  pose proof (scaled_ratio n d e0) as Hratio.
  pose proof (scaled_pos n d e0 Hd) as Hb.
  destruct (scaled n d e0) as [a b] eqn:Hscaled. cbn [fst snd] in *.
  assert (HD : 0 < inject_Z d) by (rewrite <- (Zlt_Qlt 0); exact Hd).
  assert (HB : 0 < inject_Z b) by (rewrite <- (Zlt_Qlt 0); exact Hb).
  assert (Hbound : 2 ^ 52 * 2 ^ (if (2 ^ 52 * b <=? a)%Z then e0 else e0 - 1)%Z
                   <= inject_Z n / inject_Z d).
  { apply Qle_shift_div_l; [exact HD |].
    destruct (Z.leb_spec (2 ^ 52 * b) a) as [Hfits | Hnot].
    - (* 2^52 b <= a, and a d P = n b *)
      apply (Qmult_le_r _ _ (inject_Z b) HB).
      rewrite <- Hratio.
      assert (Hq : inject_Z (2 ^ 52) * inject_Z b <= inject_Z a)
        by (rewrite <- inject_Z_mult, <- Zle_Qle; exact Hfits).
      change (inject_Z (2 ^ 52)) with (2 ^ 52) in Hq.
      pose proof (pow2_pos e0) as HP.
      assert (Hl : 2 ^ 52 * 2 ^ e0 * inject_Z d * inject_Z b
                   == (2 ^ 52 * inject_Z b) * (inject_Z d * 2 ^ e0)) by ring.
      assert (Hr : inject_Z a * inject_Z d * 2 ^ e0
                   == inject_Z a * (inject_Z d * 2 ^ e0)) by ring.
      rewrite Hl, Hr.
      apply Qmult_le_compat_r; [exact Hq |].
      apply Qlt_le_weak. apply Qmult_lt_0_compat; assumption.
    - (* 2 ^ (log2 n - log2 d - 1) * d <= 2 ^ log2 n <= n *)
      pose proof (Z.log2_spec n Hn) as [Hln _].
      pose proof (Z.log2_spec d Hd) as [_ Hld].
      pose proof (Z.log2_nonneg n) as Hln0.
      pose proof (Z.log2_nonneg d) as Hld0.
      rewrite <- pow2_add.
      replace (52 + (e0 - 1))%Z with (Z.log2 n - Z.succ (Z.log2 d))%Z
        by (unfold e0; lia).
      apply Qle_trans with (2 ^ (Z.log2 n - Z.succ (Z.log2 d))
                           * 2 ^ (Z.succ (Z.log2 d))).
      + apply Qmult_le_l; [apply pow2_pos |].
        rewrite pow2_nonneg by lia. rewrite <- Zle_Qle. lia.
      + rewrite <- pow2_add.
        replace (Z.log2 n - Z.succ (Z.log2 d) + Z.succ (Z.log2 d))%Z
          with (Z.log2 n) by lia.
        rewrite pow2_nonneg by lia. rewrite <- Zle_Qle. exact Hln. }
  destruct (Z.max_spec (if (2 ^ 52 * b <=? a)%Z then e0 else e0 - 1)%Z
              (-1074)) as [[_ ->] | [_ ->]].
  - left. reflexivity.
  - right. exact Hbound.
Qed.

(** [binary64] rounds with a relative error of at most [2 ^ -53], or an
    absolute one of at most [2 ^ -1075], and does not overflow below
    [2 ^ 1023]. *)
Lemma binary64_near (q : Q) :
  Qabs q <= 2 ^ 1023 ->
  exists r,
    binary64 q = Finite r
    /\ Qabs (r - q) <= Qabs q * 2 ^ (-53) + 2 ^ (-1075).
Proof.
  intros Hsmall. unfold binary64. destruct q as [qn qd].
  cbn [Qnum Qden]. cbn zeta.
  destruct (Z.eqb_spec (Z.abs qn) 0) as [Hzero | Hnz].
  { exists 0. split; [reflexivity |].
    assert (Hq : qn # qd == 0) by (unfold Qeq; cbn; lia).
    rewrite Hq. vm_compute. discriminate. }
  set (n := Z.abs qn) in *. set (d := Z.pos qd).
  assert (Hn : (0 < n)%Z) by lia. assert (Hd : (0 < d)%Z) by reflexivity.
  assert (Habs : Qabs (qn # qd) == inject_Z n / inject_Z d).
  { unfold Qabs. fold n. rewrite (Qmake_Qdiv n qd). reflexivity. }
  pose proof (rounded_near n d (exponent n d) Hd) as Hnear.
  pose proof (exponent_normal n d Hn Hd) as Hnormal.
  set (e := exponent n d) in *.
  destruct (scaled n d e) as [a b] eqn:Hscaled. cbn [fst snd] in Hnear.
  set (m := roundHalfEven a b) in *.
  rewrite <- Habs in Hnear, Hnormal.
  pose proof (Qabs_nonneg (qn # qd)) as Hpos.
  pose proof (pow2_pos e) as HP.
  assert (Hhalf : 2 ^ e / 2 <= Qabs (qn # qd) * 2 ^ (-53) + 2 ^ (-1075)).
  { destruct Hnormal as [-> | Hnormal].
    - assert (Heta : 2 ^ (-1074) / 2 == 2 ^ (-1075)) by reflexivity.
      rewrite Heta.
      assert (H53 : 0 < 2 ^ (-53)) by apply pow2_pos.
      assert (0 <= Qabs (qn # qd) * 2 ^ (-53))
        by (apply Qmult_le_0_compat; [exact Hpos | lra]).
      lra.
    - assert (Heq : 2 ^ e / 2 == 2 ^ 52 * 2 ^ e * 2 ^ (-53)).
      { assert (H1 : 2 ^ 52 * 2 ^ (-53) == 1 / 2) by reflexivity.
        transitivity (2 ^ e * (2 ^ 52 * 2 ^ (-53))); [| ring].
        rewrite H1. field. }
      rewrite Heq.
      assert (H53 : 0 < 2 ^ (-53)) by apply pow2_pos.
      assert (H75 : 0 < 2 ^ (-1075)) by apply pow2_pos.
      assert (2 ^ 52 * 2 ^ e * 2 ^ (-53) <= Qabs (qn # qd) * 2 ^ (-53))
        by (apply Qmult_le_compat_r; [exact Hnormal | lra]).
      lra. }
  assert (Hfinite : (0 <=? e)%Z && (2 ^ 1024 <=? m * 2 ^ e)%Z = false).
  { apply not_true_is_false. intros Hover.
    apply andb_true_iff in Hover. destruct Hover as [He Hover].
    apply Z.leb_le in He, Hover.
    destruct Hnormal as [Hleast | Hnormal]; [lia |].
    assert (Hm : inject_Z (m * 2 ^ e) == inject_Z m * 2 ^ e)
      by (rewrite inject_Z_mult, pow2_nonneg by exact He; reflexivity).
    apply Qabs_Qle_condition in Hnear. destruct Hnear as [_ Hup].
    assert (Hbig : inject_Z (2 ^ 1024) <= inject_Z (m * 2 ^ e))
      by (rewrite <- Zle_Qle; exact Hover).
    rewrite Hm in Hbig.
    assert (Heq : 2 ^ e / 2 == 2 ^ 52 * 2 ^ e * 2 ^ (-53)).
    { assert (H1 : 2 ^ 52 * 2 ^ (-53) == 1 / 2) by reflexivity.
      transitivity (2 ^ e * (2 ^ 52 * 2 ^ (-53))); [| ring].
      rewrite H1. field. }
    assert (H53 : 0 < 2 ^ (-53)) by apply pow2_pos.
    assert (Hrel : 2 ^ 52 * 2 ^ e * 2 ^ (-53)
                   <= Qabs (qn # qd) * 2 ^ (-53))
      by (apply Qmult_le_compat_r; [exact Hnormal | lra]).
    assert (Hrel' : Qabs (qn # qd) * 2 ^ (-53) <= 2 ^ 1023 * 2 ^ (-53))
      by (apply Qmult_le_compat_r; [exact Hsmall | lra]).
    assert (Hnum : 2 ^ 1023 + 2 ^ 1023 * 2 ^ (-53) < inject_Z (2 ^ 1024))
      by reflexivity.
    rewrite Heq in Hup. lra. }
  rewrite Hfinite. eexists. split; [reflexivity |].
  rewrite Qred_correct.
  apply Qle_trans with (2 ^ e / 2); [| exact Hhalf].
  destruct (Z.ltb_spec qn 0) as [Hneg | Hnonneg].
  - assert (Hq : qn # qd == - Qabs (qn # qd)).
    { unfold Qabs, Qeq, Qopp. cbn. lia. }
    rewrite inject_Z_opp.
    assert (Hflip : - inject_Z m * 2 ^ e - (qn # qd)
                    == - (inject_Z m * 2 ^ e - Qabs (qn # qd))).
    { rewrite Hq at 1. ring. }
    rewrite Hflip, Qabs_opp. exact Hnear.
  - assert (Hq : qn # qd == Qabs (qn # qd)).
    { unfold Qabs, Qeq. cbn. lia. }
    rewrite Hq at 1. exact Hnear.
Qed.

(** [round2] gives the binary64 value nearest to [k / 100] for an integer
    [k] within a half of [q * 100], up to the rounding of the product. *)
Lemma round2_near (q : Q) :
  Qabs q <= 2 ^ 1000 ->
  exists (k : Z) (r : Q),
    round2 q = Finite r
    /\ binary64 (inject_Z k / 100) = Finite r
    /\ Qabs (inject_Z k - q * 100)
       <= (1 # 2) + Qabs (q * 100) * 2 ^ (-53) + 2 ^ (-1075)
    /\ Qabs (r - inject_Z k / 100)
       <= Qabs (inject_Z k / 100) * 2 ^ (-53) + 2 ^ (-1075).
Proof.
  intros Hq.
  assert (HX : Qabs (q * 100) <= 2 ^ 1007).
  { rewrite Qabs_Qmult. change (Qabs 100) with 100.
    apply Qle_trans with (2 ^ 1000 * 100).
    - apply Qmult_le_compat_r; [exact Hq | discriminate].
    - vm_compute. discriminate. }
  destruct (binary64_near (q * 100)) as [p [Hp Hnear]].
  { apply Qle_trans with (2 ^ 1007); [exact HX |]. vm_compute. discriminate. }
  destruct (Math_round_nearest p) as [k [Hk [Hlo Hhi]]].
  pose proof (Qabs_nonneg (q * 100)) as HX0.
  assert (Heps : Qabs (q * 100) * 2 ^ (-53) <= Qabs (q * 100)).
  { assert (Hle : 2 ^ (-53) * Qabs (q * 100) <= 1 * Qabs (q * 100)).
    { apply Qmult_le_compat_r; [| exact HX0]. vm_compute. discriminate. }
    rewrite Qmult_1_l, Qmult_comm in Hle. exact Hle. }
  assert (Heta : 2 ^ (-1075) <= 1) by (vm_compute; discriminate).
  set (X := Qabs (q * 100)) in *. set (eta := 2 ^ (-1075)) in *.
  set (Xeps := X * 2 ^ (-53)) in *.
  apply Qabs_Qle_condition in Hnear. destruct Hnear as [Hnl Hnu].
  pose proof (Qle_Qabs (q * 100)) as Hy1.
  pose proof (Qle_Qabs (- (q * 100))) as Hy2.
  rewrite Qabs_opp in Hy2. fold X in Hy1, Hy2.
  assert (Hbig : 2 * 2 ^ 1007 + 2 <= 2 ^ 1023) by (vm_compute; discriminate).
  set (T := 2 ^ 1007) in *. set (U := 2 ^ 1023) in *.
  destruct (binary64_near (inject_Z k / 100)) as [r [Hr Hrnear]].
  { fold U. apply Qabs_Qle_condition.
    assert (Hdiv : inject_Z k / 100 == inject_Z k * (1 # 100)) by field.
    rewrite Hdiv. split; lra. }
  exists k, r. split; [| split; [exact Hr | split; [| exact Hrnear]]].
  - unfold round2. rewrite Hp, Hk. exact Hr.
  - apply Qabs_Qle_condition. split; lra.
Qed.

Local Close Scope Q_scope.

(** C9, amended. A target is replaced, in place, by one positioned at its
    node (no node UID) exactly when its [x] and [y] are not both present
    and nonzero, it carries a nonzero node UID, and that node exists;
    every other target is left as it is. The position is rounded to two
    decimals in binary64 arithmetic: a coordinate [q] (of size up to
    [2 ^ 1000]) becomes the binary64 value nearest to [k / 100], for an
    integer [k] within a half of the product of [q] and 100 as rounded,
    so that each of the two roundings adds a relative error of at most
    [2 ^ -53]. *)
Theorem mileage_targets_augmented (nodesByUid : gmap Z Node)
    (mileageTargets : JsMap MileageTarget) (i : nat) (token : string)
    (target : MileageTarget) :
  NoDup mileageTargets.*1 ->
  mileageTargets !! i = Some (token, target) ->
  let out := mileageStage nodesByUid mileageTargets in
  let coordinates := nonzero (target_x target) /\ nonzero (target_y target) in
  length out = length mileageTargets
  /\ (forall uid node,
        ~ coordinates ->
        nodeUid target = Some uid -> uid <> 0 ->
        nodesByUid !! uid = Some node ->
        out !! i
        = Some (token,
                {| target_x := Some (round2 (x node));
                   target_y := Some (round2 (y node));
                   nodeUid := None;
                   others := others target |}))
  /\ (coordinates
      \/ nodeUid target = None
      \/ nodeUid target = Some 0
      \/ (exists uid, nodeUid target = Some uid /\ nodesByUid !! uid = None) ->
      out !! i = Some (token, target))
  /\ (forall q : Q,
        (Qabs q <= 2 ^ 1000)%Q ->
        exists (k : Z) (r : Q),
          round2 q = Finite r
          /\ binary64 (inject_Z k / 100) = Finite r
          /\ (Qabs (inject_Z k - q * 100)
              <= (1 # 2) + Qabs (q * 100) * 2 ^ (-53) + 2 ^ (-1075))%Q
          /\ (Qabs (r - inject_Z k / 100)
              <= Qabs (inject_Z k / 100) * 2 ^ (-53) + 2 ^ (-1075))%Q).
Proof.
  intros Hnodup Hi out coordinates.
  assert (Hout : out !! i = Some (token, augment nodesByUid target)).
  { subst out. rewrite mileageStage_eq by exact Hnodup.
    unfold JsMap in *. rewrite list_lookup_fmap, Hi. reflexivity. }
  assert (Hlen : length out = length mileageTargets).
  { subst out. rewrite mileageStage_eq by exact Hnodup. apply length_fmap. }
  rewrite Hout. clearbody out.
  split; [exact Hlen |]. split; [| split].
  - intros uid node Hno Huid Hnz Hnode. unfold augment.
    assert (Hxy : truthyNumber (target_x target) && truthyNumber (target_y target)
                  = false).
    { apply not_true_is_false. intros Hxy. apply Hno.
      apply andb_true_iff in Hxy. rewrite !truthyNumber_spec in Hxy. exact Hxy. }
    assert (Hu : truthyZ (nodeUid target) = true).
    { apply truthyZ_spec. exists uid. auto. }
    rewrite Hxy, Hu, Huid. simpl. rewrite Hnode. reflexivity.
  - intros Hkeep. unfold augment.
    destruct Hkeep as [[Hx Hy] | [Hnone | [Hzero | [uid [Huid Hnode]]]]].
    + apply truthyNumber_spec in Hx, Hy. rewrite Hx, Hy. reflexivity.
    + rewrite Hnone. simpl. rewrite orb_true_r. reflexivity.
    + rewrite Hzero. simpl. rewrite orb_true_r. reflexivity.
    + rewrite Huid. simpl. rewrite Hnode.
      destruct (_ || _); reflexivity.
  - apply round2_near.
Qed.

(** ** The length of what [read] returns *)

Section read_length.
Context `{Natives} `{DdsEnums}.

Lemma synthesizeDds_length (imageMetadata : ImageMeta.t)
    (ddsBytes : Buffer.t) :
  length (synthesizeDds imageMetadata ddsBytes) = (148 + length ddsBytes)%nat.
Proof. rewrite synthesizeDds_eq, !length_app. reflexivity. Qed.

(** C4, amended. A successful [read] of a file entry returns: for an
    uncompressed entry, the [compressedSize] bytes read from disk; for
    tiled parallel deflate, exactly the declared uncompressed size; for
    zlib, the output of [zlib.inflateSync], whatever its length; and, for
    a texture object, 148 bytes of headers before that. *)
Theorem read_length_by_compression (fd : Buffer.t) (e : FileEntry)
    (out : Buffer.t) :
  outcome (FileEntry_read fd e) = Ok out ->
  let m := FileEntry_metadata e in
  let headers :=
    match e with ScsArchiveTobjFile _ _ => 148%nat | _ => 0%nat end in
  match EntryV2Metadata.compression m with
  | NONE =>
      length out
      = (headers + Z.to_nat (EntryV2Metadata.compressedSize m))%nat
  | GDEFLATE =>
      length out
      = (headers + Z.to_nat (EntryV2Metadata.uncompressedSize m))%nat
  | ZLIB =>
      exists inflated,
        inflateSync
          (bytesAt fd (EntryV2Metadata.offset m)
             (Z.to_nat (EntryV2Metadata.compressedSize m))) = Some inflated
        /\ length out = (headers + length inflated)%nat
  | ZLIB_HEADERLESS | ZSTD => False
  end.
Proof.
  intros Hread m headers.
  assert (Hpayload : exists payload,
             outcome (read fd m) = Ok payload
             /\ length out = (headers + length payload)%nat).
  { destruct e as [metadata | metadata imageMetadata]; simpl in *.
    - exists out. split; [exact Hread | reflexivity].
    - apply bind_inv_Ok in Hread. destruct Hread as [payload [Hp Hout]].
      injection Hout as <-. exists payload. split; [exact Hp |].
      apply synthesizeDds_length. }
  destruct Hpayload as [payload [Hp Hlen]].
  apply read_length in Hp.
  destruct (EntryV2Metadata.compression m).
  - rewrite Hlen, Hp. reflexivity.
  - exists payload. split; [exact Hp | exact Hlen].
  - exact Hp.
  - rewrite Hlen, Hp. reflexivity.
  - exact Hp.
Qed.

End read_length.

(** ** The stores of an archive *)

(** The two stores that [parseEntries] returns are built by [createStore]
    with the salt of the header, and are cached. *)
Lemma parseEntries_stores `{Natives} (this this' : ScsArchiveV2.t)
    (e : Entries) :
  ScsArchiveV2.entries this = None ->
  outcome (ScsArchiveV2.parseEntries this) = Ok (e, this') ->
  exists (dirs : list DirectoryEntry) (fs : list FileEntry),
    directories e
    = createStore dirs (FileHeaderV2.salt (ScsArchiveV2.header this))
    /\ files e = createStore fs (FileHeaderV2.salt (ScsArchiveV2.header this))
    /\ ScsArchiveV2.entries this' = Some e.
Proof.
  intros Hcache Hrun. unfold ScsArchiveV2.parseEntries in Hrun.
  apply bind_inv_Ok in Hrun. destruct Hrun as [[] [_ Hrun]].
  rewrite Hcache in Hrun.
  apply bind_inv_Ok in Hrun. destruct Hrun as [entryHeaders [_ Hrun]].
  apply bind_inv_Ok in Hrun. destruct Hrun as [metadataMap [_ Hrun]].
  apply bind_inv_Ok in Hrun. destruct Hrun as [[dirs fs] [_ Hrun]].
  injection Hrun as <- <-. exists dirs, fs. auto.
Qed.

(** C1. For every path [p] and salt [s], a lookup in a store that the
    reader built hashes [city64 p] when [s] is 0 and
    [city64 (decimal s ++ p)] otherwise, the salt being written in decimal
    and prepended as text; with salt 7 the key for ["material/ui/map"] is
    ["7material/ui/map"]. *)
Theorem store_lookup_hashes_salted_key `{Natives}
    (this this' : ScsArchiveV2.t) (e : Entries) :
  ScsArchiveV2.entries this = None ->
  outcome (ScsArchiveV2.parseEntries this) = Ok (e, this') ->
  let s := FileHeaderV2.salt (ScsArchiveV2.header this) in
  let key (salt : Z) (p : string) :=
    match salt with 0 => p | _ => pretty salt +:+ p end in
  (exists (dirs : list DirectoryEntry) (fs : list FileEntry),
      forall p,
        get (directories e) p
        = Map_of_pairs ((fun v => (hash v, v)) <$> dirs) !! city64 (key s p)
        /\ get (files e) p
           = Map_of_pairs ((fun v => (hash v, v)) <$> fs) !! city64 (key s p))
  /\ (forall (values : list FileEntry) (salt : Z) (p : string),
        get (createStore values salt) p
        = Map_of_pairs ((fun v => (hash v, v)) <$> values)
            !! city64 (key salt p))
  /\ saltedKey 7 "material/ui/map" = "7material/ui/map".
Proof.
  intros Hcache Hrun s key.
  destruct (parseEntries_stores this this' e Hcache Hrun)
    as [dirs [fs [Hdirs [Hfiles _]]]].
  split; [| split].
  - exists dirs, fs. intros p. rewrite Hdirs, Hfiles.
    split; apply createStore_get.
  - intros values salt p. apply createStore_get.
  - reflexivity.
Qed.

(** ** The cache and the validity check of [parseEntries] *)

(** X1. A successful [parseEntries] leaves the file and the header as they
    were and fills the cache; a second call returns the same entries
    without reading, inflating or warning. *)
Theorem parseEntries_cached `{Natives} (this this' : ScsArchiveV2.t)
    (e : Entries) :
  outcome (ScsArchiveV2.parseEntries this) = Ok (e, this') ->
  ScsArchiveV2.isValid this = true
  /\ ScsArchiveV2.fd this' = ScsArchiveV2.fd this
  /\ ScsArchiveV2.header this' = ScsArchiveV2.header this
  /\ ScsArchiveV2.entries this' = Some e
  /\ ScsArchiveV2.parseEntries this' = ([], Ok (e, this')).
Proof.
  intros Hrun. unfold ScsArchiveV2.parseEntries in Hrun |- *.
  destruct (ScsArchiveV2.isValid this) eqn:Hvalid;
    [| discriminate Hrun].
  unfold checkState in Hrun. rewrite ret_bind in Hrun.
  destruct (ScsArchiveV2.entries this) as [cached |] eqn:Hcache.
  - injection Hrun as <- <-. rewrite Hvalid, Hcache.
    repeat split; reflexivity.
  - apply bind_inv_Ok in Hrun. destruct Hrun as [entryHeaders [_ Hrun]].
    apply bind_inv_Ok in Hrun. destruct Hrun as [metadataMap [_ Hrun]].
    apply bind_inv_Ok in Hrun. destruct Hrun as [[dirs fs] [_ Hrun]].
    injection Hrun as <- <-.
    assert (Hvalid' : ScsArchiveV2.isValid
                        {| ScsArchiveV2.fd := ScsArchiveV2.fd this;
                           ScsArchiveV2.header := ScsArchiveV2.header this;
                           ScsArchiveV2.entries :=
                             Some {| directories :=
                                       createStore dirs
                                         (FileHeaderV2.salt
                                            (ScsArchiveV2.header this));
                                     files :=
                                       createStore fs
                                         (FileHeaderV2.salt
                                            (ScsArchiveV2.header this)) |} |}
                      = true) by exact Hvalid.
    rewrite Hvalid'. repeat split; reflexivity.
Qed.

Lemma trace_bind_prefix {A B} (m : M A) (f : A -> M B) :
  exists rest, trace (m ≫= f) = trace m ++ rest.
Proof.
  destruct m as [t [a | e]]; cbn [mbind M_bind trace fst].
  - destruct (f a) as [t' r]. exists t'. reflexivity.
  - exists []. rewrite app_nil_r. reflexivity.
Qed.

(** An archive that is valid and not yet parsed is read by
    [parseEntries]. *)
Lemma parseEntries_reads `{Natives} (this : ScsArchiveV2.t) :
  ScsArchiveV2.isValid this = true ->
  ScsArchiveV2.entries this = None ->
  exists position length rest,
    trace (ScsArchiveV2.parseEntries this)
    = ReadSync position length :: rest.
Proof.
  intros Hvalid Hcache. unfold ScsArchiveV2.parseEntries.
  rewrite Hvalid, Hcache. unfold checkState. rewrite ret_bind.
  match goal with
  | |- context [trace (?m ≫= ?f)] =>
      destruct (trace_bind_prefix m f) as [rest Hrest]
  end.
  rewrite Hrest. clear Hrest. unfold ScsArchiveV2.readEntryHeaders.
  match goal with
  | |- context [trace (?m ≫= ?f)] =>
      destruct (trace_bind_prefix m f) as [rest' Hrest']; rewrite Hrest'
  end.
  rewrite readData_eq. cbn zeta.
  destruct (decide _); cbn [trace fst app]; eauto.
Qed.

(** X2. [parseEntries] checks the header first. It throws
    [IllegalState] without reading anything exactly when the magic is not
    ["SCS#"], the hash method is not ["CITY"] or the version is not 2,
    cached entries or not; each of the three fields is checked. *)
Theorem parseEntries_requires_valid_header `{Natives}
    (this : ScsArchiveV2.t) :
  let header := ScsArchiveV2.header this in
  let wrong :=
    FileHeaderV2.magic header <> "SCS#"
    \/ FileHeaderV2.hashMethod header <> "CITY"
    \/ FileHeaderV2.version header <> 2 in
  (wrong <-> ScsArchiveV2.parseEntries this = ([], Throw IllegalState))
  /\ (wrong <-> ScsArchiveV2.isValid this = false)
  /\ (~ wrong <-> ScsArchiveV2.isValid this = true).
Proof.
  intros header wrong.
  assert (Hvalid : ScsArchiveV2.isValid this = true
                   <-> FileHeaderV2.magic header = "SCS#"
                       /\ FileHeaderV2.hashMethod header = "CITY"
                       /\ FileHeaderV2.version header = 2).
  { unfold ScsArchiveV2.isValid. fold header.
    rewrite !andb_true_iff, !String.eqb_eq, Z.eqb_eq. tauto. }
  assert (Hinvalid : wrong <-> ScsArchiveV2.isValid this = false).
  { unfold wrong. split.
    - intros Hwrong. apply not_true_is_false. rewrite Hvalid. tauto.
    - intros Hfalse. unfold ScsArchiveV2.isValid in Hfalse.
      fold header in Hfalse.
      apply andb_false_iff in Hfalse. destruct Hfalse as [Hfalse | Hversion].
      + apply andb_false_iff in Hfalse.
        destruct Hfalse as [Hmagic | Hmethod].
        * left. apply String.eqb_neq. exact Hmagic.
        * right. left. apply String.eqb_neq. exact Hmethod.
      + right. right. apply Z.eqb_neq. exact Hversion. }
  split; [| split; [exact Hinvalid |]].
  - rewrite Hinvalid. split.
    + intros Hfalse. unfold ScsArchiveV2.parseEntries. rewrite Hfalse.
      reflexivity.
    + intros Hrun. destruct (ScsArchiveV2.isValid this) eqn:Hv;
        [| reflexivity].
      exfalso. destruct (ScsArchiveV2.entries this) as [cached |] eqn:Hcache.
      * unfold ScsArchiveV2.parseEntries in Hrun.
        rewrite Hv, Hcache in Hrun. discriminate Hrun.
      * destruct (parseEntries_reads this Hv Hcache)
          as [position [length [rest Htrace]]].
        rewrite Hrun in Htrace. discriminate Htrace.
  - rewrite Hinvalid.
    destruct (ScsArchiveV2.isValid this); split; congruence.
Qed.

(** ** What the metadata map holds *)

Section metadata_map.
Context `{Natives}.

Import ScsArchiveV2.

Lemma describedAt_functional (metadataTable : Buffer.t) (key : Z)
    (m1 m2 : MetadataEntry) :
  describedAt metadataTable key m1 -> describedAt metadataTable key m2 ->
  m1 = m2.
Proof.
  intros [h1 [d1 [Hh1 [_ [Hd1 ->]]]]] [h2 [d2 [Hh2 [_ [Hd2 ->]]]]].
  rewrite Hh1 in Hh2. injection Hh2 as <-.
  rewrite Hd1 in Hd2. injection Hd2 as <-. reflexivity.
Qed.

Lemma describedAt_wellTyped (metadataTable : Buffer.t) (key : Z)
    (m : MetadataEntry) :
  describedAt metadataTable key m -> wellTyped m.
Proof.
  intros [hdr [d [_ [Hdesc [Hd ->]]]]].
  unfold MetadataType.is_described, MetadataType.described in Hdesc.
  cbn [existsb] in Hdesc. rewrite !orb_true_iff, !Z.eqb_eq in Hdesc.
  unfold wellTyped. cbn [fields version].
  destruct Hdesc as [Ht | [Ht | [Ht | [Ht | [Ht | [Ht | [Ht | Ht]]]]]]];
    try discriminate Ht; rewrite Ht in Hd |- *;
    unfold decodeDescriptor in Hd; simpl in Hd;
    match type of Hd with
    | match ?dec with _ => _ end = _ =>
        destruct dec; [| discriminate Hd]
    end;
    injection Hd as <-; auto.
Qed.

(** One turn of the loop either leaves the map as it was, on a skipped
    tag, or stores the entry of the slot. *)
Lemma metadataStep_map (metadataTable : Buffer.t) (st st' : MapState)
    (key : Z) :
  outcome (metadataStep metadataTable st key) = Ok st' ->
  (st'.1 = st.1 /\ forall m, ~ describedAt metadataTable key m)
  \/ (exists m, describedAt metadataTable key m /\ st'.1 = <[key := m]> st.1).
Proof.
  destruct st as [metadataMap skippedMetaTypes]. rewrite metadataStep_eq.
  destruct (metadataHeaderAt metadataTable key) as [hdr | e] eqn:Hhdr;
    [| discriminate].
  cbv zeta. destruct (MetadataType.is_described _) eqn:Hdesc.
  - destruct (decodeDescriptor _ _) as [d | e] eqn:Hd; [| discriminate].
    intros [= <-]. right. eexists. split; [| reflexivity].
    exists hdr, d. auto.
  - destruct (MetadataType.is_skipped _); [| discriminate].
    intros [= <-]. left. split; [reflexivity |].
    intros m [hdr' [d [Hhdr' [Hdesc' _]]]].
    rewrite Hhdr in Hhdr'. injection Hhdr' as <-. congruence.
Qed.

Lemma metadataFold_map (metadataTable : Buffer.t) (keys : list Z)
    (st st' : MapState) :
  outcome (foldM (metadataStep metadataTable) st keys) = Ok st' ->
  (forall k m, st.1 !! k = Some m -> describedAt metadataTable k m) ->
  (forall k m, st'.1 !! k = Some m ->
               describedAt metadataTable k m
               /\ (k ∈ keys \/ st.1 !! k = Some m))
  /\ (forall k m, describedAt metadataTable k m ->
                  k ∈ keys \/ st.1 !! k = Some m -> st'.1 !! k = Some m).
Proof.
  revert st. induction keys as [| key keys IH]; intros st Hrun Hinv.
  - injection Hrun as <-. split.
    + intros k m Hk. split; [apply Hinv; exact Hk | right; exact Hk].
    + intros k m _ [Hin | Hk]; [| exact Hk].
      apply elem_of_nil in Hin. destruct Hin.
  - cbn [foldM] in Hrun. apply bind_inv_Ok in Hrun.
    destruct Hrun as [st1 [Hstep Hrest]].
    apply metadataStep_map in Hstep.
    assert (Hinv1 : forall k m, st1.1 !! k = Some m ->
                                describedAt metadataTable k m).
    { destruct Hstep as [[Hsame _] | [m0 [Hm0 Hset]]].
      - rewrite Hsame. exact Hinv.
      - rewrite Hset. intros k m Hk.
        destruct (decide (key = k)) as [-> | Hne].
        + rewrite lookup_insert_eq in Hk. injection Hk as <-. exact Hm0.
        + rewrite lookup_insert_ne in Hk by exact Hne. apply Hinv. exact Hk. }
    destruct (IH st1 Hrest Hinv1) as [Hsound Hcomplete]. split.
    + intros k m Hk. destruct (Hsound k m Hk) as [Hd [Hin | Hk1]].
      * split; [exact Hd |]. left. apply elem_of_cons. auto.
      * split; [exact Hd |].
        destruct Hstep as [[Hsame _] | [m0 [Hm0 Hset]]].
        -- right. rewrite <- Hsame. exact Hk1.
        -- rewrite Hset in Hk1. destruct (decide (key = k)) as [-> | Hne].
           ++ left. apply elem_of_cons. auto.
           ++ rewrite lookup_insert_ne in Hk1 by exact Hne. auto.
    + intros k m Hd Hfrom. apply (Hcomplete k m Hd).
      destruct Hstep as [[Hsame Hnone] | [m0 [Hm0 Hset]]].
      * destruct Hfrom as [Hin | Hk].
        -- apply elem_of_cons in Hin. destruct Hin as [-> | Hin]; [| auto].
           exfalso. exact (Hnone m Hd).
        -- right. rewrite Hsame. exact Hk.
      * rewrite Hset. destruct (decide (key = k)) as [-> | Hne].
        -- right. rewrite lookup_insert_eq.
           rewrite (describedAt_functional _ _ _ _ Hm0 Hd). reflexivity.
        -- rewrite lookup_insert_ne by exact Hne.
           destruct Hfrom as [Hin | Hk]; [| auto].
           apply elem_of_cons in Hin. destruct Hin as [-> | Hin]; [| auto].
           contradiction.
Qed.

(** X3. When [createMetadataMap] returns, the map holds exactly the slots
    that the entry headers walk and whose tag has a descriptor, each with
    the entry decoded from the table at that slot (so two entry headers
    that share a slot agree on it), and the descriptor of every entry is
    the one that goes with its version: the casts of [createEntryV2] and
    [createTobjEntry] are sound on it. *)
Theorem createMetadataMap_holds_described_slots (this : t)
    (entryHeaders : list EntryV2Header.t) (metadataTable : Buffer.t)
    (metadataMap : gmap Z MetadataEntry) :
  outcome (readData this (FileHeaderV2.metadataTableOffset (header this))
             (FileHeaderV2.metadataTableCompressedSize (header this))
             (FileHeaderV2.metadataTableSize (header this)))
  = Ok metadataTable ->
  outcome (createMetadataMap this entryHeaders) = Ok metadataMap ->
  (forall key m,
      metadataMap !! key = Some m
      <-> key ∈ slots entryHeaders /\ describedAt metadataTable key m)
  /\ (forall key m, metadataMap !! key = Some m -> wellTyped m)
  /\ (forall key m,
        metadataMap !! key = Some m ->
        (version m = MetadataType.PLAIN \/ version m = MetadataType.DIRECTORY
         \/ version m = MetadataType.MIP_TAIL ->
         exists plainMeta, asPlainMeta m = ([], Ok plainMeta))
        /\ (version m = MetadataType.IMG ->
            exists imageMeta, asImageMeta m = ([], Ok imageMeta))).
Proof.
  intros Hread Hrun.
  rewrite (createMetadataMap_eq this entryHeaders metadataTable Hread)
    in Hrun.
  destruct (outcome (metadataLoop metadataTable entryHeaders))
    as [[mm sk] | e] eqn:Hloop; [| discriminate Hrun].
  injection Hrun as <-. rewrite metadataLoop_eq in Hloop.
  destruct (metadataFold_map _ _ _ _ Hloop) as [Hsound Hcomplete].
  { intros k m Hk. cbn [fst] in Hk. rewrite lookup_empty in Hk.
    discriminate Hk. }
  cbn [fst] in Hsound, Hcomplete.
  assert (Hiff : forall key m,
             mm !! key = Some m
             <-> key ∈ slots entryHeaders /\ describedAt metadataTable key m).
  { intros key m. split.
    - intros Hk. destruct (Hsound key m Hk) as [Hd [Hin | Hempty]].
      + auto.
      + rewrite lookup_empty in Hempty. discriminate Hempty.
    - intros [Hin Hd]. apply (Hcomplete key m Hd). auto. }
  assert (Htyped : forall key m, mm !! key = Some m -> wellTyped m).
  { intros key m Hk. apply Hiff in Hk. destruct Hk as [_ Hd].
    exact (describedAt_wellTyped _ _ _ Hd). }
  split; [exact Hiff |]. split; [exact Htyped |].
  intros key m Hk. specialize (Htyped key m Hk).
  unfold wellTyped in Htyped. unfold asPlainMeta, asImageMeta.
  split.
  - intros Hversion.
    destruct (fields m) as [i | s | a | g | p]; try (eexists; reflexivity);
      exfalso; rewrite Htyped in Hversion;
      destruct Hversion as [Hv | [Hv | Hv]]; discriminate Hv.
  - intros Hversion.
    destruct (fields m) as [i | s | a | g | p]; try (eexists; reflexivity);
      exfalso; rewrite Hversion in Htyped;
      try discriminate Htyped;
      destruct Htyped as [Hv | [Hv | Hv]]; discriminate Hv.
Qed.

End metadata_map.

(** ** Entries made from the tables *)

Section created_entries.
Context `{Natives}.

Lemma trace_bind_nil {A B} (m : M A) (f : A -> M B) :
  trace m = [] -> (forall a, trace (f a) = []) -> trace (m ≫= f) = [].
Proof.
  destruct m as [t [a | e]]; simpl; intros -> Hf; [| reflexivity].
  specialize (Hf a). unfold mbind, M_bind.
  destruct (f a) as [t' r]. exact Hf.
Qed.

Lemma assertExists_trace {A} (o : option A) : trace (assertExists o) = [].
Proof. destruct o; reflexivity. Qed.

Lemma createTobjEntry_trace (header : EntryV2Header.t)
    (metadataMap : gmap Z MetadataEntry) :
  trace (createTobjEntry header metadataMap) = [].
Proof.
  unfold createTobjEntry.
  repeat (apply trace_bind_nil;
          [first [ apply assertExists_trace
                 | unfold checkArgument; destruct (_ && _); reflexivity
                 | unfold asImageMeta, asPlainMeta;
                   match goal with
                   | |- context [fields ?m] => destruct (fields m)
                   end; reflexivity ]
          | intros ?]).
  reflexivity.
Qed.

Lemma createTobjEntry_hash (header : EntryV2Header.t)
    (metadataMap : gmap Z MetadataEntry) (file : FileEntry) :
  outcome (createTobjEntry header metadataMap) = Ok file ->
  hash file = EntryV2Header.hash header
  /\ EntryV2Header.isDirectory header = false
  /\ exists metadata imageMetadata,
       file = ScsArchiveTobjFile metadata imageMetadata.
Proof.
  unfold createTobjEntry. intros Hrun.
  apply bind_inv_Ok in Hrun. destruct Hrun as [[] [Hcheck Hrun]].
  assert (Hflag : EntryV2Header.isDirectory header = false).
  { unfold checkArgument in Hcheck.
    destruct (EntryV2Header.isDirectory header); [discriminate | reflexivity]. }
  repeat (apply bind_inv_Ok in Hrun; destruct Hrun as [? [_ Hrun]]).
  injection Hrun as <-. split; [reflexivity |]. split; [exact Hflag |].
  eauto.
Qed.

Lemma read_trace_head (fd : Buffer.t) (m : EntryV2Metadata.t) :
  exists rest,
    trace (read fd m)
    = ReadSync (EntryV2Metadata.offset m)
        (Z.to_nat (EntryV2Metadata.compressedSize m)) :: rest.
Proof.
  rewrite read_eq. cbv zeta.
  destruct (_ =? _)%nat; [destruct (EntryV2Metadata.compression m) |];
    eexists; reflexivity.
Qed.

Lemma newScsArchiveDirectoryV2_inv (fd : Buffer.t)
    (metadata : EntryV2Metadata.t) (directory : DirectoryEntry) :
  outcome (newScsArchiveDirectoryV2 fd metadata) = Ok directory ->
  ScsArchiveDirectoryV2.metadata directory = metadata
  /\ trace (newScsArchiveDirectoryV2 fd metadata) = trace (read fd metadata).
Proof.
  unfold newScsArchiveDirectoryV2.
  destruct (read fd metadata) as [tr [data | e]]; [| discriminate].
  cbn [mbind M_bind outcome trace fst snd].
  destruct (readBuffer data 0 4) as [head pos].
  destruct (decodeStruct 4 (fun b => Ok (Buffer.uintle b)) head)
    as [numStrings | e]; [| discriminate].
  cbn [liftR mbind M_bind].
  destruct (readBuffer data pos (Z.to_nat numStrings))
    as [stringLengths pos'].
  destruct (readNames data pos' stringLengths [] [])
    as [subdirectories files].
  cbn. intros [= <-]. rewrite !app_nil_r. split; reflexivity.
Qed.

Lemma createEntryV2_inv (fd : Buffer.t) (header : EntryV2Header.t)
    (metadataMap : gmap Z MetadataEntry)
    (entry : DirectoryEntry + FileEntry) :
  outcome (createEntryV2 fd header metadataMap) = Ok entry ->
  entryHash entry = EntryV2Header.hash header
  /\ match entry with
     | inl directory =>
         isDirectoryHeader header = true
         /\ exists rest,
              trace (createEntryV2 fd header metadataMap)
              = ReadSync
                  (EntryV2Metadata.offset
                     (ScsArchiveDirectoryV2.metadata directory))
                  (Z.to_nat (EntryV2Metadata.compressedSize
                               (ScsArchiveDirectoryV2.metadata directory)))
                  :: rest
     | inr file =>
         isDirectoryHeader header = false
         /\ trace (createEntryV2 fd header metadataMap) = []
         /\ ((exists metadata imageMetadata,
                 file = ScsArchiveTobjFile metadata imageMetadata)
             <-> EntryV2Header.metadataCount header = 3)
     end.
Proof.
  unfold createEntryV2, isDirectoryHeader.
  destruct (EntryV2Header.metadataCount header =? 3) eqn:Hcount.
  - intros Hrun. apply bind_inv_Ok in Hrun.
    destruct Hrun as [file [Htobj Hrun]]. injection Hrun as <-.
    pose proof (createTobjEntry_trace header metadataMap) as Htrace.
    destruct (createTobjEntry_hash _ _ _ Htobj) as [Hhash [Hflag Hshape]].
    split; [exact Hhash |]. split; [reflexivity |]. split.
    + destruct (createTobjEntry header metadataMap) as [t r].
      simpl in Htrace, Htobj. subst t r. reflexivity.
    + split; [intros _; apply Z.eqb_eq; exact Hcount | intros _; exact Hshape].
  - apply Z.eqb_neq in Hcount.
    destruct (metadataMap !! EntryV2Header.metadataIndex header)
      as [assocMetadata |]; [| discriminate].
    cbn [assertExists]. rewrite ret_bind.
    destruct (EntryV2Header.isDirectory header) eqn:Hflag.
    + destruct (version assocMetadata =? MetadataType.DIRECTORY);
        [| discriminate].
      cbn [assert orb]. rewrite !ret_bind. rewrite orb_true_r.
      cbn [assert]. rewrite ret_bind.
      unfold asPlainMeta. destruct (fields assocMetadata);
        try discriminate.
      rewrite ret_bind. cbn [metadataOf EntryV2Metadata.isDirectory].
      rewrite Hflag. intros Hrun. apply bind_inv_Ok in Hrun.
      destruct Hrun as [directory [Hdir Hrun]]. injection Hrun as <-.
      destruct (newScsArchiveDirectoryV2_inv _ _ _ Hdir) as [Hmeta Htrace].
      split; [cbn; unfold hash, DirectoryEntry_hash; rewrite Hmeta;
              reflexivity |].
      split; [reflexivity |].
      destruct (read_trace_head fd (metadataOf header m)) as [rest Hrest].
      exists rest. rewrite Hmeta, <- Hrest, <- Htrace.
      destruct (newScsArchiveDirectoryV2 fd (metadataOf header m))
        as [tr [d | e]]; [| discriminate Hdir].
      cbn. rewrite app_nil_r. reflexivity.
    + cbn [assert]. rewrite ret_bind.
      destruct ((version assocMetadata =? MetadataType.PLAIN)
                || (version assocMetadata =? MetadataType.DIRECTORY));
        [| discriminate].
      cbn [assert]. rewrite ret_bind.
      unfold asPlainMeta. destruct (fields assocMetadata);
        try discriminate.
      rewrite ret_bind. cbn [metadataOf EntryV2Metadata.isDirectory].
      rewrite Hflag. intros [= <-].
      split; [reflexivity |]. split; [reflexivity |]. split; [reflexivity |].
      split.
      * intros [metadata [imageMetadata Habs]]. discriminate Habs.
      * intros Habs. contradiction.
Qed.

End created_entries.

Section created_entries_properties.
Context `{Natives}.

(** X4. An entry keeps the hash of its header. It is a directory exactly
    when the header has the directory flag and is not a texture object
    (three metadata), and a texture object exactly when the header has
    three metadata. A file entry is made without touching the disk, a
    directory is read when it is made. *)
Theorem createEntryV2_kind (fd : Buffer.t) (header : EntryV2Header.t)
    (metadataMap : gmap Z MetadataEntry)
    (entry : DirectoryEntry + FileEntry) :
  outcome (createEntryV2 fd header metadataMap) = Ok entry ->
  entryHash entry = EntryV2Header.hash header
  /\ ((exists directory, entry = inl directory)
      <-> EntryV2Header.metadataCount header <> 3
          /\ EntryV2Header.isDirectory header = true)
  /\ ((exists metadata imageMetadata,
          entry = inr (ScsArchiveTobjFile metadata imageMetadata))
      <-> EntryV2Header.metadataCount header = 3)
  /\ (trace (createEntryV2 fd header metadataMap) = []
      <-> exists file, entry = inr file).
Proof.
  intros Hrun. pose proof (createEntryV2_inv _ _ _ _ Hrun) as [Hhash Hkind].
  split; [exact Hhash |].
  assert (Hdir : isDirectoryHeader header = true
                 <-> EntryV2Header.metadataCount header <> 3
                     /\ EntryV2Header.isDirectory header = true).
  { unfold isDirectoryHeader.
    rewrite andb_true_iff, negb_true_iff, Z.eqb_neq. reflexivity. }
  destruct entry as [directory | file].
  - destruct Hkind as [Hheader [rest Htrace]].
    split; [split; [intros _; apply Hdir; exact Hheader | eauto] |].
    split.
    + split.
      * intros [metadata [imageMetadata Habs]]. discriminate Habs.
      * intros Hcount. apply Hdir in Hheader. tauto.
    + rewrite Htrace. split; [discriminate |].
      intros [file Habs]. discriminate Habs.
  - destruct Hkind as [Hheader [Htrace Htobj]].
    split.
    + split.
      * intros [directory Habs]. discriminate Habs.
      * intros Hflag. apply Hdir in Hflag. congruence.
    + split.
      * rewrite <- Htobj. split.
        -- intros [metadata [imageMetadata [= ->]]]. eauto.
        -- intros [metadata [imageMetadata ->]]. eauto.
      * split; [eauto | intros _; exact Htrace].
Qed.

(** X5. [createEntryV2] rejects, before any read: a texture object (three
    metadata) that has the directory flag, with [IllegalArgument]; an
    entry whose first metadata is not in the map, a directory whose
    metadata is not tagged [DIRECTORY], and an entry whose metadata is
    tagged neither [PLAIN] nor [DIRECTORY], with a failed assertion. *)
Theorem createEntryV2_rejects (fd : Buffer.t) (header : EntryV2Header.t)
    (metadataMap : gmap Z MetadataEntry) :
  let count := EntryV2Header.metadataCount header in
  let first := metadataMap !! EntryV2Header.metadataIndex header in
  (count = 3 /\ EntryV2Header.isDirectory header = true)
  \/ (count <> 3 /\ first = None)
  \/ (count <> 3
      /\ exists m, first = Some m
                   /\ version m <> MetadataType.DIRECTORY
                   /\ (EntryV2Header.isDirectory header = true
                       \/ version m <> MetadataType.PLAIN)) ->
  createEntryV2 fd header metadataMap
  = ([], Throw (if count =? 3 then IllegalArgument else AssertionFailed)).
Proof.
  intros count first Hbad. unfold createEntryV2. fold count first.
  destruct Hbad as [[Hcount Hflag] | [[Hcount Hnone] | [Hcount Hm]]].
  - rewrite Hcount. cbn [Z.eqb Pos.eqb]. unfold createTobjEntry.
    fold count. rewrite Hflag, Hcount. reflexivity.
  - apply Z.eqb_neq in Hcount. rewrite Hcount, Hnone. reflexivity.
  - destruct Hm as [m [Hfirst [Hdir Hcase]]].
    apply Z.eqb_neq in Hcount, Hdir. rewrite Hcount, Hfirst.
    cbn [assertExists]. rewrite ret_bind.
    destruct (EntryV2Header.isDirectory header) eqn:Hflag.
    + rewrite Hdir. reflexivity.
    + destruct Hcase as [Habs | Hplain]; [discriminate Habs |].
      apply Z.eqb_neq in Hplain. rewrite Hplain, Hdir. reflexivity.
Qed.

Lemma entryFold_hashes (this : ScsArchiveV2.t)
    (metadataMap : gmap Z MetadataEntry)
    (entryHeaders : list EntryV2Header.t)
    (acc acc' : list DirectoryEntry * list FileEntry) :
  outcome (foldM (ScsArchiveV2.entryStep this metadataMap) acc entryHeaders)
  = Ok acc' ->
  hash <$> acc'.1
  = (hash <$> acc.1)
      ++ (EntryV2Header.hash <$> List.filter isDirectoryHeader entryHeaders)
  /\ hash <$> acc'.2
     = (hash <$> acc.2)
         ++ (EntryV2Header.hash
               <$> List.filter (fun h => negb (isDirectoryHeader h))
                     entryHeaders).
Proof.
  revert acc. induction entryHeaders as [| header hs IH]; intros acc Hrun.
  - injection Hrun as <-. rewrite !app_nil_r. split; reflexivity.
  - cbn [foldM] in Hrun. apply bind_inv_Ok in Hrun.
    destruct Hrun as [acc1 [Hstep Hrest]].
    destruct (IH acc1 Hrest) as [Hd Hf]. rewrite Hd, Hf. clear IH Hd Hf Hrest.
    unfold ScsArchiveV2.entryStep in Hstep.
    apply bind_inv_Ok in Hstep. destruct Hstep as [entry [Hentry Hstep]].
    destruct (createEntryV2_inv _ _ _ _ Hentry) as [Hhash Hkind].
    cbn [List.filter].
    destruct entry as [directory | file]; injection Hstep as <-;
      cbn [fst snd entryHash] in *.
    + destruct Hkind as [-> _]. cbn [negb].
      rewrite fmap_app. cbn. rewrite Hhash, <- app_assoc. split; reflexivity.
    + destruct Hkind as [-> _]. cbn [negb].
      rewrite fmap_app. cbn. rewrite Hhash, <- app_assoc. split; reflexivity.
Qed.

(** X6. A lookup in the stores of an archive: a path finds a file only under
    the hash of its salted key, it finds nothing exactly when no entry
    header that makes a file carries that hash, and the same holds for
    directories. *)
Theorem parseEntries_lookup (this this' : ScsArchiveV2.t) (e : Entries)
    (entryHeaders : list EntryV2Header.t) (p : string) :
  ScsArchiveV2.entries this = None ->
  outcome (ScsArchiveV2.readEntryHeaders this) = Ok entryHeaders ->
  outcome (ScsArchiveV2.parseEntries this) = Ok (e, this') ->
  let key :=
    city64 (saltedKey (FileHeaderV2.salt (ScsArchiveV2.header this)) p) in
  (forall file, get (files e) p = Some file -> hash file = key)
  /\ (get (files e) p = None
      <-> forall header,
            header ∈ entryHeaders -> isDirectoryHeader header = false ->
            EntryV2Header.hash header <> key)
  /\ (forall directory,
        get (directories e) p = Some directory -> hash directory = key)
  /\ (get (directories e) p = None
      <-> forall header,
            header ∈ entryHeaders -> isDirectoryHeader header = true ->
            EntryV2Header.hash header <> key).
Proof.
  intros Hcache Hheaders Hrun key.
  unfold ScsArchiveV2.parseEntries in Hrun.
  apply bind_inv_Ok in Hrun. destruct Hrun as [[] [_ Hrun]].
  rewrite Hcache in Hrun.
  apply bind_inv_Ok in Hrun. destruct Hrun as [hs [Hhs Hrun]].
  rewrite Hheaders in Hhs. injection Hhs as <-.
  apply bind_inv_Ok in Hrun. destruct Hrun as [metadataMap [_ Hrun]].
  apply bind_inv_Ok in Hrun. destruct Hrun as [[dirs fs] [Hfold Hrun]].
  injection Hrun as <- _.
  destruct (entryFold_hashes _ _ _ _ _ Hfold) as [Hdirs Hfiles].
  cbn [fst snd fmap list_fmap app] in Hdirs, Hfiles.
  cbn [files directories get createStore]. fold key.
  rewrite !Map_of_pairs_lookup.
  assert (Hlast : forall V (HV : HasHash V) (vs : list V)
                         (P : EntryV2Header.t -> bool),
             hash <$> vs = EntryV2Header.hash <$> List.filter P entryHeaders ->
             (forall v, last (filter (fun v => hash v = key) vs) = Some v ->
                        hash v = key)
             /\ (last (filter (fun v => hash v = key) vs) = None
                 <-> forall header,
                       header ∈ entryHeaders -> P header = true ->
                       EntryV2Header.hash header <> key)).
  { intros V HV vs P Hvs. split.
    - intros v Hv. apply last_Some in Hv. destruct Hv as [l' Hl'].
      assert (Hin : v ∈ filter (fun v => hash v = key) vs)
        by (rewrite Hl'; apply elem_of_app; right; apply list_elem_of_here).
      apply list_elem_of_filter in Hin. apply Hin.
    - rewrite last_None. split.
      + intros Hnil header Hin HP Hkey.
        assert (Hmem : key ∈ hash <$> vs).
        { rewrite Hvs. apply list_elem_of_fmap. exists header.
          split; [symmetry; exact Hkey |].
          apply list_elem_of_In. apply filter_In. split; [| exact HP].
          apply list_elem_of_In. exact Hin. }
        apply list_elem_of_fmap in Hmem. destruct Hmem as [v [Hv Hvin]].
        assert (Hvf : v ∈ filter (fun v => hash v = key) vs)
          by (apply list_elem_of_filter; split; [symmetry; exact Hv | exact Hvin]).
        rewrite Hnil in Hvf. apply elem_of_nil in Hvf. exact Hvf.
      + intros Hnone.
        destruct (filter (fun v => hash v = key) vs) as [| v l] eqn:Hfil;
          [reflexivity |]. exfalso.
        assert (Hvf : v ∈ filter (fun v => hash v = key) vs)
          by (rewrite Hfil; apply list_elem_of_here).
        apply list_elem_of_filter in Hvf. destruct Hvf as [Hv Hvin].
        assert (Hmem : key ∈ hash <$> vs)
          by (apply list_elem_of_fmap; exists v; auto).
        rewrite Hvs in Hmem. apply list_elem_of_fmap in Hmem.
        destruct Hmem as [header [Hh Hin]].
        apply list_elem_of_In, filter_In in Hin. destruct Hin as [Hin HP].
        apply (Hnone header); [apply list_elem_of_In; exact Hin | exact HP |].
        symmetry. exact Hh. }
  destruct (Hlast FileEntry _ fs _ Hfiles) as [Hf1 Hf2].
  destruct (Hlast DirectoryEntry _ dirs _ Hdirs) as [Hd1 Hd2].
  split; [exact Hf1 |]. split.
  - rewrite Hf2. split; intros Hall header Hin Hk; apply (Hall header Hin).
    + rewrite Hk. reflexivity.
    + apply negb_true_iff in Hk. exact Hk.
  - split; [exact Hd1 | exact Hd2].
Qed.

End created_entries_properties.

(** ** Directory listings *)

Section listings.
Context `{Natives}.

Lemma substring_all (s : string) : String.substring 0 (String.length s) s = s.
Proof. induction s as [| c s IH]; simpl; [| rewrite IH]; reflexivity. Qed.

Lemma length_list_byte_of_string (s : string) :
  length (list_byte_of_string s) = String.length s.
Proof.
  induction s as [| c s IH]; [reflexivity |].
  cbn. f_equal. exact IH.
Qed.

Lemma utf8Decode_wellFormed (bytes : list byte) :
  wellFormedUtf8 bytes -> utf8Decode None bytes = bytes.
Proof.
  induction 1 as [| b rest Hb _ IH
                  | b1 b2 rest H1 H2 _ IH
                  | b1 b2 b3 rest H1 H2 H3 _ IH
                  | b1 b2 b3 rest H1 H2 H3 _ IH
                  | b1 b2 b3 rest H1 H2 H3 _ IH
                  | b1 b2 b3 rest H1 H2 H3 _ IH
                  | b1 b2 b3 b4 rest H1 H2 H3 H4 _ IH
                  | b1 b2 b3 b4 rest H1 H2 H3 H4 _ IH
                  | b1 b2 b3 b4 rest H1 H2 H3 H4 _ IH];
    [reflexivity | ..];
    unfold between in *;
    cbn [utf8Decode]; unfold utf8Start; cbn zeta;
    repeat (match goal with
            | |- context [(?a =? ?b)] =>
                destruct (Z.eqb_spec a b); try lia
            | |- context [(?a <=? ?b)] =>
                destruct (Z.leb_spec a b); try lia
            end;
            cbn [andb utf8Decode bytesNeeded lowerBoundary upperBoundary
                 bytesSeen app]);
    rewrite IH; reflexivity.
Qed.

Lemma toString_wellFormed (s : string) :
  wellFormedUtf8 (list_byte_of_string s) ->
  toString (list_byte_of_string s) = s.
Proof.
  intros Hs. unfold toString. rewrite (utf8Decode_wellFormed _ Hs).
  apply string_of_list_byte_of_string.
Qed.

Lemma readNames_listing (buffer extra : Buffer.t) (children : list Child)
    (pos : nat) (subdirectories files : list string) :
  Forall listable children ->
  drop pos buffer
  = concat ((fun c => list_byte_of_string (childText c)) <$> children)
      ++ extra ->
  readNames buffer pos
    ((fun c => Buffer.byte_of_Z (Z.of_nat (String.length (childText c))))
       <$> children)
    subdirectories files
  = (subdirectories ++ subdirectoryNames children,
     files ++ fileNames children).
Proof.
  intros Hok. revert pos subdirectories files.
  induction Hok as [| c children [Hutf8 [Hlen Hfile]] _ IH];
    intros pos subdirectories files Hdrop.
  - cbn. rewrite !app_nil_r. reflexivity.
  - cbn [fmap list_fmap readNames].
    rewrite u8_byte_of_Z, Z.mod_small by lia. rewrite Nat2Z.id.
    unfold readBuffer, Buffer.subarray.
    replace (pos + String.length (childText c) - pos)%nat
      with (String.length (childText c)) by lia.
    cbn [fmap list_fmap concat] in Hdrop. rewrite <- app_assoc in Hdrop.
    assert (Hname : take (String.length (childText c)) (drop pos buffer)
                    = list_byte_of_string (childText c)).
    { rewrite Hdrop. apply take_app_length'.
      symmetry. apply length_list_byte_of_string. }
    assert (Hnext : drop (pos + String.length (childText c)) buffer
                    = concat ((fun c => list_byte_of_string (childText c))
                                <$> children) ++ extra).
    { rewrite <- drop_drop, Hdrop.
      apply drop_app_length'. symmetry. apply length_list_byte_of_string. }
    rewrite Hname, (toString_wellFormed _ Hutf8).
    destruct c as [name | name]; cbn [childText] in *.
    + assert (Hprefix : String.prefix "/" ("/" +:+ name) = true)
        by (destruct name; reflexivity).
      assert (Hstrip : String.substring 1
                         (String.length ("/" +:+ name) - 1) ("/" +:+ name)
                       = name)
        by (simpl; rewrite Nat.sub_0_r; apply substring_all).
      rewrite Hprefix, Hstrip, (IH _ _ _ Hnext).
      cbn [subdirectoryNames fileNames omap list_omap].
      rewrite <- app_assoc. reflexivity.
    + rewrite Hfile, (IH _ _ _ Hnext).
      cbn [subdirectoryNames fileNames omap list_omap].
      rewrite <- app_assoc. reflexivity.
Qed.

(** X7. A directory whose payload lists its children (whatever follows the
    listing), under names that are well-formed UTF-8, is made with the
    names of the subdirectories, without their leading ["/"], and the
    names of the files, each in the order of the listing. *)
Theorem directory_listing_round_trip (fd : Buffer.t)
    (metadata : EntryV2Metadata.t) (children : list Child)
    (extra : Buffer.t) :
  Forall listable children ->
  Z.of_nat (length children) < 2 ^ 32 ->
  outcome (read fd metadata) = Ok (encodeListing children ++ extra) ->
  outcome (newScsArchiveDirectoryV2 fd metadata)
  = Ok {| ScsArchiveDirectoryV2.metadata := metadata;
          ScsArchiveDirectoryV2.subdirectories := subdirectoryNames children;
          ScsArchiveDirectoryV2.files := fileNames children |}.
Proof.
  intros Hok Hcount Hread. unfold newScsArchiveDirectoryV2.
  rewrite (outcome_bind_Ok _ _ _ Hread).
  set (count := Buffer.to_uintle 4 (Z.of_nat (length children))).
  set (lengths := (fun c => Buffer.byte_of_Z
                              (Z.of_nat (String.length (childText c))))
                    <$> children).
  set (names := concat ((fun c => list_byte_of_string (childText c))
                          <$> children)).
  assert (Hdata : encodeListing children ++ extra
                  = count ++ lengths ++ names ++ extra).
  { unfold encodeListing. fold count lengths names.
    rewrite <- !app_assoc. reflexivity. }
  rewrite Hdata.
  assert (Hc : length count = 4%nat) by apply to_uintle_length.
  assert (Hl : length lengths = length children)
    by (unfold lengths; apply length_fmap).
  assert (Hhead : readBuffer (count ++ lengths ++ names ++ extra) 0 4
                  = (count, 4%nat)).
  { unfold readBuffer, Buffer.subarray. cbn [Nat.add Nat.sub].
    rewrite drop_0, take_app_length' by (symmetry; exact Hc). reflexivity. }
  assert (Hnum : decodeStruct 4 (fun b => Ok (Buffer.uintle b)) count
                 = Ok (Z.of_nat (length children))).
  { unfold decodeStruct. rewrite Hc. cbn [Nat.ltb Nat.leb].
    unfold count. rewrite uintle_to_uintle.
    change (256 ^ Z.of_nat 4) with (2 ^ 32).
    rewrite Z.mod_small by lia. reflexivity. }
  assert (Hlens : readBuffer (count ++ lengths ++ names ++ extra) 4
                    (length children)
                  = (lengths, (4 + length children)%nat)).
  { unfold readBuffer, Buffer.subarray.
    replace (4 + length children - 4)%nat with (length children) by lia.
    rewrite (drop_app_length' count _ 4) by (symmetry; exact Hc).
    rewrite take_app_length' by (symmetry; exact Hl). reflexivity. }
  rewrite Hhead, Hnum.
  change (liftR (Ok (Z.of_nat (length children))))
    with (mret (M := M) (Z.of_nat (length children))).
  rewrite ret_bind, Nat2Z.id, Hlens.
  unfold lengths at 2.
  rewrite (readNames_listing _ extra children _ [] [] Hok).
  - reflexivity.
  - rewrite (app_assoc count lengths).
    apply drop_app_length'. rewrite length_app. lia.
Qed.

End listings.

(** ** The bit fields of the image and sample descriptors *)

Lemma toInt32_small (a : Z) : - 2 ^ 31 <= a < 2 ^ 31 -> toInt32 a = a.
Proof.
  intros Ha. unfold toInt32. rewrite Z.mod_small by lia. lia.
Qed.

Lemma toInt32_range (a : Z) : - 2 ^ 31 <= toInt32 a < 2 ^ 31.
Proof.
  unfold toInt32.
  pose proof (Z.mod_pos_bound (a + 2 ^ 31) (2 ^ 32) ltac:(lia)). lia.
Qed.

Lemma toInt32_mod (a m : Z) :
  0 <= m <= 31 -> toInt32 a mod 2 ^ m = a mod 2 ^ m.
Proof.
  intros Hm. unfold toInt32.
  assert (Hdiv32 : (2 ^ m | 2 ^ 32)).
  { exists (2 ^ (32 - m)). rewrite <- Z.pow_add_r by lia. f_equal. lia. }
  assert (Hdiv31 : (2 ^ m | 2 ^ 31)).
  { exists (2 ^ (31 - m)). rewrite <- Z.pow_add_r by lia. f_equal. lia. }
  assert (Hpos : 0 < 2 ^ m) by (apply Z.pow_pos_nonneg; lia).
  rewrite Zminus_mod, Z.mod_mod_divide by exact Hdiv32.
  rewrite <- Zminus_mod. f_equal. lia.
Qed.

Lemma div_mod_pull (a b c : Z) :
  0 < b -> 0 < c -> (a / b) mod c = (a mod (b * c)) / b.
Proof.
  intros Hb Hc. rewrite Z.rem_mul_r by lia.
  rewrite (Z.mul_comm b), Z.div_add by lia.
  rewrite (Z.div_small (a mod b) b) by (apply Z.mod_pos_bound; lia). lia.
Qed.

(** [a & (2^m - 1)] keeps the low [m] bits of [a], whatever its sign. *)
Lemma js_and_mask (a m : Z) :
  0 <= m <= 31 -> js_and a (2 ^ m - 1) = a mod 2 ^ m.
Proof.
  intros Hm. unfold js_and.
  assert (Hpow : 0 < 2 ^ m <= 2 ^ 31).
  { split; [apply Z.pow_pos_nonneg; lia | apply Z.pow_le_mono_r; lia]. }
  rewrite (toInt32_small (2 ^ m - 1)) by lia.
  replace (2 ^ m - 1) with (Z.ones m) by (rewrite Z.ones_equiv; lia).
  rewrite Z.land_ones by lia. apply toInt32_mod. exact Hm.
Qed.

(** [(n >> k) & (2^m - 1)] is the field of [m] bits at bit [k] of [n],
    also when bit 31 of [n] is set and [n >> k] is negative. *)
Lemma js_bits (n k m : Z) :
  0 <= k -> 0 <= m -> k + m <= 31 ->
  js_and (js_shr n k) (2 ^ m - 1) = (n / 2 ^ k) mod 2 ^ m.
Proof.
  intros Hk Hm Hkm. rewrite js_and_mask by lia. unfold js_shr.
  rewrite (Z.mod_small k 32) by lia. rewrite Z.shiftr_div_pow2 by lia.
  assert (Hpk : 0 < 2 ^ k) by (apply Z.pow_pos_nonneg; lia).
  assert (Hpm : 0 < 2 ^ m) by (apply Z.pow_pos_nonneg; lia).
  rewrite !div_mod_pull by lia.
  rewrite <- !Z.pow_add_r by lia.
  rewrite toInt32_mod by lia. reflexivity.
Qed.

Lemma js_shl_one (e : Z) : 0 <= e <= 30 -> js_shl 1 e = 2 ^ e.
Proof.
  intros He. unfold js_shl. rewrite (toInt32_small 1) by lia.
  rewrite (Z.mod_small e 32) by lia. rewrite Z.shiftl_1_l.
  apply toInt32_small.
  assert (0 < 2 ^ e) by (apply Z.pow_pos_nonneg; lia).
  assert (2 ^ e <= 2 ^ 30) by (apply Z.pow_le_mono_r; lia). lia.
Qed.

(** X8. The fields that [ImageMeta] unpacks from its 32-bit word [n] are the
    bit fields of [n]: 4 bits of mipmap count, 8 of format, 2 of cube flag,
    6 of count, 4 and 4 of alignment exponents. The signed shifts of
    JavaScript do no harm when bit 31 of [n] is set, bits 28 to 31 are
    not looked at, and every field is in range: 1 to 16 mipmaps, a format
    below 256, a count from 1 to 64, alignments that are powers of two up
    to 32768. *)
Theorem toImage_bit_fields (n : Z) :
  let image := ImageMeta.toImage n in
  ImageMeta.mipmapCount image = 1 + n mod 16
  /\ ImageMeta.format image = (n / 2 ^ 4) mod 256
  /\ (ImageMeta.isCube image = true <-> (n / 2 ^ 12) mod 4 <> 0)
  /\ ImageMeta.count image = (n / 2 ^ 14) mod 64 + 1
  /\ ImageMeta.pitchAlignment image = 2 ^ ((n / 2 ^ 20) mod 16)
  /\ ImageMeta.imageAlignment image = 2 ^ ((n / 2 ^ 24) mod 16)
  /\ ImageMeta.toImage (n mod 2 ^ 28) = image
  /\ 1 <= ImageMeta.mipmapCount image <= 16
  /\ 0 <= ImageMeta.format image <= 255
  /\ 1 <= ImageMeta.count image <= 64
  /\ 1 <= ImageMeta.pitchAlignment image <= 32768
  /\ 1 <= ImageMeta.imageAlignment image <= 32768.
Proof.
  assert (Hfields : forall n,
    ImageMeta.toImage n
    = {| ImageMeta.mipmapCount := 1 + n mod 16;
         ImageMeta.format := (n / 2 ^ 4) mod 256;
         ImageMeta.isCube := negb ((n / 2 ^ 12) mod 4 =? 0);
         ImageMeta.count := (n / 2 ^ 14) mod 64 + 1;
         ImageMeta.pitchAlignment := 2 ^ ((n / 2 ^ 20) mod 16);
         ImageMeta.imageAlignment := 2 ^ ((n / 2 ^ 24) mod 16) |}).
  { intros n0. unfold ImageMeta.toImage.
    pose proof (js_and_mask n0 4 ltac:(lia)) as H0.
    pose proof (js_bits n0 4 8 ltac:(lia) ltac:(lia) ltac:(lia)) as H4.
    pose proof (js_bits n0 12 2 ltac:(lia) ltac:(lia) ltac:(lia)) as H12.
    pose proof (js_bits n0 14 6 ltac:(lia) ltac:(lia) ltac:(lia)) as H14.
    pose proof (js_bits n0 20 4 ltac:(lia) ltac:(lia) ltac:(lia)) as H20.
    pose proof (js_bits n0 24 4 ltac:(lia) ltac:(lia) ltac:(lia)) as H24.
    change (2 ^ 4 - 1) with 15 in H0, H20, H24.
    change (2 ^ 8 - 1) with 255 in H4.
    change (2 ^ 2 - 1) with 3 in H12.
    change (2 ^ 6 - 1) with 63 in H14.
    change (2 ^ 4) with 16 in H0, H20, H24 |- *.
    change (2 ^ 8) with 256 in H4. change (2 ^ 2) with 4 in H12.
    change (2 ^ 6) with 64 in H14.
    rewrite H0, H4, H12, H14, H20, H24.
    rewrite !js_shl_one
      by (match goal with
          | |- context [?a mod 16] =>
              pose proof (Z.mod_pos_bound a 16 ltac:(lia)); lia
          end).
    reflexivity. }
  intros image. subst image. rewrite (Hfields (n mod 2 ^ 28)), !Hfields.
  cbn [ImageMeta.mipmapCount ImageMeta.format ImageMeta.isCube ImageMeta.count
       ImageMeta.pitchAlignment ImageMeta.imageAlignment].
  pose proof (Z.mod_pos_bound n 16 ltac:(lia)).
  pose proof (Z.mod_pos_bound (n / 2 ^ 4) 256 ltac:(lia)).
  pose proof (Z.mod_pos_bound (n / 2 ^ 14) 64 ltac:(lia)).
  pose proof (Z.mod_pos_bound (n / 2 ^ 20) 16 ltac:(lia)) as Hp.
  pose proof (Z.mod_pos_bound (n / 2 ^ 24) 16 ltac:(lia)) as Hi.
  assert (Hpow : forall e, 0 <= e < 16 -> 1 <= 2 ^ e <= 32768).
  { intros e He. split.
    - pose proof (Z.pow_pos_nonneg 2 e ltac:(lia) ltac:(lia)). lia.
    - change 32768 with (2 ^ 15). apply Z.pow_le_mono_r; lia. }
  assert (Hlow : forall k m,
             0 <= k -> 0 < m -> k + m <= 28 ->
             ((n mod 2 ^ 28) / 2 ^ k) mod 2 ^ m = (n / 2 ^ k) mod 2 ^ m).
  { intros k m Hk Hm Hkm.
    assert (0 < 2 ^ k) by (apply Z.pow_pos_nonneg; lia).
    assert (0 < 2 ^ m) by (apply Z.pow_pos_nonneg; lia).
    rewrite !div_mod_pull by lia. rewrite <- !Z.pow_add_r by lia.
    rewrite Z.mod_mod_divide; [reflexivity |].
    exists (2 ^ (28 - (k + m))). rewrite <- Z.pow_add_r by lia.
    f_equal. lia. }
  repeat split; try lia; try (apply Hpow; lia).
  pose proof (Hlow 0 4 ltac:(lia) ltac:(lia) ltac:(lia)) as L0.
  pose proof (Hlow 4 8 ltac:(lia) ltac:(lia) ltac:(lia)) as L4.
  pose proof (Hlow 12 2 ltac:(lia) ltac:(lia) ltac:(lia)) as L12.
  pose proof (Hlow 14 6 ltac:(lia) ltac:(lia) ltac:(lia)) as L14.
  pose proof (Hlow 20 4 ltac:(lia) ltac:(lia) ltac:(lia)) as L20.
  pose proof (Hlow 24 4 ltac:(lia) ltac:(lia) ltac:(lia)) as L24.
  change (2 ^ 0) with 1 in L0. rewrite !Z.div_1_r in L0.
  change (2 ^ 4) with 16 in L0, L20, L24.
  change (2 ^ 8) with 256 in L4. change (2 ^ 2) with 4 in L12.
  change (2 ^ 6) with 64 in L14.
  rewrite L0, L4, L12, L14, L20, L24. reflexivity.
Qed.

(** X9. The fields that [SampleMeta] unpacks from its word are the bit fields
    of the word: one bit each for the magnification and minification
    filters, two for the mip filter, three for each addressing mode. *)
Theorem toSample_bit_fields (n : Z) :
  let sample := SampleMeta.toSample n in
  SampleMeta.magFilter sample = n mod 2
  /\ SampleMeta.minFilter sample = (n / 2) mod 2
  /\ SampleMeta.mipFilter sample = (n / 4) mod 4
  /\ SampleMeta.u (SampleMeta.addr sample) = (n / 16) mod 8
  /\ SampleMeta.v (SampleMeta.addr sample) = (n / 128) mod 8
  /\ SampleMeta.w (SampleMeta.addr sample) = (n / 1024) mod 8
  /\ SampleMeta.toSample (n mod 2 ^ 13) = sample.
Proof.
  assert (Hfields : forall n,
    SampleMeta.toSample n
    = {| SampleMeta.magFilter := n mod 2;
         SampleMeta.minFilter := (n / 2) mod 2;
         SampleMeta.mipFilter := (n / 4) mod 4;
         SampleMeta.addr := {| SampleMeta.u := (n / 16) mod 8;
                               SampleMeta.v := (n / 128) mod 8;
                               SampleMeta.w := (n / 1024) mod 8 |} |}).
  { intros n0. unfold SampleMeta.toSample.
    pose proof (js_and_mask n0 1 ltac:(lia)) as H0.
    pose proof (js_bits n0 1 1 ltac:(lia) ltac:(lia) ltac:(lia)) as H1.
    pose proof (js_bits n0 2 2 ltac:(lia) ltac:(lia) ltac:(lia)) as H2.
    pose proof (js_bits n0 4 3 ltac:(lia) ltac:(lia) ltac:(lia)) as H4.
    pose proof (js_bits n0 7 3 ltac:(lia) ltac:(lia) ltac:(lia)) as H7.
    pose proof (js_bits n0 10 3 ltac:(lia) ltac:(lia) ltac:(lia)) as H10.
    change (2 ^ 1 - 1) with 1 in H0, H1.
    change (2 ^ 2 - 1) with 3 in H2.
    change (2 ^ 3 - 1) with 7 in H4, H7, H10.
    change (2 ^ 1) with 2 in H0, H1. change (2 ^ 2) with 4 in H2.
    change (2 ^ 3) with 8 in H4, H7, H10. change (2 ^ 4) with 16 in H4.
    change (2 ^ 7) with 128 in H7. change (2 ^ 10) with 1024 in H10.
    rewrite H0, H1, H2, H4, H7, H10. reflexivity. }
  intros sample. subst sample. rewrite (Hfields (n mod 2 ^ 13)), !Hfields.
  cbn [SampleMeta.magFilter SampleMeta.minFilter SampleMeta.mipFilter
       SampleMeta.addr SampleMeta.u SampleMeta.v SampleMeta.w].
  assert (Hlow : forall k m,
             0 <= k -> 0 < m -> k + m <= 13 ->
             ((n mod 2 ^ 13) / 2 ^ k) mod 2 ^ m = (n / 2 ^ k) mod 2 ^ m).
  { intros k m Hk Hm Hkm.
    assert (0 < 2 ^ k) by (apply Z.pow_pos_nonneg; lia).
    assert (0 < 2 ^ m) by (apply Z.pow_pos_nonneg; lia).
    rewrite !div_mod_pull by lia. rewrite <- !Z.pow_add_r by lia.
    rewrite Z.mod_mod_divide; [reflexivity |].
    exists (2 ^ (13 - (k + m))). rewrite <- Z.pow_add_r by lia.
    f_equal. lia. }
  repeat split.
  pose proof (Hlow 0 1 ltac:(lia) ltac:(lia) ltac:(lia)) as L0.
  pose proof (Hlow 1 1 ltac:(lia) ltac:(lia) ltac:(lia)) as L1.
  pose proof (Hlow 2 2 ltac:(lia) ltac:(lia) ltac:(lia)) as L2.
  pose proof (Hlow 4 3 ltac:(lia) ltac:(lia) ltac:(lia)) as L4.
  pose proof (Hlow 7 3 ltac:(lia) ltac:(lia) ltac:(lia)) as L7.
  pose proof (Hlow 10 3 ltac:(lia) ltac:(lia) ltac:(lia)) as L10.
  change (2 ^ 0) with 1 in L0. rewrite !Z.div_1_r in L0.
  change (2 ^ 1) with 2 in L0, L1. change (2 ^ 2) with 4 in L2.
  change (2 ^ 3) with 8 in L4, L7, L10. change (2 ^ 4) with 16 in L4.
  change (2 ^ 7) with 128 in L7. change (2 ^ 10) with 1024 in L10.
  rewrite L0, L1, L2, L4, L7, L10. reflexivity.
Qed.

(** ** Decoding the descriptors and the entry table *)

Lemma u8_range (b : byte) : 0 <= Buffer.u8 b < 256.
Proof.
  unfold Buffer.u8. pose proof (Byte.to_N_bounded b). lia.
Qed.

Lemma uintle_range (bs : Buffer.t) :
  0 <= Buffer.uintle bs < 256 ^ Z.of_nat (length bs).
Proof.
  induction bs as [| b bs IH].
  - simpl. lia.
  - cbn [Buffer.uintle length]. rewrite Nat2Z.inj_succ, Z.pow_succ_r by lia.
    pose proof (u8_range b). lia.
Qed.

Lemma field_range (buf : Buffer.t) (off w : nat) :
  0 <= Buffer.uintle (Buffer.field buf off w) < 256 ^ Z.of_nat w.
Proof.
  pose proof (uintle_range (Buffer.field buf off w)) as Hr.
  assert (Hlen : (length (Buffer.field buf off w) <= w)%nat).
  { unfold Buffer.field. rewrite length_take. lia. }
  assert (256 ^ Z.of_nat (length (Buffer.field buf off w))
          <= 256 ^ Z.of_nat w) by (apply Z.pow_le_mono_r; lia).
  lia.
Qed.

(** A field that lies within the first [n] bytes is read the same from
    the buffer cut at [n]. *)
Lemma field_take (buf : Buffer.t) (n off w : nat) :
  (off + w <= n)%nat ->
  Buffer.field (take n buf) off w = Buffer.field buf off w.
Proof.
  intros Hn. unfold Buffer.field.
  replace n with (off + (n - off))%nat by lia.
  rewrite <- take_drop_commute, take_take. f_equal. lia.
Qed.

Lemma js_shr_byte (v : Z) : 0 <= v < 256 -> js_shr v 4 = v / 16.
Proof.
  intros Hv. unfold js_shr. rewrite toInt32_small by lia.
  change (4 mod 32) with 4. apply Z.shiftr_div_pow2. lia.
Qed.

Lemma toCompression_cases (n : Z) :
  match toCompression n with
  | Ok c => Compression_tag c = n
  | Throw e => e = UnknownCompression n /\ (n < 0 \/ 4 < n)
  end.
Proof.
  unfold toCompression.
  destruct (n =? 0) eqn:H0; [apply Z.eqb_eq in H0; subst; reflexivity |].
  destruct (n =? 1) eqn:H1; [apply Z.eqb_eq in H1; subst; reflexivity |].
  destruct (n =? 2) eqn:H2; [apply Z.eqb_eq in H2; subst; reflexivity |].
  destruct (n =? 3) eqn:H3; [apply Z.eqb_eq in H3; subst; reflexivity |].
  destruct (n =? 4) eqn:H4; [apply Z.eqb_eq in H4; subst; reflexivity |].
  split; [reflexivity | lia].
Qed.

(** X10. What [PlainMeta] makes of a buffer, in full. It decodes exactly the
    buffers of at least 16 bytes whose fourth byte has a high nibble of at
    most 4; the compression is that nibble (the low nibble is not looked
    at), the two sizes are below 2^24, the offset is a multiple of 16
    below 2^36, and bytes after the sixteenth are not looked at. An
    unknown compression is reported as soon as the fourth byte is there,
    before the buffer is found too short. *)
Theorem PlainMeta_decode_cases (buf : Buffer.t) :
  let nibble := Buffer.uintle (Buffer.field buf 3 1) / 16 in
  match PlainMeta.decode buf with
  | Ok p =>
      (16 <= length buf)%nat
      /\ Compression_tag (PlainMeta.compression p) = nibble
      /\ 0 <= PlainMeta.compressedSize p < 2 ^ 24
      /\ 0 <= PlainMeta.size p < 2 ^ 24
      /\ 0 <= PlainMeta.offset p < 2 ^ 36
      /\ PlainMeta.offset p mod 16 = 0
      /\ PlainMeta.decode (take 16 buf) = Ok p
  | Throw e =>
      ((length buf < 4)%nat /\ e = RangeError)
      \/ ((4 <= length buf)%nat /\ 4 < nibble
          /\ e = UnknownCompression nibble)
      \/ ((4 <= length buf < 16)%nat /\ nibble <= 4 /\ e = RangeError)
  end.
Proof.
  intros nibble.
  assert (Hshr : forall b, js_shr (Buffer.uintle (Buffer.field b 3 1)) 4
                           = Buffer.uintle (Buffer.field b 3 1) / 16).
  { intros b. apply js_shr_byte. exact (field_range b 3 1). }
  assert (Hnibble : 0 <= nibble).
  { pose proof (field_range buf 3 1). subst nibble.
    apply Z.div_pos; lia. }
  unfold PlainMeta.decode. rewrite !Hshr. fold nibble.
  rewrite !(field_take buf 16) by (simpl; lia). fold nibble.
  destruct (length buf <? 4)%nat eqn:H4.
  { apply Nat.ltb_lt in H4. left. split; [exact H4 | reflexivity]. }
  apply Nat.ltb_ge in H4.
  pose proof (toCompression_cases nibble) as Hc.
  destruct (toCompression nibble) as [c | e].
  - change PlainMeta.sizeof with 16%nat.
    destruct (length buf <? 16)%nat eqn:H16.
    + apply Nat.ltb_lt in H16. right. right.
      split; [lia |]. split; [| reflexivity].
      rewrite <- Hc. destruct c; simpl; lia.
    + apply Nat.ltb_ge in H16.
      cbn [PlainMeta.compression PlainMeta.compressedSize PlainMeta.size
           PlainMeta.offset].
      pose proof (field_range buf 0 3) as R0.
      pose proof (field_range buf 4 3) as R4.
      pose proof (field_range buf 12 4) as R12.
      change (256 ^ Z.of_nat 3) with (2 ^ 24) in R0, R4.
      change (256 ^ Z.of_nat 4) with (2 ^ 32) in R12.
      split; [exact H16 |]. split; [exact Hc |].
      split; [exact R0 |]. split; [exact R4 |].
      split; [change (2 ^ 36) with (2 ^ 32 * 16); lia |].
      split; [apply Z.mod_mul; lia |].
      rewrite length_take.
      replace (16 `min` length buf)%nat with 16%nat by lia.
      reflexivity.
  - destruct Hc as [-> Hout]. right. left.
    split; [exact H4 |]. split; [lia | reflexivity].
Qed.

(** X11. The entry table: [decodeArray count] succeeds exactly on the buffers
    of at least [16 * count] bytes and fails with a range error on the
    others; it returns [count] headers, the [i]-th decoded from the 16
    bytes at [16 * i], with a hash below 2^64, a metadata index below 2^32
    and a metadata count below 2^16. *)
Theorem decodeArray_cases (count : nat) (buf : Buffer.t) :
  match EntryV2Header.decodeArray count buf with
  | Ok hs =>
      (16 * count <= length buf)%nat
      /\ length hs = count
      /\ (forall i h,
            hs !! i = Some h ->
            EntryV2Header.decode (Buffer.subarray buf (16 * i) (16 * i + 16))
            = Ok h
            /\ 0 <= EntryV2Header.hash h < 2 ^ 64
            /\ 0 <= EntryV2Header.metadataIndex h < 2 ^ 32
            /\ 0 <= EntryV2Header.metadataCount h < 2 ^ 16)
  | Throw e => e = RangeError /\ (length buf < 16 * count)%nat
  end.
Proof.
  revert buf. induction count as [| count IH]; intros buf.
  - cbn [EntryV2Header.decodeArray]. split; [simpl; lia |].
    split; [reflexivity |]. intros i h Hi. discriminate Hi.
  - cbn [EntryV2Header.decodeArray].
    unfold EntryV2Header.decode at 1, decodeStruct.
    change EntryV2Header.sizeof with 16%nat.
    destruct (length buf <? 16)%nat eqn:H16.
    { apply Nat.ltb_lt in H16. split; [reflexivity | lia]. }
    apply Nat.ltb_ge in H16.
    specialize (IH (drop 16 buf)). rewrite length_drop in IH.
    destruct (EntryV2Header.decodeArray count (drop 16 buf)) as [hs | e].
    + destruct IH as [Hlen [Hcount Hat]].
      split; [lia |]. split; [simpl; rewrite Hcount; reflexivity |].
      intros [| i] h Hi.
      * injection Hi as <-.
        unfold EntryV2Header.decode, decodeStruct, Buffer.subarray.
        change EntryV2Header.sizeof with 16%nat.
        cbn [Nat.mul Nat.add Nat.sub]. rewrite drop_0, length_take.
        replace (16 `min` length buf)%nat with 16%nat by lia.
        cbn [Nat.ltb Nat.leb].
        rewrite !(field_take buf 16) by (simpl; lia).
        split; [reflexivity |].
        cbn [EntryV2Header.hash EntryV2Header.metadataIndex
             EntryV2Header.metadataCount].
        pose proof (field_range buf 0 8) as R0.
        pose proof (field_range buf 8 4) as R8.
        pose proof (field_range buf 12 2) as R12.
        change (256 ^ Z.of_nat 8) with (2 ^ 64) in R0.
        change (256 ^ Z.of_nat 4) with (2 ^ 32) in R8.
        change (256 ^ Z.of_nat 2) with (2 ^ 16) in R12.
        split; [exact R0 |]. split; [exact R8 | exact R12].
      * cbn [lookup list_lookup] in Hi.
        destruct (Hat i h Hi) as [Hdec Hranges].
        split; [| exact Hranges].
        rewrite <- Hdec. f_equal. unfold Buffer.subarray.
        rewrite drop_drop. f_equal; [lia | f_equal; lia].
    + destruct IH as [-> Hlen]. split; [reflexivity | lia].
Qed.

(** ** The failures of [read] *)

(** X12. How [read] ends when it does not decompress. The payload is read in
    one call; when the file ends before the payload does, the assertion
    on the number of bytes read fails and nothing else happens, whatever
    the compression; an uncompressed entry reads as the very slice of the
    file; headerless zlib and zstd are refused, but only after the whole
    payload was read; zlib and tiled deflate make one call of their
    decoder after the read, and no other call: zlib on the payload, tiled
    deflate on the payload without its first 12 bytes and with the
    declared uncompressed size as capacity. *)
Theorem read_cases_by_file_length `{Natives} (fd : Buffer.t)
    (m : EntryV2Metadata.t) :
  let n := Z.to_nat (EntryV2Metadata.compressedSize m) in
  let position := EntryV2Metadata.offset m in
  let slice := take n (drop (Z.to_nat position) fd) in
  ((length fd - Z.to_nat position < n)%nat ->
   read fd m = ([ReadSync position n], Throw AssertionFailed))
  /\ ((n <= length fd - Z.to_nat position)%nat ->
      match EntryV2Metadata.compression m with
      | NONE => read fd m = ([ReadSync position n], Ok slice)
      | ZLIB_HEADERLESS =>
          read fd m = ([ReadSync position n], Throw (UnsupportedCompression 2))
      | ZSTD =>
          read fd m = ([ReadSync position n], Throw (UnsupportedCompression 4))
      | ZLIB =>
          read fd m
          = ([ReadSync position n; Inflate slice],
             match inflateSync slice with
             | Some out => Ok out
             | None => Throw InflateError
             end)
      | GDEFLATE =>
          let u := Z.to_nat (EntryV2Metadata.uncompressedSize m) in
          let result := gdeflate (drop 12 slice) u in
          read fd m
          = ([ReadSync position n; Gdeflate (drop 12 slice) u],
             if result.1 =? 0
             then Ok (Buffer.copy result.2 (Buffer.alloc u) 0)
             else Throw (GdeflateError result.1))
      end).
Proof.
  intros n position slice.
  pose proof (read_eq fd m) as Heq. cbn zeta in Heq.
  fold n position in Heq. fold slice in Heq.
  assert (Hlen : length slice = (n `min` (length fd - Z.to_nat position))%nat).
  { unfold slice. rewrite length_take, length_drop. reflexivity. }
  split.
  - intros Hshort. rewrite Heq.
    replace (length slice =? n)%nat with false
      by (symmetry; apply Nat.eqb_neq; lia).
    reflexivity.
  - intros Hfull. rewrite Heq.
    assert (Hn : length slice = n) by lia.
    rewrite Hn, Nat.eqb_refl.
    rewrite (bytesAt_full fd position n Hn). fold slice.
    destruct (EntryV2Metadata.compression m); reflexivity.
Qed.

(** ** Opening an archive *)

Lemma bytesAt_padded (fd : Buffer.t) (position : Z) (n : nat) :
  bytesAt fd position n
  = take n (drop (Z.to_nat position) fd ++ Buffer.alloc n).
Proof.
  unfold bytesAt, Buffer.copy, Buffer.alloc.
  set (rest := drop (Z.to_nat position) fd).
  rewrite take_0, length_replicate, Nat.sub_0_r, take_take, Nat.min_id.
  cbn [app].
  rewrite take_app, take_replicate, drop_replicate, length_take.
  f_equal. f_equal. lia.
Qed.

Lemma bytesAt_take (fd : Buffer.t) (position : Z) (m n : nat) :
  (m <= n)%nat -> take m (bytesAt fd position n) = bytesAt fd position m.
Proof.
  intros Hmn. rewrite !bytesAt_padded, take_take.
  replace (m `min` n)%nat with m by lia.
  unfold Buffer.alloc. rewrite !take_app, !take_replicate.
  f_equal. f_equal. lia.
Qed.

Lemma u8_inj (a b : byte) : Buffer.u8 a = Buffer.u8 b -> a = b.
Proof.
  unfold Buffer.u8. intros Hab.
  assert (Hn : Byte.to_N a = Byte.to_N b) by lia.
  pose proof (Byte.of_to_N a) as Ha. rewrite Hn, Byte.of_to_N in Ha.
  injection Ha as ->. reflexivity.
Qed.

Lemma uintle_inj (a b : Buffer.t) :
  length a = length b -> Buffer.uintle a = Buffer.uintle b -> a = b.
Proof.
  revert b. induction a as [| x a IH]; intros [| y b] Hlen Heq;
    try discriminate Hlen; [reflexivity |].
  cbn [Buffer.uintle] in Heq.
  pose proof (u8_range x). pose proof (u8_range y).
  assert (Hxy : Buffer.u8 x = Buffer.u8 y) by lia.
  f_equal; [apply u8_inj; exact Hxy |].
  apply IH; [injection Hlen as Hlen; exact Hlen | lia].
Qed.

(** A two-byte field holds the small number [v] exactly when its bytes
    are [v] and 0. *)
Lemma int16le_small (bs : Buffer.t) (v : byte) :
  length bs = 2%nat -> Buffer.u8 v < 2 ^ 15 ->
  int16le bs = Buffer.u8 v <-> bs = [v; x00].
Proof.
  intros Hlen Hv. pose proof (u8_range v) as Hr.
  pose proof (uintle_range bs) as Hbs. rewrite Hlen in Hbs.
  change (256 ^ Z.of_nat 2) with (2 ^ 16) in Hbs.
  split.
  - intros Heq. apply uintle_inj; [exact Hlen |].
    unfold int16le in Heq. cbn [Buffer.uintle].
    change (Buffer.u8 x00) with 0.
    destruct (Buffer.uintle bs <? 2 ^ 15) eqn:Hlt; lia.
  - intros ->. unfold int16le. cbn [Buffer.uintle].
    change (Buffer.u8 x00) with 0.
    destruct (Buffer.u8 v + 256 * (0 + 256 * 0) <? 2 ^ 15) eqn:Hlt; lia.
Qed.

Lemma int16le_range (bs : Buffer.t) :
  (length bs <= 2)%nat -> - 2 ^ 15 <= int16le bs < 2 ^ 15.
Proof.
  intros Hlen. pose proof (uintle_range bs) as Hbs.
  assert (256 ^ Z.of_nat (length bs) <= 256 ^ 2)
    by (apply Z.pow_le_mono_r; lia).
  unfold int16le. destruct (Buffer.uintle bs <? 2 ^ 15) eqn:Hlt; lia.
Qed.

Lemma string4_eq (bs : Buffer.t) (s : string) :
  String.eqb (string4 bs) s = true <-> bs = list_byte_of_string s.
Proof.
  unfold string4. rewrite String.eqb_eq. split.
  - intros <-. symmetry. apply list_byte_of_string_of_list_byte.
  - intros ->. apply string_of_list_byte_of_string.
Qed.

Lemma FileHeaderV2_decode_full (buf : Buffer.t) :
  length buf = 53%nat ->
  exists header,
    FileHeaderV2_decode buf = Ok header
    /\ FileHeaderV2.magic header = string4 (Buffer.field buf 0 4)
    /\ FileHeaderV2.version header = int16le (Buffer.field buf 4 2)
    /\ FileHeaderV2.salt header = int16le (Buffer.field buf 6 2)
    /\ FileHeaderV2.hashMethod header = string4 (Buffer.field buf 8 4)
    /\ FileHeaderV2.entryTableCount header
       = Buffer.uintle (Buffer.field buf 12 4)
    /\ FileHeaderV2.entryTableCompressedSize header
       = Buffer.uintle (Buffer.field buf 16 4)
    /\ FileHeaderV2.metadataTableSize header
       = Buffer.uintle (Buffer.field buf 20 4)
    /\ FileHeaderV2.metadataTableCompressedSize header
       = Buffer.uintle (Buffer.field buf 24 4)
    /\ FileHeaderV2.entryTableOffset header
       = Buffer.uintle (Buffer.field buf 28 8)
    /\ FileHeaderV2.metadataTableOffset header
       = Buffer.uintle (Buffer.field buf 36 8).
Proof.
  intros Hlen. unfold FileHeaderV2_decode, decodeStruct.
  rewrite Hlen. change (53 <? FileHeaderV2_sizeof)%nat with false.
  eexists. split; [reflexivity |]. repeat split.
Qed.

Lemma newScsArchiveV2_eq (file : Buffer.t) :
  newScsArchiveV2 file
  = ([ReadSync 0 53],
     match FileHeaderV2_decode (bytesAt file 0 53) with
     | Ok header => Ok {| ScsArchiveV2.fd := file;
                          ScsArchiveV2.header := header;
                          ScsArchiveV2.entries := None |}
     | Throw e => Throw e
     end).
Proof.
  unfold newScsArchiveV2. rewrite readSync_alloc.
  change FileHeaderV2_sizeof with 53%nat. cbn [mbind M_bind liftR].
  destruct (FileHeaderV2_decode (bytesAt file 0 53)); reflexivity.
Qed.

(** The fields of a buffer of six bytes. *)
Lemma six_bytes (head : Buffer.t) :
  length head = 6%nat ->
  head = Buffer.field head 0 4 ++ Buffer.field head 4 2
  /\ length (Buffer.field head 0 4) = 4%nat
  /\ length (Buffer.field head 4 2) = 2%nat.
Proof.
  intros Hlen.
  destruct head as [| b0 [| b1 [| b2 [| b3 [| b4 [| b5 [| b6 rest]]]]]]];
    try discriminate Hlen.
  repeat split.
Qed.

Lemma newScsArchiveV2_valid (file : Buffer.t) :
  exists header,
    FileHeaderV2_decode (bytesAt file 0 53) = Ok header
    /\ newScsArchiveV2 file
       = ([ReadSync 0 53],
          Ok {| ScsArchiveV2.fd := file;
                ScsArchiveV2.header := header;
                ScsArchiveV2.entries := None |})
    /\ (ScsArchiveV2.isValid {| ScsArchiveV2.fd := file;
                                ScsArchiveV2.header := header;
                                ScsArchiveV2.entries := None |} = true
        <-> bytesAt file 0 6 = [x53; x43; x53; x23; x02; x00]
            /\ Buffer.field (bytesAt file 0 53) 8 4 = [x43; x49; x54; x59]).
Proof.
  rewrite newScsArchiveV2_eq.
  destruct (FileHeaderV2_decode_full (bytesAt file 0 53)
              (bytesAt_length file 0 53))
    as [header [-> [Hmagic [Hversion [_ [Hmethod _]]]]]].
  exists header. split; [reflexivity |]. split; [reflexivity |].
  unfold ScsArchiveV2.isValid. cbn [ScsArchiveV2.header].
  rewrite Hmagic, Hmethod, Hversion, !andb_true_iff, Z.eqb_eq.
  rewrite !string4_eq.
  rewrite <- (bytesAt_take file 0 6 53) by lia.
  set (bytes := bytesAt file 0 53).
  rewrite <- (field_take bytes 6 0 4), <- (field_take bytes 6 4 2)
    by lia.
  destruct (six_bytes (take 6 bytes)) as [Hsplit [H4 H2]].
  { rewrite length_take. unfold bytes. rewrite bytesAt_length. lia. }
  change 2 with (Buffer.u8 x02).
  rewrite (int16le_small _ x02 H2) by reflexivity.
  change (list_byte_of_string "SCS#") with [x53; x43; x53; x23].
  change (list_byte_of_string "CITY") with [x43; x49; x54; x59].
  split.
  - intros [[Hm Hc] Hv]. split; [| exact Hc].
    rewrite Hsplit, Hm, Hv. reflexivity.
  - intros [Hhead Hc]. rewrite Hhead. repeat split. exact Hc.
Qed.

(** X13. The constructor of [ScsArchiveV2] cannot fail: it reads 53 bytes at
    the start of the file in one call, a file that ends early counting as
    padded with zeros, and decodes the header from them. The archive it
    makes has an empty cache, and is valid exactly when the file starts
    with ["SCS#"], version 2, and names the hash method ["CITY"] at byte
    8. The salt is a signed 16-bit number, the count and the sizes are
    below 2^32, the offsets below 2^64. *)
Theorem newScsArchiveV2_header (file : Buffer.t) :
  exists archive,
    newScsArchiveV2 file = ([ReadSync 0 53], Ok archive)
    /\ ScsArchiveV2.fd archive = file
    /\ ScsArchiveV2.entries archive = None
    /\ (ScsArchiveV2.isValid archive = true
        <-> bytesAt file 0 6 = [x53; x43; x53; x23; x02; x00]
            /\ Buffer.field (bytesAt file 0 53) 8 4 = [x43; x49; x54; x59])
    /\ (let header := ScsArchiveV2.header archive in
        - 2 ^ 15 <= FileHeaderV2.salt header < 2 ^ 15
        /\ 0 <= FileHeaderV2.entryTableCount header < 2 ^ 32
        /\ 0 <= FileHeaderV2.entryTableCompressedSize header < 2 ^ 32
        /\ 0 <= FileHeaderV2.metadataTableSize header < 2 ^ 32
        /\ 0 <= FileHeaderV2.metadataTableCompressedSize header < 2 ^ 32
        /\ 0 <= FileHeaderV2.entryTableOffset header < 2 ^ 64
        /\ 0 <= FileHeaderV2.metadataTableOffset header < 2 ^ 64).
Proof.
  destruct (newScsArchiveV2_valid file) as [header [Hdecode [-> Hvalid]]].
  destruct (FileHeaderV2_decode_full (bytesAt file 0 53)
              (bytesAt_length file 0 53))
    as [header' [Hdecode' [_ [_ [Hsalt [_
         [Hcount [Hecs [Hms [Hmcs [Heo Hmo]]]]]]]]]]].
  rewrite Hdecode in Hdecode'. injection Hdecode' as <-.
  eexists. split; [reflexivity |]. split; [reflexivity |].
  split; [reflexivity |]. split; [exact Hvalid |].
  cbn [ScsArchiveV2.header].
  rewrite Hsalt, Hcount, Hecs, Hms, Hmcs, Heo, Hmo.
  pose proof (field_range (bytesAt file 0 53) 12 4) as R12.
  pose proof (field_range (bytesAt file 0 53) 16 4) as R16.
  pose proof (field_range (bytesAt file 0 53) 20 4) as R20.
  pose proof (field_range (bytesAt file 0 53) 24 4) as R24.
  pose proof (field_range (bytesAt file 0 53) 28 8) as R28.
  pose proof (field_range (bytesAt file 0 53) 36 8) as R36.
  change (256 ^ Z.of_nat 4) with (2 ^ 32) in R12, R16, R20, R24.
  change (256 ^ Z.of_nat 8) with (2 ^ 64) in R28, R36.
  split; [| tauto].
  apply int16le_range. unfold Buffer.field. rewrite length_take. lia.
Qed.

Lemma ScsArchive_eq `{Readers} (path : string) (file : Buffer.t) :
  ScsArchive path file
  = (let head := bytesAt file 0 6 in
     let magic := string4 (Buffer.field head 0 4) in
     let version := int16le (Buffer.field head 4 2) in
     if String.eqb magic "SCS#" && (version =? 1)
     then (ReadSync 0 6 :: trace (newScsArchiveV1 file path),
           match outcome (newScsArchiveV1 file path) with
           | Ok archive => Ok (OfScsArchiveV1 archive)
           | Throw e => Throw e
           end)
     else if String.eqb magic "SCS#" && (version =? 2)
     then ([ReadSync 0 6; ReadSync 0 53],
           match FileHeaderV2_decode (bytesAt file 0 53) with
           | Ok header =>
               Ok (OfScsArchiveV2 {| ScsArchiveV2.fd := file;
                                     ScsArchiveV2.header := header;
                                     ScsArchiveV2.entries := None |})
           | Throw e => Throw e
           end)
     else (ReadSync 0 6 :: trace (newZipArchive file path),
           match outcome (newZipArchive file path) with
           | Ok archive => Ok (OfZipArchive archive)
           | Throw e => Throw e
           end)).
Proof.
  unfold ScsArchive. rewrite readSync_alloc, newScsArchiveV2_eq.
  change Version.sizeof with 6%nat.
  unfold Version.decode, decodeStruct. cbn [mbind M_bind].
  rewrite bytesAt_length. change (6 <? Version.sizeof)%nat with false.
  cbn [mbind M_bind liftR Version.magic Version.version].
  cbn zeta.
  destruct (String.eqb (string4 (Buffer.field (bytesAt file 0 6) 0 4)) "SCS#"
            && (int16le (Buffer.field (bytesAt file 0 6) 4 2) =? 1)).
  { destruct (newScsArchiveV1 file path) as [t [archive | e]];
      cbn [mbind M_bind mret M_ret trace outcome fst snd app];
      rewrite ?app_nil_r; reflexivity. }
  destruct (String.eqb (string4 (Buffer.field (bytesAt file 0 6) 0 4)) "SCS#"
            && (int16le (Buffer.field (bytesAt file 0 6) 4 2) =? 2)).
  { destruct (FileHeaderV2_decode (bytesAt file 0 53)); reflexivity. }
  destruct (newZipArchive file path) as [t [archive | e]];
      cbn [mbind M_bind mret M_ret trace outcome fst snd app];
      rewrite ?app_nil_r; reflexivity.
Qed.

(** X14. [ScsArchive] chooses the reader from the first six bytes of the
    file, read in one call, a file that ends early counting as padded
    with zeros: the V1 reader for ["SCS#"] and version 1, the V2 reader
    for ["SCS#"] and version 2, the zip reader for anything else, an
    empty file included. The V1 and the zip reader are made by their
    constructors, called with the file and the path after that one read:
    what these read is added to the trace, and [ScsArchive] returns what
    they make and throws what they throw. The V2 reader is made with one
    more read, of the header, and cannot fail; the archive it makes is
    valid exactly when the header names the hash method ["CITY"]. *)
Theorem ScsArchive_dispatch `{Readers} (path : string) (file : Buffer.t) :
  let head := bytesAt file 0 6 in
  let scs (v : byte) := head = [x53; x43; x53; x23; v; x00] in
  let made {A} (constructor : M A) (reader : A -> Archive) :=
    trace (ScsArchive path file) = ReadSync 0 6 :: trace constructor
    /\ outcome (ScsArchive path file)
       = match outcome constructor with
         | Ok archive => Ok (reader archive)
         | Throw e => Throw e
         end in
  (scs x01 /\ made (newScsArchiveV1 file path) OfScsArchiveV1)
  \/ (scs x02
      /\ exists archive,
           ScsArchive path file
           = ([ReadSync 0 6; ReadSync 0 53], Ok (OfScsArchiveV2 archive))
           /\ newScsArchiveV2 file = ([ReadSync 0 53], Ok archive)
           /\ (ScsArchiveV2.isValid archive = true
               <-> Buffer.field (bytesAt file 0 53) 8 4
                   = [x43; x49; x54; x59]))
  \/ (~ scs x01 /\ ~ scs x02
      /\ made (newZipArchive file path) OfZipArchive).
Proof.
  intros head scs made. unfold made. rewrite ScsArchive_eq. cbn zeta.
  fold head.
  pose proof (bytesAt_length file 0 6) as Hlen. fold head in Hlen.
  destruct (six_bytes head Hlen) as [Hsplit [H4 H2]].
  pose proof (string4_eq (Buffer.field head 0 4) "SCS#") as Hmagic.
  change (list_byte_of_string "SCS#") with [x53; x43; x53; x23] in Hmagic.
  pose proof (int16le_small _ x01 H2 ltac:(reflexivity)) as Hv1.
  pose proof (int16le_small _ x02 H2 ltac:(reflexivity)) as Hv2.
  change (Buffer.u8 x01) with 1 in Hv1. change (Buffer.u8 x02) with 2 in Hv2.
  assert (Hscs : forall v,
             scs v <-> Buffer.field head 0 4 = [x53; x43; x53; x23]
                       /\ Buffer.field head 4 2 = [v; x00]).
  { intros v. unfold scs. split.
    - intros Hhead. rewrite Hhead. split; reflexivity.
    - intros [Hm Hv]. rewrite Hsplit, Hm, Hv. reflexivity. }
  destruct (String.eqb (string4 (Buffer.field head 0 4)) "SCS#").
  - pose proof (proj1 Hmagic eq_refl) as Hm.
    destruct (int16le (Buffer.field head 4 2) =? 1) eqn:Hone.
    + apply Z.eqb_eq, Hv1 in Hone. cbn [andb outcome snd trace fst].
      left. split; [apply Hscs; tauto |]. split; reflexivity.
    + apply Z.eqb_neq in Hone. cbn [andb].
      destruct (int16le (Buffer.field head 4 2) =? 2) eqn:Htwo.
      * apply Z.eqb_eq, Hv2 in Htwo.
        destruct (newScsArchiveV2_valid file)
          as [header [Hdecode [Hnew Hvalid]]].
        rewrite Hdecode. right. left.
        split; [apply Hscs; tauto |]. eexists.
        split; [reflexivity |]. split; [exact Hnew |].
        rewrite Hvalid. fold head. split; [tauto |].
        intros Hcity. split; [| exact Hcity].
        apply (Hscs x02). tauto.
      * apply Z.eqb_neq in Htwo. cbn [outcome snd trace fst].
        right. right. split; [| split; [| split; reflexivity]].
        -- intros Habs. apply Hscs in Habs. apply Hone, Hv1. tauto.
        -- intros Habs. apply Hscs in Habs. apply Htwo, Hv2. tauto.
  - cbn [andb outcome snd trace fst].
    assert (Hnot : Buffer.field head 0 4 <> [x53; x43; x53; x23]).
    { intros Habs. apply Hmagic in Habs. discriminate Habs. }
    right. right. split; [| split; [| split; reflexivity]].
    + intros Habs. apply Hscs in Habs. tauto.
    + intros Habs. apply Hscs in Habs. tauto.
Qed.

(** ** What the road-split stage keeps *)

Section split_invariants.
Context `{Geom}.

Lemma referenced_fold (ds : list Divider) (s : list Z) :
  let s' :=
    foldl (fun s d => Set_add (endNodeUid d) (Set_add (startNodeUid d) s))
          s ds in
  (forall uid,
      uid ∈ s' <-> uid ∈ s \/ exists d, d ∈ ds
                               /\ (uid = startNodeUid d \/ uid = endNodeUid d))
  /\ (exists added, s' = s ++ added)
  /\ (NoDup s -> NoDup s').
Proof.
  revert s. induction ds as [| d ds IH]; intros s; cbn [foldl].
  - split; [| split].
    + intros uid. split; [auto |].
      intros [Hin | [d [Hd _]]]; [exact Hin |].
      apply elem_of_nil in Hd. destruct Hd.
    + exists []. rewrite app_nil_r. reflexivity.
    + auto.
  - destruct (IH (Set_add (endNodeUid d) (Set_add (startNodeUid d) s)))
      as [Hmem [[added Hadded] Hnodup]].
    split; [| split].
    + intros uid. rewrite Hmem, !Set_add_elem. split.
      * intros [[[Hin | ->] | ->] | [d' [Hd' Huid]]].
        -- left. exact Hin.
        -- right. exists d. split; [apply list_elem_of_here | auto].
        -- right. exists d. split; [apply list_elem_of_here | auto].
        -- right. exists d'. split; [apply list_elem_of_further, Hd' | auto].
      * intros [Hin | [d' [Hd' Huid]]]; [auto |].
        apply elem_of_cons in Hd'. destruct Hd' as [-> | Hd'].
        -- destruct Huid as [-> | ->]; auto.
        -- right. exists d'. auto.
    + rewrite Hadded. unfold Set_add.
      destruct (existsb (Z.eqb (startNodeUid d)) s);
        [destruct (existsb (Z.eqb (endNodeUid d)) s)
        | destruct (existsb (Z.eqb (endNodeUid d)) (s ++ [startNodeUid d]))];
        rewrite <- ?app_assoc; eauto.
    + intros Hs. apply Hnodup. apply Set_add_NoDup, Set_add_NoDup. exact Hs.
Qed.

Lemma sectorStep_dividers (nodesByUid : gmap Z Node) (st : SplitState)
    (sector : string * list Item) :
  dividers (sectorStep nodesByUid st sector)
  = dividers st ++ sectorDividersOut sector.2
  /\ referencedNodeUids (sectorStep nodesByUid st sector)
     = foldl (fun s d => Set_add (endNodeUid d) (Set_add (startNodeUid d) s))
             (referencedNodeUids st)
             (dividers st ++ sectorDividersOut sector.2).
Proof.
  unfold sectorStep, sectorDividersOut. rewrite classify_eq.
  destruct (foldl _ (roads st, splitCount st) _) as [roads' n'].
  split; reflexivity.
Qed.

(** The invariant of the loop over the sectors, on the dividers and the
    set of referenced nodes. *)
Lemma splitStage_dividers_inv (nodesByUid : gmap Z Node)
    (sectors : list (string * list Item)) (st : SplitState) :
  let st' := foldl (sectorStep nodesByUid) st sectors in
  dividers st'
  = dividers st ++ concat ((fun s => sectorDividersOut s.2) <$> sectors)
  /\ (exists added, referencedNodeUids st' = referencedNodeUids st ++ added)
  /\ (NoDup (referencedNodeUids st) -> NoDup (referencedNodeUids st'))
  /\ (forall uid,
        uid ∈ referencedNodeUids st'
        <-> uid ∈ referencedNodeUids st
            \/ (sectors <> []
                /\ exists d, d ∈ dividers st'
                             /\ (uid = startNodeUid d \/ uid = endNodeUid d))).
Proof.
  revert st. induction sectors as [| s sectors IH]; intros st; cbn [foldl].
  - cbn zeta. split; [cbn; rewrite app_nil_r; reflexivity |].
    split; [exists []; rewrite app_nil_r; reflexivity |].
    split; [auto |].
    intros uid. split; [auto | intros [Hin | [Habs _]]; [exact Hin |]].
    contradiction.
  - specialize (IH (sectorStep nodesByUid st s)). cbn zeta in IH |- *.
    destruct IH as [Hdiv [[added Hadded] [Hnodup Hmem]]].
    destruct (sectorStep_dividers nodesByUid st s) as [Hd1 Hr1].
    pose proof (referenced_fold (dividers st ++ sectorDividersOut s.2)
                  (referencedNodeUids st)) as Hfold.
    cbn zeta in Hfold. rewrite <- Hr1 in Hfold.
    destruct Hfold as [Hmem1 [[added1 Hadded1] Hnodup1]].
    split; [| split; [| split]].
    + rewrite Hdiv, Hd1. cbn. rewrite <- app_assoc. reflexivity.
    + exists (added1 ++ added). rewrite Hadded, Hadded1, <- app_assoc.
      reflexivity.
    + auto.
    + intros uid. rewrite Hmem, Hmem1. rewrite <- Hd1.
      assert (Hsub : forall d,
                 d ∈ dividers (sectorStep nodesByUid st s) ->
                 d ∈ dividers (foldl (sectorStep nodesByUid)
                                 (sectorStep nodesByUid st s) sectors)).
      { intros d Hd. rewrite Hdiv. apply elem_of_app. left. exact Hd. }
      split.
      * intros [[Hin | [d [Hd Huid]]] | [_ [d [Hd Huid]]]].
        -- left. exact Hin.
        -- right. split; [discriminate |]. exists d. auto.
        -- right. split; [discriminate |]. exists d. auto.
      * intros [Hin | [_ [d [Hd Huid]]]]; [auto |].
        destruct sectors as [| s' sectors'].
        -- left. right. exists d. auto.
        -- right. split; [discriminate |]. exists d. auto.
Qed.

(** X15. The dividers that the stage emits are the buildings of scheme
    ["scheme20"] and the curves of model ["0i03a"] or ["0i03b"] of the
    sectors, in order, and never a terrain, although terrains do flag
    roads. Both end nodes of every emitted divider are in the set of
    referenced nodes when the stage ends; the set only grows, at its end,
    by such end nodes, and keeps its members distinct. *)
Theorem splitStage_dividers_referenced (nodesByUid : gmap Z Node)
    (referenced : list Z) (sectors : list (string * list Item)) :
  let st := splitStage nodesByUid referenced sectors in
  dividers st = concat ((fun s => sectorDividersOut s.2) <$> sectors)
  /\ (forall d,
        d ∈ dividers st
        <-> isTerrain d = false
            /\ exists sector item,
                 sector ∈ sectors /\ item ∈ sector.2 /\ isDividerOf item d)
  /\ (forall d,
        d ∈ dividers st ->
        startNodeUid d ∈ referencedNodeUids st
        /\ endNodeUid d ∈ referencedNodeUids st)
  /\ (forall uid,
        uid ∈ referencedNodeUids st
        <-> uid ∈ referenced
            \/ exists d, d ∈ dividers st
                         /\ (uid = startNodeUid d \/ uid = endNodeUid d))
  /\ (exists added, referencedNodeUids st = referenced ++ added)
  /\ (NoDup referenced -> NoDup (referencedNodeUids st)).
Proof.
  intros st. subst st. unfold splitStage.
  pose proof (splitStage_dividers_inv nodesByUid sectors
                {| referencedNodeUids := referenced; roads := [];
                   dividers := []; splitCount := 0 |}) as Hinv.
  cbn zeta in Hinv. cbn [dividers referencedNodeUids app] in Hinv.
  destruct Hinv as [Hdiv [Hadded [Hnodup Hmem]]].
  assert (Hempty : sectors = [] ->
                   forall d,
                     d ∉ dividers (foldl (sectorStep nodesByUid)
                                     {| referencedNodeUids := referenced;
                                        roads := []; dividers := [];
                                        splitCount := 0 |} sectors)).
  { intros -> d Hd. cbn in Hd. apply elem_of_nil in Hd. exact Hd. }
  assert (Huids : forall uid,
             uid ∈ referencedNodeUids
                     (foldl (sectorStep nodesByUid)
                        {| referencedNodeUids := referenced; roads := [];
                           dividers := []; splitCount := 0 |} sectors)
             <-> uid ∈ referenced
                 \/ exists d,
                      d ∈ dividers
                            (foldl (sectorStep nodesByUid)
                               {| referencedNodeUids := referenced;
                                  roads := []; dividers := [];
                                  splitCount := 0 |} sectors)
                      /\ (uid = startNodeUid d \/ uid = endNodeUid d)).
  { intros uid. rewrite Hmem. split.
    - intros [Hin | [_ Hd]]; auto.
    - intros [Hin | [d [Hd Huid]]]; [auto |].
      right. split; [| exists d; auto].
      intros Hnil. exact (Hempty Hnil d Hd). }
  split; [exact Hdiv |]. split; [| split; [| split; [exact Huids | auto]]].
  - intros d. rewrite Hdiv. rewrite elem_of_concat. split.
    + intros [ds [Hd Hds]]. apply list_elem_of_fmap in Hds.
      destruct Hds as [sector [-> Hsector]].
      unfold sectorDividersOut in Hd.
      apply list_elem_of_filter in Hd. destruct Hd as [Hnt Hd].
      apply list_elem_of_omap in Hd.
      destruct Hd as [item [Hitem Hdiv']].
      apply Is_true_true, negb_true_iff in Hnt. split; [exact Hnt |].
      exists sector, item. split; [exact Hsector |].
      split; [exact Hitem | apply dividerOf_spec; exact Hdiv'].
    + intros [Hnt [sector [item [Hsector [Hitem Hdiv']]]]].
      exists (sectorDividersOut sector.2). split.
      * unfold sectorDividersOut. apply list_elem_of_filter.
        split; [rewrite Hnt; exact I |].
        apply list_elem_of_omap. exists item.
        split; [exact Hitem | apply dividerOf_spec; exact Hdiv'].
      * apply list_elem_of_fmap. exists sector. auto.
  - intros d Hd. split; apply Huids; right; exists d; auto.
Qed.

(** X16. The emitted map data resolves its dividers: every end node of an
    emitted divider that exists at all is among the emitted nodes. *)
Theorem emitted_dividers_have_nodes (nodesByUid : gmap Z Node)
    (referenced elevationNodeUids : list Z)
    (sectors : list (string * list Item))
    (mileageTargets : JsMap MileageTarget) (d : Divider) (node : Node) :
  let mapData :=
    emitMapData nodesByUid referenced elevationNodeUids sectors
      mileageTargets in
  d ∈ mapData_dividers mapData ->
  nodesByUid !! startNodeUid d = Some node
  \/ nodesByUid !! endNodeUid d = Some node ->
  node ∈ mapData_nodes mapData.
Proof.
  intros mapData Hd Hnode. subst mapData. unfold emitMapData in *.
  cbn [mapData_dividers mapData_nodes] in *. unfold splitStage in *.
  pose proof (splitStage_dividers_inv nodesByUid sectors
                {| referencedNodeUids := referenced; roads := [];
                   dividers := []; splitCount := 0 |}) as Hinv.
  cbn zeta in Hinv. destruct Hinv as [_ [_ [_ Hmem]]].
  assert (Hne : sectors <> []).
  { intros ->. cbn in Hd. apply elem_of_nil in Hd. exact Hd. }
  unfold nodesOf. apply list_elem_of_omap.
  destruct Hnode as [Hnode | Hnode].
  - exists (startNodeUid d). split; [| exact Hnode].
    apply Hmem. right. split; [exact Hne |]. exists d. auto.
  - exists (endNodeUid d). split; [| exact Hnode].
    apply Hmem. right. split; [exact Hne |]. exists d. auto.
Qed.

End split_invariants.

Section split_counts.
Context `{Geom}.

Lemma roadStep_count (nodesByUid : gmap Z Node) (sectorDividers : list Divider)
    (sectorRoads : list Road) (acc : list Road * Z) :
  (foldl (roadStep nodesByUid sectorDividers) acc sectorRoads).2
  = acc.2 + Z.of_nat (length (List.filter (isSplit nodesByUid sectorDividers)
                                sectorRoads)).
Proof.
  revert acc. induction sectorRoads as [| r rs IH]; intros acc.
  - simpl. lia.
  - cbn [foldl List.filter]. rewrite IH. unfold roadStep, isSplit.
    destruct (nodesByUid !! road_startNodeUid r) as [rStart |]; [| lia].
    destruct (nodesByUid !! road_endNodeUid r) as [rEnd |]; [| lia].
    destruct (existsb _ sectorDividers); cbn [snd length]; lia.
Qed.

Lemma roadOut_cases (nodesByUid : gmap Z Node) (sectorDividers : list Divider)
    (r : Road) :
  match roadOut nodesByUid sectorDividers r with
  | Some r' =>
      resolved nodesByUid r = true
      /\ resolved nodesByUid r' = true
      /\ isFlagged r' = isSplit nodesByUid sectorDividers r || isFlagged r
  | None =>
      resolved nodesByUid r = false
      /\ isSplit nodesByUid sectorDividers r = false
  end.
Proof.
  unfold roadOut, resolved, isSplit.
  destruct (nodesByUid !! road_startNodeUid r) as [rStart |] eqn:Hs;
    [| split; reflexivity].
  destruct (nodesByUid !! road_endNodeUid r) as [rEnd |] eqn:He;
    [| split; reflexivity].
  destruct (existsb (splitsRoad nodesByUid rStart rEnd) sectorDividers).
  - cbn [flag road_startNodeUid road_endNodeUid]. rewrite Hs, He.
    repeat split.
  - rewrite Hs, He. repeat split.
Qed.

(** What one sector adds to the roads: as many roads as it has resolved
    road items, all of them resolved, and at least as many flagged roads
    as roads that a divider splits, exactly as many when no road item is
    flagged already. *)
Lemma roadOut_counts (nodesByUid : gmap Z Node) (sectorDividers : list Divider)
    (sectorRoads : list Road) :
  let out := omap (roadOut nodesByUid sectorDividers) sectorRoads in
  let split :=
    length (List.filter (isSplit nodesByUid sectorDividers) sectorRoads) in
  length out = length (List.filter (resolved nodesByUid) sectorRoads)
  /\ Forall (fun r => resolved nodesByUid r = true) out
  /\ (split <= length (List.filter isFlagged out))%nat
  /\ (Forall (fun r => isFlagged r = false) sectorRoads ->
      split = length (List.filter isFlagged out)).
Proof.
  induction sectorRoads as [| r rs IH]; cbn zeta.
  - cbn. repeat split; auto.
  - cbn zeta in IH. destruct IH as [Hlen [Hres [Hle Heq]]].
    cbn [omap list_omap List.filter].
    pose proof (roadOut_cases nodesByUid sectorDividers r) as Hr.
    destruct (roadOut nodesByUid sectorDividers r) as [r' |].
    + destruct Hr as [-> [Hr' Hflag]].
      cbn [List.filter length]. rewrite Hflag.
      split; [lia |]. split; [constructor; assumption |].
      split.
      * destruct (isSplit nodesByUid sectorDividers r);
          destruct (isFlagged r); cbn [orb length]; lia.
      * intros Hall. inversion Hall as [| ? ? Hunflagged Hrs]; subst.
        rewrite Hunflagged, orb_false_r. specialize (Heq Hrs).
        destruct (isSplit nodesByUid sectorDividers r); cbn [length]; lia.
    + destruct Hr as [-> ->].
      split; [exact Hlen |]. split; [exact Hres |].
      split; [exact Hle |].
      intros Hall. inversion Hall; subst. auto.
Qed.

Lemma sectorStep_count (nodesByUid : gmap Z Node) (st : SplitState)
    (sector : string * list Item) :
  splitCount (sectorStep nodesByUid st sector)
  = splitCount st
    + Z.of_nat (length (List.filter
                          (isSplit nodesByUid (omap dividerOf sector.2))
                          (omap roadOf sector.2))).
Proof.
  unfold sectorStep. rewrite classify_eq.
  pose proof (roadStep_count nodesByUid (omap dividerOf sector.2)
                (omap roadOf sector.2) (roads st, splitCount st)) as Heq.
  destruct (foldl _ (roads st, splitCount st) _) as [roads' n'].
  exact Heq.
Qed.

Lemma splitStage_counts_inv (nodesByUid : gmap Z Node)
    (sectors : list (string * list Item)) (st : SplitState) :
  let st' := foldl (sectorStep nodesByUid) st sectors in
  let flagged s := Z.of_nat (length (List.filter isFlagged (roads s))) in
  length (roads st')
  = (length (roads st)
     + length (List.filter (resolved nodesByUid) (roadItems sectors)))%nat
  /\ (Forall (fun r => resolved nodesByUid r = true) (roads st) ->
      Forall (fun r => resolved nodesByUid r = true) (roads st'))
  /\ 0 <= splitCount st' - splitCount st <= flagged st' - flagged st
  /\ (Forall (fun r => isFlagged r = false) (roadItems sectors) ->
      splitCount st' - splitCount st = flagged st' - flagged st).
Proof.
  revert st. induction sectors as [| s sectors IH]; intros st; cbn [foldl].
  - cbn. repeat split; auto; lia.
  - specialize (IH (sectorStep nodesByUid st s)). cbn zeta in IH |- *.
    destruct IH as [Hlen [Hres [Hle Heq]]].
    rewrite sectorStep_roads, sectorStep_count in *.
    pose proof (roadOut_counts nodesByUid (omap dividerOf s.2)
                  (omap roadOf s.2)) as Hout.
    cbn zeta in Hout. fold (sectorRoadsOut nodesByUid s.2) in Hout.
    destruct Hout as [Hlen1 [Hres1 [Hle1 Heq1]]].
    rewrite List.filter_app, !length_app in *.
    unfold roadItems in *. cbn [fmap list_fmap concat].
    rewrite List.filter_app, length_app.
    split; [lia |]. split; [| split].
    + intros Hst. apply Hres. apply Forall_app. auto.
    + lia.
    + intros Hall. apply Forall_app in Hall. destruct Hall as [Hs Hrest].
      specialize (Heq Hrest). specialize (Heq1 Hs). lia.
Qed.

(** X17. The roads that the stage emits and the count it reports. There is
    one emitted road for each road item whose two end nodes are known,
    and no other; the reported count of split roads is the number of
    roads flagged by the stage, so it is at most the number of emitted
    roads that carry the mark, and equal to it when no road item carried
    the mark on input. *)
Theorem splitStage_counts (nodesByUid : gmap Z Node) (referenced : list Z)
    (sectors : list (string * list Item)) :
  let st := splitStage nodesByUid referenced sectors in
  let flagged := Z.of_nat (length (List.filter isFlagged (roads st))) in
  length (roads st)
  = length (List.filter (resolved nodesByUid) (roadItems sectors))
  /\ Forall (fun r => resolved nodesByUid r = true) (roads st)
  /\ 0 <= splitCount st <= flagged
  /\ (Forall (fun r => isFlagged r = false) (roadItems sectors) ->
      splitCount st = flagged).
Proof.
  intros st flagged. subst st flagged. unfold splitStage.
  pose proof (splitStage_counts_inv nodesByUid sectors
                {| referencedNodeUids := referenced; roads := [];
                   dividers := []; splitCount := 0 |}) as Hinv.
  cbn zeta in Hinv. cbn [roads splitCount List.filter length] in Hinv.
  destruct Hinv as [Hlen [Hres [Hle Heq]]].
  split; [exact Hlen |]. split; [apply Hres; constructor |].
  split; [lia |]. intros Hall. specialize (Heq Hall). lia.
Qed.

End split_counts.

(** ** Running the mileage stage again *)

Lemma augment_idempotent (nodesByUid : gmap Z Node) (target : MileageTarget) :
  augment nodesByUid (augment nodesByUid target) = augment nodesByUid target.
Proof.
  destruct ((truthyNumber (target_x target) && truthyNumber (target_y target))
            || negb (truthyZ (nodeUid target))) eqn:Hguard.
  - assert (Ha : augment nodesByUid target = target)
      by (unfold augment; rewrite Hguard; reflexivity).
    rewrite !Ha. reflexivity.
  - destruct (nodeUid target ≫= (fun uid => nodesByUid !! uid))
      as [node |] eqn:Hnode.
    + assert (Ha : augment nodesByUid target
                   = {| target_x := Some (round2 (x node));
                        target_y := Some (round2 (y node));
                        nodeUid := None;
                        others := others target |})
        by (unfold augment; rewrite Hguard, Hnode; reflexivity).
      rewrite !Ha. unfold augment.
      cbn [target_x target_y nodeUid truthyZ negb].
      rewrite orb_true_r. reflexivity.
    + assert (Ha : augment nodesByUid target = target)
        by (unfold augment; rewrite Hguard, Hnode; reflexivity).
      rewrite !Ha. reflexivity.
Qed.

(** X18. The mileage stage keeps the tokens and their order, and running it a
    second time changes nothing: a target that was given a position has
    lost its node UID, and a target that was left alone is left alone
    again. *)
Theorem mileageStage_idempotent (nodesByUid : gmap Z Node)
    (mileageTargets : JsMap MileageTarget) :
  NoDup mileageTargets.*1 ->
  (mileageStage nodesByUid mileageTargets).*1 = mileageTargets.*1
  /\ mileageStage nodesByUid (mileageStage nodesByUid mileageTargets)
     = mileageStage nodesByUid mileageTargets
  /\ (forall token target,
        (token, target) ∈ mileageStage nodesByUid mileageTargets ->
        nodeUid target = None
        \/ (token, target) ∈ mileageTargets).
Proof.
  intros Hnodup. unfold JsMap in *.
  assert (Hkeys : (mileageStage nodesByUid mileageTargets).*1
                  = mileageTargets.*1).
  { rewrite mileageStage_eq by exact Hnodup.
    rewrite <- list_fmap_compose. apply list_fmap_ext.
    intros i [token target] _. reflexivity. }
  split; [exact Hkeys |]. split.
  - rewrite (mileageStage_eq nodesByUid (mileageStage nodesByUid mileageTargets))
      by (unfold JsMap in *; rewrite Hkeys; exact Hnodup).
    rewrite mileageStage_eq by exact Hnodup.
    rewrite <- list_fmap_compose. apply list_fmap_ext.
    intros i [token target] _. cbn. rewrite augment_idempotent. reflexivity.
  - intros token target. rewrite mileageStage_eq by exact Hnodup.
    intros Hin. apply list_elem_of_fmap in Hin.
    destruct Hin as [[token0 target0] [Heq Hin]]. cbn in Heq.
    injection Heq as -> ->. unfold augment.
    destruct ((truthyNumber (target_x target0) && truthyNumber (target_y target0))
              || negb (truthyZ (nodeUid target0))); [right; exact Hin |].
    destruct (nodeUid target0 ≫= _); [left; reflexivity | right; exact Hin].
Qed.

(** ** Localized names and token lists *)

Lemma removeAts_no_at (s : string) (before after : string) :
  removeAts s
  <> before +:+ String (Ascii.ascii_of_byte "@"%byte) after.
Proof.
  revert before. induction s as [| c s IH]; intros before; cbn [removeAts].
  - destruct before; discriminate.
  - destruct (Ascii.eqb c (Ascii.ascii_of_byte "@"%byte)) eqn:Hc;
      [apply IH |].
    destruct before as [| b before]; cbn.
    + intros [= -> _]. rewrite Ascii.eqb_refl in Hc. discriminate Hc.
    + intros [= _ Habs]. exact (IH before Habs).
Qed.

Lemma removeAts_filter (s : string) :
  list_ascii_of_string (removeAts s)
  = List.filter
      (fun c => negb (Ascii.eqb c (Ascii.ascii_of_byte "@"%byte)))
      (list_ascii_of_string s).
Proof.
  induction s as [| c s IH]; [reflexivity |].
  cbn [removeAts list_ascii_of_string List.filter].
  destruct (Ascii.eqb c _); cbn [negb list_ascii_of_string];
    [exact IH | f_equal; exact IH].
Qed.

(** X19. [createWithLocalizedName] drops [nameLocalized] and keeps the other
    properties. The name it returns is decided by the table: with a
    localized name that is not empty, it is the table's entry for that
    name without its ["@"] characters when there is one, and the old name
    when there is none; with an empty or absent localized name it is the
    old name. The key looked up is the localized name with exactly its
    ["@"] characters removed, the others kept in order. Applying the
    function twice is applying it once, and an entry of the table whose
    key has an ["@"] is never used. *)
Theorem createWithLocalizedName_cases (l10n : gmap string string)
    (o : Named.t) :
  let o' := createWithLocalizedName l10n o in
  Named.nameLocalized o' = None
  /\ Named.rest o' = Named.rest o
  /\ (forall key value,
        Named.nameLocalized o = Some key ->
        key <> EmptyString ->
        l10n !! removeAts key = Some value ->
        Named.name o' = value)
  /\ (forall key,
        Named.nameLocalized o = Some key ->
        l10n !! removeAts key = None ->
        Named.name o' = Named.name o)
  /\ (Named.nameLocalized o = Some EmptyString ->
      Named.name o' = Named.name o)
  /\ (Named.nameLocalized o = None -> Named.name o' = Named.name o)
  /\ (forall key,
        list_ascii_of_string (removeAts key)
        = List.filter
            (fun c => negb (Ascii.eqb c (Ascii.ascii_of_byte "@"%byte)))
            (list_ascii_of_string key))
  /\ createWithLocalizedName l10n o' = o'
  /\ (forall before after value,
        createWithLocalizedName
          (<[before +:+ String (Ascii.ascii_of_byte "@"%byte) after := value]>
             l10n) o
        = o').
Proof.
  cbn zeta. split; [reflexivity |]. split; [reflexivity |].
  unfold createWithLocalizedName. cbn [Named.name Named.nameLocalized].
  repeat split.
  - intros key value -> Hkey Hvalue.
    destruct key as [| c s]; [contradiction |]. rewrite Hvalue. reflexivity.
  - intros key -> Hnone.
    destruct key as [| c s]; [reflexivity |]. rewrite Hnone. reflexivity.
  - intros ->. reflexivity.
  - intros ->. reflexivity.
  - exact removeAts_filter.
  - intros before after value.
    destruct (Named.nameLocalized o) as [[| c s] |]; try reflexivity.
    rewrite lookup_insert_ne; [reflexivity |].
    intros Heq. symmetry in Heq. exact (removeAts_no_at _ _ _ Heq).
Qed.

(** X20. In a list made by [valuesWithTokens] there is one object for each
    entry of the map, in order, with the properties of the value; its
    [token] is the token that the value carries, and the key of the entry
    only when the value carries none. *)
Theorem valuesWithTokens_token (map : JsMap JsObject) :
  length (valuesWithTokens map) = length map
  /\ (forall i token v,
        map !! i = Some (token, v) ->
        exists o,
          valuesWithTokens map !! i = Some o
          /\ o !! "token" = Some (default (JsString token) (v !! "token"))
          /\ (forall k, k <> "token" -> o !! k = v !! k)).
Proof.
  unfold valuesWithTokens, JsMap, JsObject in *.
  split; [apply length_fmap |].
  intros i token v Hi. rewrite list_lookup_fmap, Hi. cbn.
  eexists. split; [reflexivity |]. split.
  - rewrite lookup_union.
    destruct (v !! "token") as [t |]; cbn.
    + rewrite lookup_singleton_eq. reflexivity.
    + rewrite lookup_singleton_eq. reflexivity.
  - intros k Hk. rewrite lookup_union, lookup_singleton_ne by congruence.
    destruct (v !! k); reflexivity.
Qed.

(** ** The city stage *)

Lemma Map_set_fresh {V} (key : string) (v : V) (m : JsMap V) :
  key ∉ m.*1 -> Map_set key v m = m ++ [(key, v)].
Proof.
  induction m as [| [k w] m IH]; intros Hfresh; [reflexivity |].
  cbn [fmap list_fmap fst] in Hfresh.
  apply not_elem_of_cons in Hfresh. destruct Hfresh as [Hne Hfresh].
  cbn [Map_set app].
  destruct (String.eqb k key) eqn:Heq.
  - apply String.eqb_eq in Heq. congruence.
  - rewrite IH by exact Hfresh. reflexivity.
Qed.

Lemma cityStep_eq (cityAreas : gmap string (list CityArea))
    (cities : JsMap City) (warnings : list CityWarning)
    (token partialCity : string) :
  token ∉ cities.*1 ->
  cityStep cityAreas (cities, warnings) (token, partialCity)
  = (cities ++ (cityOf cityAreas (token, partialCity)).1,
     warnings ++ (cityOf cityAreas (token, partialCity)).2)
  /\ (forall k, k ∈ (cityOf cityAreas (token, partialCity)).1.*1 -> k = token).
Proof.
  intros Hfresh. unfold cityOf, cityStep. cbn [fst snd].
  destruct (cityAreas !! token) as [areas0 |].
  - destruct (List.find (fun a => negb (hidden a)) areas0) as [nonHidden |].
    + cbn [fst snd Map_set app]. rewrite Map_set_fresh by exact Hfresh.
      rewrite app_nil_r. split; [reflexivity |].
      intros k Hk. cbn in Hk. apply list_elem_of_singleton in Hk. exact Hk.
    + cbn [fst snd app]. rewrite app_nil_r. split; [reflexivity |].
      intros k Hk. apply elem_of_nil in Hk. destruct Hk.
  - cbn [fst snd app]. rewrite app_nil_r. split; [reflexivity |].
    intros k Hk. apply elem_of_nil in Hk. destruct Hk.
Qed.

Lemma cityStage_eq (cityAreas : gmap string (list CityArea))
    (defCities : JsMap string) :
  NoDup defCities.*1 ->
  cityStage cityAreas defCities
  = (concat ((fun e => (cityOf cityAreas e).1) <$> defCities),
     concat ((fun e => (cityOf cityAreas e).2) <$> defCities)).
Proof.
  intros Hnodup. unfold cityStage.
  enough (Hgen : forall (todo : JsMap string) (cities : JsMap City)
                        (warnings : list CityWarning),
             NoDup todo.*1 ->
             (forall k, k ∈ cities.*1 -> k ∉ todo.*1) ->
             foldl (cityStep cityAreas) (cities, warnings) todo
             = (cities ++ concat ((fun e => (cityOf cityAreas e).1) <$> todo),
                warnings
                  ++ concat ((fun e => (cityOf cityAreas e).2) <$> todo))).
  { apply (Hgen defCities [] [] Hnodup).
    intros k Hk. apply elem_of_nil in Hk. destruct Hk. }
  induction todo as [| [token partialCity] todo IH];
    intros cities warnings Hnd Hfresh.
  - cbn. rewrite !app_nil_r. reflexivity.
  - cbn [fmap list_fmap fst] in Hnd. apply NoDup_cons in Hnd.
    destruct Hnd as [Hhead Hnd].
    assert (Htoken : token ∉ cities.*1).
    { intros Hin. apply (Hfresh token Hin). cbn. apply list_elem_of_here. }
    destruct (cityStep_eq cityAreas cities warnings token partialCity Htoken)
      as [Hstep Hkeys].
    cbn [foldl fmap list_fmap concat]. rewrite Hstep, IH.
    + rewrite <- !app_assoc. reflexivity.
    + exact Hnd.
    + intros k Hk. rewrite fmap_app in Hk. apply elem_of_app in Hk.
      destruct Hk as [Hk | Hk].
      * intros Hin. apply (Hfresh k Hk). cbn.
        apply list_elem_of_further. exact Hin.
      * apply Hkeys in Hk. subst k. exact Hhead.
Qed.

Lemma find_first {A} (f : A -> bool) (l : list A) :
  match List.find f l with
  | Some a =>
      exists before after,
        l = before ++ a :: after
        /\ Forall (fun b => f b = false) before /\ f a = true
  | None => Forall (fun b => f b = false) l
  end.
Proof.
  induction l as [| b l IH]; cbn [List.find]; [constructor |].
  destruct (f b) eqn:Hb.
  - exists [], l. split; [reflexivity |]. split; [constructor | exact Hb].
  - destruct (List.find f l) as [a |].
    + destruct IH as [before [after [-> [Hbefore Ha]]]].
      exists (b :: before), after. split; [reflexivity |].
      split; [constructor; assumption | exact Ha].
    + constructor; assumption.
Qed.

(** What one city of the definitions contributes: a city or a warning. *)
Lemma cityOf_cases (cityAreas : gmap string (list CityArea))
    (token partialCity : string) :
  match cityAreas !! token with
  | None =>
      cityOf cityAreas (token, partialCity)
      = ([], [NoMatchingCityArea token])
  | Some areas0 =>
      (Forall (fun a => hidden a = true) areas0
       /\ cityOf cityAreas (token, partialCity)
          = ([], [NoLocationCityArea token]))
      \/ (exists before a after,
            areas0 = before ++ a :: after
            /\ Forall (fun a => hidden a = true) before
            /\ hidden a = false
            /\ cityOf cityAreas (token, partialCity)
               = ([(token, {| partial := partialCity;
                              city_x := area_x a;
                              city_y := area_y a;
                              areas := areas0 |})], []))
  end.
Proof.
  unfold cityOf, cityStep. cbn [fst snd].
  destruct (cityAreas !! token) as [areas0 |]; [| reflexivity].
  pose proof (find_first (fun a => negb (hidden a)) areas0) as Hfind.
  destruct (List.find (fun a => negb (hidden a)) areas0) as [a |].
  - right. destruct Hfind as [before [after [Heq [Hbefore Ha]]]].
    exists before, a, after. split; [exact Heq |].
    split; [| split; [apply negb_true_iff; exact Ha | reflexivity]].
    eapply Forall_impl; [exact Hbefore |].
    intros b Hb. apply negb_false_iff. exact Hb.
  - left. split; [| reflexivity].
    eapply Forall_impl; [exact Hfind |].
    intros b Hb. apply negb_false_iff. exact Hb.
Qed.

Lemma cityOf_keys (cityAreas : gmap string (list CityArea))
    (defCities : JsMap string) :
  (concat ((fun e => (cityOf cityAreas e).1) <$> defCities)).*1
    `sublist_of` defCities.*1
  /\ (length (concat ((fun e => (cityOf cityAreas e).1) <$> defCities))
      + length (concat ((fun e => (cityOf cityAreas e).2) <$> defCities))
      = length defCities)%nat.
Proof.
  induction defCities as [| [token partialCity] defCities [IHs IHl]].
  - split; [constructor | reflexivity].
  - cbn [fmap list_fmap concat fst]. rewrite fmap_app, !length_app.
    pose proof (cityOf_cases cityAreas token partialCity) as Hone.
    destruct (cityAreas !! token) as [areas0 |].
    + destruct Hone as [[_ ->] | [before [a [after [_ [_ [_ ->]]]]]]];
        cbn [fst snd fmap list_fmap app length].
      * split; [apply sublist_cons; exact IHs | lia].
      * split; [apply sublist_skip; exact IHs | lia].
    + rewrite Hone. cbn [fst snd fmap list_fmap app length].
      split; [apply sublist_cons; exact IHs | lia].
Qed.

(** X21. The city stage sorts the cities of the definitions into cities and
    warnings, one of the two for each. A city is emitted exactly when the
    sectors have areas for its token and one of them is not hidden; it is
    placed at the first area that is not hidden and keeps all the areas,
    hidden ones included. A token without areas and a token whose areas
    are all hidden are each warned about, with a warning of their own.
    The emitted cities keep the order and the distinct tokens of the
    definitions. *)
Theorem cityStage_cases (cityAreas : gmap string (list CityArea))
    (defCities : JsMap string) :
  NoDup defCities.*1 ->
  let cities := (cityStage cityAreas defCities).1 in
  let warnings := (cityStage cityAreas defCities).2 in
  (forall token city,
      (token, city) ∈ cities
      <-> exists partialCity before a after,
            (token, partialCity) ∈ defCities
            /\ cityAreas !! token = Some (before ++ a :: after)
            /\ Forall (fun a => hidden a = true) before
            /\ hidden a = false
            /\ city = {| partial := partialCity;
                         city_x := area_x a;
                         city_y := area_y a;
                         areas := before ++ a :: after |})
  /\ (forall token,
        NoMatchingCityArea token ∈ warnings
        <-> token ∈ defCities.*1 /\ cityAreas !! token = None)
  /\ (forall token,
        NoLocationCityArea token ∈ warnings
        <-> token ∈ defCities.*1
            /\ exists areas0,
                 cityAreas !! token = Some areas0
                 /\ Forall (fun a => hidden a = true) areas0)
  /\ (length cities + length warnings = length defCities)%nat
  /\ cities.*1 `sublist_of` defCities.*1
  /\ NoDup cities.*1.
Proof.
  intros Hnodup cities warnings. subst cities warnings.
  rewrite cityStage_eq by exact Hnodup. cbn [fst snd].
  destruct (cityOf_keys cityAreas defCities) as [Hsub Hlen].
  assert (Hhidden : forall before (a : CityArea) after,
             hidden a = false ->
             ~ Forall (fun a => hidden a = true) (before ++ a :: after)).
  { intros before a after Ha Hall. apply Forall_app in Hall.
    destruct Hall as [_ Hall]. inversion Hall; congruence. }
  assert (Hfirst : forall before (a : CityArea) after before' a' after',
             before ++ a :: after = before' ++ a' :: after' ->
             Forall (fun a => hidden a = true) before -> hidden a = false ->
             Forall (fun a => hidden a = true) before' -> hidden a' = false ->
             a = a').
  { induction before as [| b before IHb];
      intros a after before' a' after' Heq Hb Ha Hb' Ha'.
    - destruct before' as [| b' before'].
      + injection Heq as -> _. reflexivity.
      + injection Heq as -> _. inversion Hb'; congruence.
    - destruct before' as [| b' before'].
      + injection Heq as -> _. inversion Hb; congruence.
      + injection Heq as _ Heq. inversion Hb; inversion Hb'; subst.
        eapply IHb; eassumption. }
  split; [| split; [| split; [| split; [exact Hlen |]]]].
  - intros token city. rewrite elem_of_concat. split.
    + intros [l [Hin Hl]]. apply list_elem_of_fmap in Hl.
      destruct Hl as [[token0 partialCity] [-> Hentry]].
      pose proof (cityOf_cases cityAreas token0 partialCity) as Hone.
      destruct (cityAreas !! token0) as [areas0 |] eqn:Hareas.
      * destruct Hone as [[_ Heq] | [before [a [after [-> [Hb [Ha Heq]]]]]]];
          rewrite Heq in Hin; cbn [fst] in Hin;
          [apply elem_of_nil in Hin; destruct Hin |].
        apply list_elem_of_singleton in Hin. injection Hin as -> ->.
        exists partialCity, before, a, after. auto.
      * rewrite Hone in Hin. apply elem_of_nil in Hin. destruct Hin.
    + intros [partialCity [before [a [after [Hentry [Hareas [Hb [Ha ->]]]]]]]].
      exists (cityOf cityAreas (token, partialCity)).1. split.
      * pose proof (cityOf_cases cityAreas token partialCity) as Hone.
        rewrite Hareas in Hone.
        destruct Hone as [[Hall _] | [before' [a' [after' [Heq [Hb' [Ha' ->]]]]]]].
        -- exfalso. exact (Hhidden _ _ _ Ha Hall).
        -- cbn [fst]. apply list_elem_of_singleton.
           rewrite (Hfirst _ _ _ _ _ _ Heq Hb Ha Hb' Ha'). reflexivity.
      * apply list_elem_of_fmap. exists (token, partialCity). auto.
  - intros token. rewrite elem_of_concat. split.
    + intros [l [Hin Hl]]. apply list_elem_of_fmap in Hl.
      destruct Hl as [[token0 partialCity] [-> Hentry]].
      pose proof (cityOf_cases cityAreas token0 partialCity) as Hone.
      destruct (cityAreas !! token0) as [areas0 |] eqn:Hareas.
      * destruct Hone as [[_ Heq] | [before [a [after [_ [_ [_ Heq]]]]]]];
          rewrite Heq in Hin; cbn [snd] in Hin.
        -- apply list_elem_of_singleton in Hin. discriminate Hin.
        -- apply elem_of_nil in Hin. destruct Hin.
      * rewrite Hone in Hin. cbn [snd] in Hin.
        apply list_elem_of_singleton in Hin. injection Hin as ->.
        split; [| exact Hareas].
        apply list_elem_of_fmap. exists (token0, partialCity). auto.
    + intros [Hkey Hareas]. apply list_elem_of_fmap in Hkey.
      destruct Hkey as [[token0 partialCity] [Heq Hentry]].
      cbn in Heq. subst token0.
      exists (cityOf cityAreas (token, partialCity)).2. split.
      * pose proof (cityOf_cases cityAreas token partialCity) as Hone.
        rewrite Hareas in Hone. rewrite Hone. apply list_elem_of_here.
      * apply list_elem_of_fmap. exists (token, partialCity). auto.
  - intros token. rewrite elem_of_concat. split.
    + intros [l [Hin Hl]]. apply list_elem_of_fmap in Hl.
      destruct Hl as [[token0 partialCity] [-> Hentry]].
      pose proof (cityOf_cases cityAreas token0 partialCity) as Hone.
      destruct (cityAreas !! token0) as [areas0 |] eqn:Hareas.
      * destruct Hone as [[Hall Heq] | [before [a [after [_ [_ [_ Heq]]]]]]];
          rewrite Heq in Hin; cbn [snd] in Hin.
        -- apply list_elem_of_singleton in Hin. injection Hin as ->.
           split; [| eauto].
           apply list_elem_of_fmap. exists (token0, partialCity). auto.
        -- apply elem_of_nil in Hin. destruct Hin.
      * rewrite Hone in Hin. cbn [snd] in Hin.
        apply list_elem_of_singleton in Hin. discriminate Hin.
    + intros [Hkey [areas0 [Hareas Hall]]]. apply list_elem_of_fmap in Hkey.
      destruct Hkey as [[token0 partialCity] [Heq Hentry]].
      cbn in Heq. subst token0.
      exists (cityOf cityAreas (token, partialCity)).2. split.
      * pose proof (cityOf_cases cityAreas token partialCity) as Hone.
        rewrite Hareas in Hone.
        destruct Hone as [[_ ->] | [before [a [after [-> [_ [Ha _]]]]]]].
        -- apply list_elem_of_here.
        -- exfalso. exact (Hhidden _ _ _ Ha Hall).
      * apply list_elem_of_fmap. exists (token, partialCity). auto.
  - split; [exact Hsub |]. eapply sublist_NoDup; eassumption.
Qed.

(** ** Texture objects *)

Lemma elem_of_three {A} (x a b c : A) :
  x ∈ [a; b; c] <-> x = a \/ x = b \/ x = c.
Proof. rewrite !elem_of_cons, elem_of_nil. tauto. Qed.

Lemma findVersion_Some (v : Z) (metas : list MetadataEntry)
    (m : MetadataEntry) :
  findVersion v metas = Some m -> m ∈ metas /\ version m = v.
Proof.
  unfold findVersion. intros Hfind. apply find_some in Hfind.
  destruct Hfind as [Hin Hv]. split; [apply list_elem_of_In; exact Hin |].
  apply Z.eqb_eq. exact Hv.
Qed.

Lemma findVersion_None (v : Z) (metas : list MetadataEntry) :
  findVersion v metas = None -> forall m, m ∈ metas -> version m <> v.
Proof.
  unfold findVersion. intros Hfind m Hin. apply list_elem_of_In in Hin.
  apply Z.eqb_neq. exact (find_none _ _ Hfind m Hin).
Qed.

Lemma wellTyped_image (m : MetadataEntry) :
  wellTyped m -> version m = MetadataType.IMG ->
  exists image, fields m = OfImageMeta image.
Proof.
  unfold wellTyped. intros Hm Hv. rewrite Hv in Hm.
  destruct (fields m) as [image | | | |]; [eauto | | | |];
    try discriminate Hm.
  destruct Hm as [Hm | [Hm | Hm]]; discriminate Hm.
Qed.

Lemma wellTyped_mip_tail (m : MetadataEntry) :
  wellTyped m -> version m = MetadataType.MIP_TAIL ->
  exists plain, fields m = OfPlainMeta plain.
Proof.
  unfold wellTyped. intros Hm Hv. rewrite Hv in Hm.
  destruct (fields m) as [| | | | plain]; [| | | | eauto];
    discriminate Hm.
Qed.

(** X22. A texture object is made from the three metadata slots of its entry,
    in whatever order they come: when one of them is tagged [IMG], one
    [SAMPLE] and one [MIP_TAIL], the entry takes its image from the first
    and the place of its payload from the last; when one of the three
    tags is missing, the assertion fails. Nothing is read. *)
Theorem createTobjEntry_any_order (header : EntryV2Header.t)
    (metadataMap : gmap Z MetadataEntry) (m0 m1 m2 : MetadataEntry) :
  EntryV2Header.isDirectory header = false ->
  EntryV2Header.metadataCount header = 3 ->
  metadataMap !! EntryV2Header.metadataIndex header = Some m0 ->
  metadataMap !! (EntryV2Header.metadataIndex header + 1) = Some m1 ->
  metadataMap !! (EntryV2Header.metadataIndex header + 2) = Some m2 ->
  wellTyped m0 -> wellTyped m1 -> wellTyped m2 ->
  let metas := [m0; m1; m2] in
  let present v := exists m, m ∈ metas /\ version m = v in
  let complete :=
    present MetadataType.IMG /\ present MetadataType.SAMPLE
    /\ present MetadataType.MIP_TAIL in
  (complete ->
   exists image plain,
     {| version := MetadataType.IMG; fields := OfImageMeta image |} ∈ metas
     /\ {| version := MetadataType.MIP_TAIL; fields := OfPlainMeta plain |}
          ∈ metas
     /\ (forall m, m ∈ metas -> version m = MetadataType.IMG ->
                   fields m = OfImageMeta image)
     /\ (forall m, m ∈ metas -> version m = MetadataType.MIP_TAIL ->
                   fields m = OfPlainMeta plain)
     /\ createTobjEntry header metadataMap
        = ([], Ok (ScsArchiveTobjFile (metadataOf header plain) image)))
  /\ (~ complete ->
      createTobjEntry header metadataMap = ([], Throw AssertionFailed)).
Proof.
  intros Hdir Hcount H0 H1 H2 W0 W1 W2 metas present complete.
  assert (Htyped : forall m, m ∈ metas -> wellTyped m).
  { intros m Hm. apply elem_of_three in Hm.
    destruct Hm as [-> | [-> | ->]]; assumption. }
  assert (Hrun : createTobjEntry header metadataMap
                 = (imageEntry ← assertExists
                                   (findVersion MetadataType.IMG metas);
                    imageMeta ← asImageMeta imageEntry;
                    _ ← assertExists (findVersion MetadataType.SAMPLE metas);
                    plainEntry ← assertExists
                                   (findVersion MetadataType.MIP_TAIL metas);
                    plainMeta ← asPlainMeta plainEntry;
                    mret (ScsArchiveTobjFile (metadataOf header plainMeta)
                            imageMeta))).
  { unfold createTobjEntry. rewrite Hdir, Hcount, H0, H1, H2.
    cbn [negb andb Z.eqb Pos.eqb checkArgument assertExists].
    rewrite !ret_bind. reflexivity. }
  rewrite Hrun. clear Hrun.
  split.
  - intros [[mi [Hmi Hvi]] [[ms [Hms Hvs]] [mp [Hmp Hvp]]]].
    assert (Hunique : forall v m m',
               v = MetadataType.IMG \/ v = MetadataType.MIP_TAIL ->
               m ∈ metas -> m' ∈ metas ->
               version m = v -> version m' = v -> m = m').
    { intros v m m' Hv Hm Hm' Hvm Hvm'. unfold metas in *.
      unfold MetadataType.IMG, MetadataType.SAMPLE, MetadataType.MIP_TAIL,
        MetadataType.PLAIN in *.
      change (Z.lor (Z.shiftl 1 7) 4) with 132 in *.
      apply elem_of_three in Hmi, Hms, Hmp, Hm, Hm'.
      destruct Hmi as [-> | [-> | ->]];
        destruct Hms as [-> | [-> | ->]]; try lia;
        destruct Hmp as [-> | [-> | ->]]; try lia;
        destruct Hm as [-> | [-> | ->]]; try lia;
        destruct Hm' as [-> | [-> | ->]]; try lia; reflexivity. }
    destruct (wellTyped_image mi (Htyped mi Hmi) Hvi) as [image Himage].
    destruct (wellTyped_mip_tail mp (Htyped mp Hmp) Hvp) as [plain Hplain].
    assert (Hfi : findVersion MetadataType.IMG metas = Some mi).
    { destruct (findVersion MetadataType.IMG metas) as [m |] eqn:Hfind.
      - apply findVersion_Some in Hfind. destruct Hfind as [Hm Hv].
        f_equal. apply (Hunique MetadataType.IMG); auto.
      - exfalso. exact (findVersion_None _ _ Hfind mi Hmi Hvi). }
    assert (Hfs : exists m, findVersion MetadataType.SAMPLE metas = Some m).
    { destruct (findVersion MetadataType.SAMPLE metas) as [m |] eqn:Hfind;
        [eauto |].
      exfalso. exact (findVersion_None _ _ Hfind ms Hms Hvs). }
    assert (Hfp : findVersion MetadataType.MIP_TAIL metas = Some mp).
    { destruct (findVersion MetadataType.MIP_TAIL metas) as [m |] eqn:Hfind.
      - apply findVersion_Some in Hfind. destruct Hfind as [Hm Hv].
        f_equal. apply (Hunique MetadataType.MIP_TAIL); auto.
      - exfalso. exact (findVersion_None _ _ Hfind mp Hmp Hvp). }
    destruct Hfs as [ms' Hfs].
    exists image, plain.
    assert (Hmi' : mi = {| version := MetadataType.IMG;
                           fields := OfImageMeta image |})
      by (destruct mi; cbn in *; congruence).
    assert (Hmp' : mp = {| version := MetadataType.MIP_TAIL;
                           fields := OfPlainMeta plain |})
      by (destruct mp; cbn in *; congruence).
    split; [rewrite <- Hmi'; exact Hmi |].
    split; [rewrite <- Hmp'; exact Hmp |].
    split.
    { intros m Hm Hv.
      rewrite (Hunique MetadataType.IMG m mi); auto. }
    split.
    { intros m Hm Hv.
      rewrite (Hunique MetadataType.MIP_TAIL m mp); auto. }
    rewrite Hfi, Hfs, Hfp. cbn [assertExists]. rewrite ret_bind.
    unfold asImageMeta at 1. rewrite Himage. rewrite !ret_bind.
    unfold asPlainMeta. rewrite Hplain. rewrite ret_bind. reflexivity.
  - intros Hincomplete.
    destruct (findVersion MetadataType.IMG metas) as [mi |] eqn:Hfi;
      [| reflexivity].
    apply findVersion_Some in Hfi. destruct Hfi as [Hmi Hvi].
    destruct (wellTyped_image mi (Htyped mi Hmi) Hvi) as [image Himage].
    cbn [assertExists]. rewrite ret_bind.
    unfold asImageMeta at 1. rewrite Himage. rewrite ret_bind.
    destruct (findVersion MetadataType.SAMPLE metas) as [ms |] eqn:Hfs;
      [| reflexivity].
    apply findVersion_Some in Hfs. destruct Hfs as [Hms Hvs].
    cbn [assertExists]. rewrite ret_bind.
    destruct (findVersion MetadataType.MIP_TAIL metas) as [mp |] eqn:Hfp;
      [| reflexivity].
    apply findVersion_Some in Hfp. destruct Hfp as [Hmp Hvp].
    exfalso. apply Hincomplete. unfold complete, present. eauto 10.
Qed.

(** ** Sector files *)

Lemma list_byte_of_string_app (a b : string) :
  list_byte_of_string (a +:+ b)
  = list_byte_of_string a ++ list_byte_of_string b.
Proof.
  induction a as [| c a IH]; [reflexivity |].
  change (list_byte_of_string (String c a +:+ b))
    with (Ascii.byte_of_ascii c :: list_byte_of_string (a +:+ b)).
  rewrite IH. reflexivity.
Qed.

Lemma endsWith_append (a suffix : string) :
  endsWith suffix (a +:+ suffix) = true.
Proof.
  unfold endsWith. rewrite list_byte_of_string_app, length_app.
  rewrite drop_app_length' by lia.
  rewrite string_of_list_byte_of_string. apply String.eqb_refl.
Qed.

(** A text that ends with [".aux"] does not end with [".base"]. *)
Lemma endsWith_base_aux (a : string) :
  endsWith ".base" (a +:+ ".aux") = false.
Proof.
  unfold endsWith. apply String.eqb_neq. intros Heq.
  apply (f_equal list_byte_of_string) in Heq.
  rewrite list_byte_of_string_of_list_byte in Heq.
  set (bytes := list_byte_of_string (a +:+ ".aux")) in *.
  assert (Hlast : last bytes = Some "x"%byte).
  { unfold bytes. rewrite list_byte_of_string_app.
    change (list_byte_of_string ".aux")
      with ([x2e; x61; x75] ++ ["x"%byte]).
    rewrite app_assoc. apply last_snoc. }
  rewrite <- (take_drop (length bytes - length (list_byte_of_string ".base"))
                bytes) in Hlast.
  rewrite Heq in Hlast.
  change (list_byte_of_string ".base")
    with ([x2e; x62; x61; x73] ++ ["e"%byte]) in Hlast.
  rewrite app_assoc, last_snoc in Hlast. discriminate Hlast.
Qed.

Lemma sectorKeyOf_extension (a : string) :
  sectorKeyOf (a +:+ ".base") = a /\ sectorKeyOf (a +:+ ".aux") = a
  /\ isBaseFile (a +:+ ".base") = true /\ isBaseFile (a +:+ ".aux") = true.
Proof.
  unfold sectorKeyOf, isBaseFile.
  rewrite (endsWith_append a ".base"), endsWith_base_aux,
    (endsWith_append a ".aux").
  rewrite !list_byte_of_string_app, !length_app.
  change (length (list_byte_of_string ".base")) with 5%nat.
  change (length (list_byte_of_string ".aux")) with 4%nat.
  rewrite !take_app_length' by lia.
  rewrite string_of_list_byte_of_string. repeat split.
Qed.

Lemma isDigit_digitByte (d : Z) :
  (0 <= d <= 9)%Z ->
  isDigit (digitByte d) = true /\ (Buffer.u8 (digitByte d) - 48 = d)%Z.
Proof.
  intros Hd. unfold isDigit, digitByte. rewrite u8_byte_of_Z.
  rewrite Z.mod_small by lia. split; [| lia].
  apply andb_true_iff. split; apply Z.leb_le; lia.
Qed.

Lemma isDigit_value (b : byte) :
  isDigit b = true -> (0 <= Buffer.u8 b - 48 <= 9)%Z.
Proof.
  unfold isDigit. intros Hb. apply andb_true_iff in Hb.
  destruct Hb as [Hlo Hhi]. apply Z.leb_le in Hlo, Hhi. lia.
Qed.

Lemma isSign_cases (b : byte) :
  isSign b = true -> b = "+"%byte \/ b = "-"%byte.
Proof.
  unfold isSign. intros Hb. apply orb_true_iff in Hb.
  destruct Hb as [Hb | Hb]; apply byte_dec_bl in Hb; auto.
Qed.

(** The value of a group of the sector pattern. *)
Lemma parseFloat_group (s a1 a2 a3 a4 : byte) :
  isSign s = true -> isDigit a1 = true -> isDigit a2 = true ->
  isDigit a3 = true -> isDigit a4 = true ->
  exists n,
    parseFloat [s; a1; a2; a3; a4] = Some n /\ (- 9999 <= n <= 9999)%Z.
Proof.
  intros Hs H1 H2 H3 H4.
  pose proof (isDigit_value a1 H1). pose proof (isDigit_value a2 H2).
  pose proof (isDigit_value a3 H3). pose proof (isDigit_value a4 H4).
  apply isSign_cases in Hs.
  destruct Hs as [-> | ->]; unfold parseFloat;
    change (Byte.eqb "+"%byte "-"%byte) with false;
    change (Byte.eqb "+"%byte "+"%byte) with true;
    change (Byte.eqb "-"%byte "-"%byte) with true;
    cbn iota; rewrite H1; cbn [digitsValue]; rewrite H1, H2, H3, H4;
    eexists; (split; [reflexivity | lia]).
Qed.

Lemma parseFloat_signed4 (n : Z) :
  (- 9999 <= n <= 9999)%Z -> parseFloat (signed4 n) = Some n.
Proof.
  intros Hn. unfold signed4.
  assert (Ha : (0 <= Z.abs n <= 9999)%Z) by lia.
  set (a := Z.abs n) in *.
  destruct (isDigit_digitByte (a / 1000)%Z) as [D1 V1];
    [Z.div_mod_to_equations; lia |].
  destruct (isDigit_digitByte ((a / 100) mod 10)%Z) as [D2 V2];
    [Z.div_mod_to_equations; lia |].
  destruct (isDigit_digitByte ((a / 10) mod 10)%Z) as [D3 V3];
    [Z.div_mod_to_equations; lia |].
  destruct (isDigit_digitByte (a mod 10)%Z) as [D4 V4];
    [Z.div_mod_to_equations; lia |].
  assert (Hvalue : (10 * (10 * (10 * (10 * 0 + a / 1000) + (a / 100) mod 10)
                          + (a / 10) mod 10) + a mod 10 = a)%Z)
    by (Z.div_mod_to_equations; lia).
  destruct (n <? 0)%Z eqn:Hneg; unfold parseFloat;
    change (Byte.eqb "+"%byte "-"%byte) with false;
    change (Byte.eqb "+"%byte "+"%byte) with true;
    change (Byte.eqb "-"%byte "-"%byte) with true;
    cbn iota; rewrite D1; cbn [digitsValue];
    rewrite D1, D2, D3, D4, V1, V2, V3, V4;
    rewrite Hvalue; f_equal; unfold a.
  - apply Z.ltb_lt in Hneg. lia.
  - apply Z.ltb_ge in Hneg. lia.
Qed.

Lemma sectorRegex_exec_sectorName (x y : Z) :
  (- 9999 <= x <= 9999)%Z -> (- 9999 <= y <= 9999)%Z ->
  sectorRegex_exec (sectorName x y) = Some (signed4 x, signed4 y).
Proof.
  intros Hx Hy. unfold sectorRegex_exec, sectorName.
  rewrite list_byte_of_string_of_list_byte.
  assert (Hdigits : forall n,
             (- 9999 <= n <= 9999)%Z ->
             isDigit (digitByte (Z.abs n / 1000)) = true
             /\ isDigit (digitByte ((Z.abs n / 100) mod 10)) = true
             /\ isDigit (digitByte ((Z.abs n / 10) mod 10)) = true
             /\ isDigit (digitByte (Z.abs n mod 10)) = true
             /\ isSign (if (n <? 0)%Z then "-"%byte else "+"%byte) = true).
  { intros n Hn.
    repeat split;
      try (apply isDigit_digitByte; Z.div_mod_to_equations; lia).
    destruct (n <? 0)%Z; reflexivity. }
  destruct (Hdigits x Hx) as [X1 [X2 [X3 [X4 XS]]]].
  destruct (Hdigits y Hy) as [Y1 [Y2 [Y3 [Y4 YS]]]].
  unfold signed4. cbn [app].
  rewrite X1, X2, X3, X4, XS, Y1, Y2, Y3, Y4, YS. reflexivity.
Qed.

Lemma sectorRegex_exec_Some (sectorKey : string) (groupX groupY : list byte) :
  sectorRegex_exec sectorKey = Some (groupX, groupY) ->
  String.length sectorKey = 13%nat
  /\ exists x y,
       parseFloat groupX = Some x /\ parseFloat groupY = Some y
       /\ (- 9999 <= x <= 9999)%Z /\ (- 9999 <= y <= 9999)%Z.
Proof.
  unfold sectorRegex_exec. intros Hexec.
  assert (Hlen : String.length sectorKey
                 = length (list_byte_of_string sectorKey)).
  { clear. induction sectorKey as [| c s IH]; [reflexivity |].
    cbn [String.length]. rewrite IH. reflexivity. }
  destruct (list_byte_of_string sectorKey)
    as [| s [| e [| c [| s1 [| a1 [| a2 [| a3 [| a4 [| s2 [| b1 [| b2
        [| b3 [| b4 [| extra rest]]]]]]]]]]]]]];
    try discriminate Hexec.
  split; [exact Hlen |].
  destruct (Byte.eqb s "s"%byte && Byte.eqb e "e"%byte && Byte.eqb c "c"%byte
            && isSign s1 && isDigit a1 && isDigit a2 && isDigit a3
            && isDigit a4 && isSign s2 && isDigit b1 && isDigit b2
            && isDigit b3 && isDigit b4) eqn:Hcond; [| discriminate Hexec].
  injection Hexec as <- <-.
  repeat (apply andb_true_iff in Hcond;
          let H := fresh "Hc" in destruct Hcond as [Hcond H]).
  destruct (parseFloat_group s1 a1 a2 a3 a4) as [x [Hx Hrx]]; try assumption.
  destruct (parseFloat_group s2 b1 b2 b3 b4) as [y [Hy Hry]]; try assumption.
  exists x, y. auto.
Qed.

(** X23. Sector files and their coordinates. The file of the sector at
    [(x, y)], named ["sec"], a sign and four digits for [x], a sign and
    four digits for [y], and [".base"] or [".aux"], is read back as that
    sector under the key without the extension. A file name that passes
    the sector pattern always gives two coordinates between -9999 and
    9999 under a key of 13 characters: the check for coordinates that are
    not numbers never fires. *)
Theorem sectorOf_round_trip (f : string) :
  (forall x y,
      (- 9999 <= x <= 9999)%Z -> (- 9999 <= y <= 9999)%Z ->
      sectorOf (sectorName x y +:+ ".base")
      = SectorAt (sectorName x y) x y
      /\ sectorOf (sectorName x y +:+ ".aux")
         = SectorAt (sectorName x y) x y
      /\ isBaseFile (sectorName x y +:+ ".base") = true
      /\ isBaseFile (sectorName x y +:+ ".aux") = true)
  /\ sectorOf f <> CouldNotParse
  /\ (forall sectorKey x y,
        sectorOf f = SectorAt sectorKey x y ->
        sectorKey = sectorKeyOf f
        /\ String.length sectorKey = 13%nat
        /\ (- 9999 <= x <= 9999)%Z /\ (- 9999 <= y <= 9999)%Z)
  /\ (forall sectorKey,
        sectorOf f = UnexpectedSectorKey sectorKey ->
        sectorKey = sectorKeyOf f /\ sectorRegex_exec sectorKey = None).
Proof.
  split; [| split; [| split]].
  - intros x y Hx Hy.
    destruct (sectorKeyOf_extension (sectorName x y))
      as [Hbase [Haux [Hb Ha]]].
    unfold sectorOf. rewrite Hbase, Haux.
    rewrite (sectorRegex_exec_sectorName x y Hx Hy).
    rewrite (parseFloat_signed4 x Hx), (parseFloat_signed4 y Hy).
    auto.
  - unfold sectorOf.
    destruct (sectorRegex_exec (sectorKeyOf f)) as [[groupX groupY] |] eqn:He;
      [| discriminate].
    destruct (sectorRegex_exec_Some _ _ _ He) as [_ [x [y [-> [-> _]]]]].
    discriminate.
  - intros sectorKey x y. unfold sectorOf.
    destruct (sectorRegex_exec (sectorKeyOf f)) as [[groupX groupY] |] eqn:He;
      [| discriminate].
    destruct (sectorRegex_exec_Some _ _ _ He)
      as [Hlen [x' [y' [-> [-> [Hx Hy]]]]]].
    intros [= <- <- <-]. auto.
  - intros sectorKey. unfold sectorOf.
    destruct (sectorRegex_exec (sectorKeyOf f)) as [[groupX groupY] |] eqn:He.
    + destruct (parseFloat groupX); [destruct (parseFloat groupY) |];
        discriminate.
    + intros [= <-]. auto.
Qed.

(** ** An archive that ends before its tables *)

Lemma uintle_zeros (n : nat) : Buffer.uintle (replicate n Buffer.zero) = 0.
Proof.
  induction n as [| n IH]; [reflexivity |].
  cbn [replicate Buffer.uintle]. rewrite IH. reflexivity.
Qed.

Lemma field_zeros (n off w : nat) :
  Buffer.uintle (Buffer.field (replicate n Buffer.zero) off w) = 0.
Proof.
  unfold Buffer.field. rewrite drop_replicate, take_replicate.
  apply uintle_zeros.
Qed.

Lemma decodeArray_zeros (count : nat) :
  EntryV2Header.decodeArray count (Buffer.alloc (16 * count))
  = Ok (replicate count zeroHeader).
Proof.
  unfold Buffer.alloc. induction count as [| count IH]; [reflexivity |].
  cbn [EntryV2Header.decodeArray].
  unfold EntryV2Header.decode at 1, decodeStruct.
  rewrite length_replicate. change EntryV2Header.sizeof with 16%nat.
  replace (16 * S count <? 16)%nat with false
    by (symmetry; apply Nat.ltb_ge; lia).
  rewrite !field_zeros, drop_replicate.
  replace (16 * S count - 16)%nat with (16 * count)%nat by lia.
  rewrite IH. reflexivity.
Qed.

Lemma bytesAt_past_end (fd : Buffer.t) (position : Z) (n : nat) :
  (length fd <= Z.to_nat position)%nat ->
  bytesAt fd position n = Buffer.alloc n.
Proof.
  intros Hend. rewrite bytesAt_padded, drop_ge by exact Hend.
  cbn [app]. apply take_ge. rewrite alloc_length. lia.
Qed.

Lemma slots_zeros (count : nat) :
  ScsArchiveV2.slots (replicate count zeroHeader) = [].
Proof.
  unfold ScsArchiveV2.slots. induction count as [| count IH];
    [reflexivity |].
  cbn [replicate]. rewrite fmap_cons. cbn [concat]. rewrite IH.
  reflexivity.
Qed.

(** X24. The tables are read without a check on the number of bytes read, so
    an archive whose file ends before its entry table reads as a table
    of zeros. With uncompressed tables, [parseEntries] then fails on the
    first entry, whose metadata the empty metadata map does not hold:
    the error is a failed assertion, raised after both tables were read,
    and not a read error. *)
Theorem parseEntries_past_end `{Natives} (this : ScsArchiveV2.t) :
  let header := ScsArchiveV2.header this in
  let count := FileHeaderV2.entryTableCount header in
  ScsArchiveV2.isValid this = true ->
  ScsArchiveV2.entries this = None ->
  1 <= count ->
  FileHeaderV2.entryTableCompressedSize header = 16 * count ->
  FileHeaderV2.metadataTableCompressedSize header
  = FileHeaderV2.metadataTableSize header ->
  (length (ScsArchiveV2.fd this)
   <= Z.to_nat (FileHeaderV2.entryTableOffset header))%nat ->
  outcome (ScsArchiveV2.readEntryHeaders this)
  = Ok (replicate (Z.to_nat count) zeroHeader)
  /\ ScsArchiveV2.parseEntries this
     = ([ReadSync (FileHeaderV2.entryTableOffset header)
           (Z.to_nat (16 * count));
         ReadSync (FileHeaderV2.metadataTableOffset header)
           (Z.to_nat (FileHeaderV2.metadataTableSize header))],
        Throw AssertionFailed).
Proof.
  intros header count Hvalid Hcache Hcount Hentry Hmeta Hend.
  assert (Hheaders :
            ScsArchiveV2.readEntryHeaders this
            = ([ReadSync (FileHeaderV2.entryTableOffset header)
                  (Z.to_nat (16 * count))],
               Ok (replicate (Z.to_nat count) zeroHeader))).
  { unfold ScsArchiveV2.readEntryHeaders. fold header. fold count.
    rewrite readData_eq. cbn zeta. rewrite Hentry.
    change (Z.of_nat EntryV2Header.sizeof) with 16.
    destruct (decide (16 * count = 16 * count)) as [_ | Hne];
      [| contradiction].
    rewrite bytesAt_past_end by exact Hend.
    replace (Z.to_nat (16 * count)) with (16 * Z.to_nat count)%nat by lia.
    cbn [mbind M_bind]. rewrite decodeArray_zeros. reflexivity. }
  split; [rewrite Hheaders; reflexivity |].
  assert (Hmap :
            ScsArchiveV2.createMetadataMap this
              (replicate (Z.to_nat count) zeroHeader)
            = ([ReadSync (FileHeaderV2.metadataTableOffset header)
                  (Z.to_nat (FileHeaderV2.metadataTableSize header))],
               Ok ∅)).
  { unfold ScsArchiveV2.createMetadataMap. fold header.
    rewrite readData_eq. cbn zeta. rewrite Hmeta.
    destruct (decide (FileHeaderV2.metadataTableSize header
                      = FileHeaderV2.metadataTableSize header))
      as [_ | Hne]; [| contradiction].
    cbn [mbind M_bind]. rewrite metadataLoop_eq, slots_zeros.
    reflexivity. }
  assert (Hstep : forall acc,
             ScsArchiveV2.entryStep this ∅ acc zeroHeader
             = ([], Throw AssertionFailed)).
  { intros acc. unfold ScsArchiveV2.entryStep, createEntryV2.
    cbn [zeroHeader EntryV2Header.metadataCount EntryV2Header.metadataIndex].
    change (0 =? 3) with false. rewrite lookup_empty. reflexivity. }
  unfold ScsArchiveV2.parseEntries. rewrite Hvalid, Hcache.
  unfold checkState. rewrite ret_bind. fold header.
  rewrite Hheaders. cbn [mbind M_bind]. rewrite Hmap.
  destruct (Z.to_nat count) as [| k] eqn:Hk; [lia |].
  cbn [mbind M_bind replicate foldM]. rewrite Hstep. reflexivity.
Qed.

(** ** Directories that are not well formed *)

Lemma readNames_count (buffer : Buffer.t) (stringLengths : list byte)
    (pos : nat) (subdirectories files : list string) :
  (length (readNames buffer pos stringLengths subdirectories files).1
   + length (readNames buffer pos stringLengths subdirectories files).2
   = length subdirectories + length files + length stringLengths)%nat.
Proof.
  revert pos subdirectories files.
  induction stringLengths as [| stringLength rest IH];
    intros pos subdirectories files; cbn [readNames].
  - cbn. lia.
  - unfold readBuffer.
    destruct (String.prefix "/" _); rewrite IH, length_app; cbn; lia.
Qed.

(** X25. The constructor of a directory fails only when its payload cannot be
    read or has fewer than the four bytes of the count. It reads the
    payload once. On a payload of at least four bytes it always returns
    a directory: the count is not checked against the payload, and the
    directory has as many names as the payload has length bytes for,
    the count at most, the names that the payload is too short for being
    cut or empty. *)
Theorem directory_constructor_total `{Natives} (fd : Buffer.t)
    (metadata : EntryV2Metadata.t) (data : Buffer.t) :
  outcome (read fd metadata) = Ok data ->
  trace (newScsArchiveDirectoryV2 fd metadata) = trace (read fd metadata)
  /\ ((length data < 4)%nat ->
      outcome (newScsArchiveDirectoryV2 fd metadata) = Throw RangeError)
  /\ ((4 <= length data)%nat ->
      exists directory,
        outcome (newScsArchiveDirectoryV2 fd metadata) = Ok directory
        /\ ScsArchiveDirectoryV2.metadata directory = metadata
        /\ (length (ScsArchiveDirectoryV2.subdirectories directory)
            + length (ScsArchiveDirectoryV2.files directory)
            = Z.to_nat (Buffer.uintle (take 4 data))
                `min` (length data - 4))%nat).
Proof.
  intros Hread. unfold newScsArchiveDirectoryV2.
  rewrite (trace_bind_Ok _ _ _ Hread), (outcome_bind_Ok _ _ _ Hread).
  assert (Hhead : readBuffer data 0 4 = (take 4 data, 4%nat)).
  { unfold readBuffer, Buffer.subarray. cbn [Nat.add Nat.sub].
    rewrite drop_0. reflexivity. }
  rewrite Hhead. unfold decodeStruct. rewrite length_take.
  destruct (4 `min` length data <? 4)%nat eqn:Hshort.
  - apply Nat.ltb_lt in Hshort. cbn [liftR mbind M_bind trace outcome fst snd].
    rewrite app_nil_r. split; [reflexivity |].
    split; [reflexivity | lia].
  - apply Nat.ltb_ge in Hshort.
    change (liftR (Ok (Buffer.uintle (take 4 data))))
      with (mret (M := M) (Buffer.uintle (take 4 data))).
    rewrite ret_bind.
    set (numStrings := Z.to_nat (Buffer.uintle (take 4 data))).
    assert (Hlens : readBuffer data 4 numStrings
                    = (take numStrings (drop 4 data), (4 + numStrings)%nat)).
    { unfold readBuffer, Buffer.subarray.
      replace (4 + numStrings - 4)%nat with numStrings by lia.
      reflexivity. }
    rewrite Hlens.
    set (stringLengths := take numStrings (drop 4 data)).
    pose proof (readNames_count data stringLengths (4 + numStrings) [] [])
      as Hcount.
    destruct (readNames data (4 + numStrings) stringLengths [] [])
      as [subdirectories files].
    cbn [mret M_ret trace outcome fst snd] in *. rewrite app_nil_r.
    split; [reflexivity |]. split; [lia |].
    intros _. eexists. split; [reflexivity |]. split; [reflexivity |].
    cbn [ScsArchiveDirectoryV2.subdirectories ScsArchiveDirectoryV2.files].
    rewrite Hcount. unfold stringLengths.
    rewrite length_take, length_drop. cbn. lia.
Qed.

(** ** Where created entries point *)

Lemma PlainMeta_decode_ranges (buf : Buffer.t) (p : PlainMeta.t) :
  PlainMeta.decode buf = Ok p ->
  0 <= PlainMeta.compressedSize p < 2 ^ 24
  /\ 0 <= PlainMeta.size p < 2 ^ 24
  /\ 0 <= PlainMeta.offset p < 2 ^ 36
  /\ PlainMeta.offset p mod 16 = 0.
Proof.
  unfold PlainMeta.decode.
  destruct (length buf <? 4)%nat; [discriminate |].
  destruct (toCompression _) as [c | e]; [| discriminate].
  destruct (length buf <? PlainMeta.sizeof)%nat; [discriminate |].
  intros [= <-].
  cbn [PlainMeta.compressedSize PlainMeta.size PlainMeta.offset].
  pose proof (field_range buf 0 3) as R0.
  pose proof (field_range buf 4 3) as R4.
  pose proof (field_range buf 12 4) as R12.
  change (256 ^ Z.of_nat 3) with (2 ^ 24) in R0, R4.
  change (256 ^ Z.of_nat 4) with (2 ^ 32) in R12.
  split; [exact R0 |]. split; [exact R4 |].
  split; [change (2 ^ 36) with (2 ^ 32 * 16); lia | apply Z.mod_mul; lia].
Qed.

Lemma decodeDescriptor_plain (type : Z) (buf : Buffer.t) (p : PlainMeta.t) :
  ScsArchiveV2.decodeDescriptor type buf = Ok (OfPlainMeta p) ->
  PlainMeta.decode buf = Ok p.
Proof.
  unfold ScsArchiveV2.decodeDescriptor.
  destruct (type =? MetadataType.IMG);
    [destruct (ImageMeta.decode buf); discriminate |].
  destruct (type =? MetadataType.SAMPLE);
    [destruct (SampleMeta.decode buf); discriminate |].
  destruct (type =? MetadataType.PMA_INFO);
    [destruct (PmaInfoMeta.decode buf); discriminate |].
  destruct (type =? MetadataType.PMG_INFO);
    [destruct (PmgInfoMeta.decode buf); discriminate |].
  destruct (PlainMeta.decode buf) as [p' | e]; [| discriminate].
  intros [= ->]. reflexivity.
Qed.

Section created_metadata.
Context `{Natives}.

Lemma assertExists_Ok {A} (o : option A) (a : A) :
  outcome (assertExists o) = Ok a -> o = Some a.
Proof. destruct o; [intros [= ->]; reflexivity | discriminate]. Qed.

Lemma asPlainMeta_Ok (m : MetadataEntry) (p : PlainMeta.t) :
  outcome (asPlainMeta m) = Ok p -> fields m = OfPlainMeta p.
Proof.
  unfold asPlainMeta. destruct (fields m); try discriminate.
  intros [= ->]. reflexivity.
Qed.

(** The metadata of a created entry is made from the header and from a
    plain descriptor that the metadata map holds. *)
Lemma createEntryV2_plain (fd : Buffer.t) (header : EntryV2Header.t)
    (metadataMap : gmap Z MetadataEntry)
    (entry : DirectoryEntry + FileEntry) :
  outcome (createEntryV2 fd header metadataMap) = Ok entry ->
  exists key m plainMeta,
    metadataMap !! key = Some m
    /\ fields m = OfPlainMeta plainMeta
    /\ entryMetadata entry = metadataOf header plainMeta.
Proof.
  unfold createEntryV2.
  destruct (EntryV2Header.metadataCount header =? 3).
  - intros Hrun. apply bind_inv_Ok in Hrun.
    destruct Hrun as [file [Htobj Hrun]]. injection Hrun as <-.
    unfold createTobjEntry in Htobj.
    apply bind_inv_Ok in Htobj. destruct Htobj as [[] [_ Htobj]].
    apply bind_inv_Ok in Htobj. destruct Htobj as [m0 [H0 Htobj]].
    apply bind_inv_Ok in Htobj. destruct Htobj as [m1 [H1 Htobj]].
    apply bind_inv_Ok in Htobj. destruct Htobj as [m2 [H2 Htobj]].
    apply bind_inv_Ok in Htobj. destruct Htobj as [imageEntry' [_ Htobj]].
    apply bind_inv_Ok in Htobj. destruct Htobj as [imageMeta [_ Htobj]].
    apply bind_inv_Ok in Htobj. destruct Htobj as [sample [_ Htobj]].
    apply bind_inv_Ok in Htobj. destruct Htobj as [plainEntry [Hfind Htobj]].
    apply bind_inv_Ok in Htobj. destruct Htobj as [plainMeta [Hplain Htobj]].
    injection Htobj as <-.
    apply assertExists_Ok in H0, H1, H2, Hfind.
    apply asPlainMeta_Ok in Hplain.
    apply findVersion_Some in Hfind. destruct Hfind as [Hin _].
    apply elem_of_three in Hin.
    destruct Hin as [-> | [-> | ->]]; eauto 10.
  - destruct (metadataMap !! EntryV2Header.metadataIndex header)
      as [assocMetadata |] eqn:Hlookup; [| discriminate].
    cbn [assertExists]. rewrite ret_bind. intros Hrun.
    apply bind_inv_Ok in Hrun. destruct Hrun as [[] [_ Hrun]].
    apply bind_inv_Ok in Hrun. destruct Hrun as [[] [_ Hrun]].
    apply bind_inv_Ok in Hrun. destruct Hrun as [plainMeta [Hplain Hrun]].
    apply asPlainMeta_Ok in Hplain.
    exists (EntryV2Header.metadataIndex header), assocMetadata, plainMeta.
    split; [exact Hlookup |]. split; [exact Hplain |].
    destruct (EntryV2Metadata.isDirectory (metadataOf header plainMeta)).
    + apply bind_inv_Ok in Hrun. destruct Hrun as [directory [Hdir Hrun]].
      injection Hrun as <-.
      destruct (newScsArchiveDirectoryV2_inv _ _ _ Hdir) as [Hmeta _].
      exact Hmeta.
    + injection Hrun as <-. reflexivity.
Qed.

Lemma createMetadataMap_sound (this : ScsArchiveV2.t)
    (entryHeaders : list EntryV2Header.t) (metadataTable : Buffer.t)
    (metadataMap : gmap Z MetadataEntry) :
  outcome (ScsArchiveV2.readData this
             (FileHeaderV2.metadataTableOffset (ScsArchiveV2.header this))
             (FileHeaderV2.metadataTableCompressedSize
                (ScsArchiveV2.header this))
             (FileHeaderV2.metadataTableSize (ScsArchiveV2.header this)))
  = Ok metadataTable ->
  outcome (ScsArchiveV2.createMetadataMap this entryHeaders)
  = Ok metadataMap ->
  forall key m,
    metadataMap !! key = Some m -> describedAt metadataTable key m.
Proof.
  intros Hread Hrun.
  rewrite (createMetadataMap_eq this entryHeaders metadataTable Hread)
    in Hrun.
  destruct (outcome (ScsArchiveV2.metadataLoop metadataTable entryHeaders))
    as [[mm sk] | e] eqn:Hloop; [| discriminate Hrun].
  injection Hrun as <-. rewrite metadataLoop_eq in Hloop.
  destruct (metadataFold_map _ _ _ _ Hloop) as [Hsound _].
  { intros k m Hk. cbn [fst] in Hk. rewrite lookup_empty in Hk.
    discriminate Hk. }
  intros key m Hk. exact (proj1 (Hsound key m Hk)).
Qed.

(** X26. Every entry made from the tables of an archive points at a payload
    that starts at a multiple of 16 below 2^36 and whose two sizes are
    below 2^24; it has the hash and the directory flag of its header. *)
Theorem created_entries_are_aligned (this : ScsArchiveV2.t)
    (entryHeaders : list EntryV2Header.t) (metadataTable : Buffer.t)
    (metadataMap : gmap Z MetadataEntry) (header : EntryV2Header.t)
    (entry : DirectoryEntry + FileEntry) :
  outcome (ScsArchiveV2.readData this
             (FileHeaderV2.metadataTableOffset (ScsArchiveV2.header this))
             (FileHeaderV2.metadataTableCompressedSize
                (ScsArchiveV2.header this))
             (FileHeaderV2.metadataTableSize (ScsArchiveV2.header this)))
  = Ok metadataTable ->
  outcome (ScsArchiveV2.createMetadataMap this entryHeaders)
  = Ok metadataMap ->
  outcome (createEntryV2 (ScsArchiveV2.fd this) header metadataMap)
  = Ok entry ->
  let metadata := entryMetadata entry in
  EntryV2Metadata.hash metadata = EntryV2Header.hash header
  /\ EntryV2Metadata.isDirectory metadata = EntryV2Header.isDirectory header
  /\ EntryV2Metadata.offset metadata mod 16 = 0
  /\ 0 <= EntryV2Metadata.offset metadata < 2 ^ 36
  /\ 0 <= EntryV2Metadata.compressedSize metadata < 2 ^ 24
  /\ 0 <= EntryV2Metadata.uncompressedSize metadata < 2 ^ 24.
Proof.
  intros Hread Hmap Hentry metadata. subst metadata.
  destruct (createEntryV2_plain _ _ _ _ Hentry)
    as [key [m [plainMeta [Hkey [Hfields ->]]]]].
  pose proof (createMetadataMap_sound _ _ _ _ Hread Hmap key m Hkey) as Hat.
  destruct Hat as [metadataHeader [descriptor [_ [_ [Hdecode ->]]]]].
  cbn [fields] in Hfields. subst descriptor.
  apply decodeDescriptor_plain, PlainMeta_decode_ranges in Hdecode.
  cbn [metadataOf EntryV2Metadata.hash EntryV2Metadata.isDirectory
       EntryV2Metadata.offset EntryV2Metadata.compressedSize
       EntryV2Metadata.uncompressedSize].
  tauto.
Qed.

End created_metadata.

(** ** The emitted nodes *)

Lemma nodesOf_NoDup (nodesByUid : gmap Z Node) (uids : list Z) :
  (forall uid node, nodesByUid !! uid = Some node -> node_uid node = uid) ->
  NoDup uids -> NoDup (nodesOf nodesByUid uids).
Proof.
  intros Hindex. unfold nodesOf.
  induction uids as [| uid uids IH]; intros Hnodup; [constructor |].
  apply NoDup_cons in Hnodup. destruct Hnodup as [Hfresh Hnodup].
  cbn [omap list_omap].
  destruct (nodesByUid !! uid) as [node |] eqn:Hnode; [| auto].
  apply NoDup_cons. split; [| auto].
  intros Hin. apply list_elem_of_omap in Hin.
  destruct Hin as [uid' [Hin Hnode']].
  apply Hindex in Hnode, Hnode'. congruence.
Qed.

(** X28. When the node index files every node under its own UID, the emitted
    nodes are distinct, each of them is the node of a referenced UID, and
    the referenced UIDs without a node are left out without a trace; the
    elevation has one triple for each elevation UID that has a node. *)
Theorem emitted_nodes_distinct `{Geom} (nodesByUid : gmap Z Node)
    (referenced elevationNodeUids : list Z)
    (sectors : list (string * list Item))
    (mileageTargets : JsMap MileageTarget) :
  (forall uid node, nodesByUid !! uid = Some node -> node_uid node = uid) ->
  NoDup referenced ->
  let mapData :=
    emitMapData nodesByUid referenced elevationNodeUids sectors
      mileageTargets in
  let uids := referencedNodeUids (splitStage nodesByUid referenced sectors) in
  NoDup (mapData_nodes mapData)
  /\ (forall node,
        node ∈ mapData_nodes mapData
        <-> node_uid node ∈ uids /\ nodesByUid !! node_uid node = Some node)
  /\ (length (mapData_nodes mapData) <= length uids)%nat
  /\ length (mapData_elevation mapData)
     = length (List.filter (fun uid => bool_decide (is_Some (nodesByUid !! uid)))
                 elevationNodeUids).
Proof.
  intros Hindex Hnodup mapData uids. subst mapData uids.
  unfold emitMapData. cbn [mapData_nodes mapData_elevation].
  set (st := splitStage nodesByUid referenced sectors).
  assert (Hst : NoDup (referencedNodeUids st)).
  { unfold st, splitStage.
    pose proof (splitStage_dividers_inv nodesByUid sectors
                  {| referencedNodeUids := referenced; roads := [];
                     dividers := []; splitCount := 0 |}) as Hinv.
    cbn zeta in Hinv. destruct Hinv as [_ [_ [Hkeep _]]].
    apply Hkeep. exact Hnodup. }
  split; [apply nodesOf_NoDup; assumption |].
  split; [| split].
  - intros node. unfold nodesOf. rewrite list_elem_of_omap. split.
    + intros [uid [Hin Hnode]]. pose proof (Hindex _ _ Hnode) as Huid.
      rewrite Huid. auto.
    + intros [Hin Hnode]. exists (node_uid node). auto.
  - unfold nodesOf. generalize (referencedNodeUids st). intros l.
    induction l as [| uid l IH]; [reflexivity |].
    cbn [omap list_omap length].
    destruct (nodesByUid !! uid); cbn [length]; lia.
  - rewrite length_fmap. unfold nodesOf.
    induction elevationNodeUids as [| uid l IH]; [reflexivity |].
    cbn [omap list_omap List.filter].
    destruct (nodesByUid !! uid) as [node |] eqn:Hnode.
    + rewrite bool_decide_true by eauto. cbn [length]. rewrite IH.
      reflexivity.
    + rewrite bool_decide_false by (intros [n Hn]; discriminate Hn).
      exact IH.
Qed.

(* ===================================================================== *)
(** * Part III: the properties on concrete inputs                         *)
(* ===================================================================== *)

Example image256_fields :
  ImageMeta.mipmapCount (ImageMeta.image image256) = 9
  /\ ImageMeta.format (ImageMeta.image image256) = 28
  /\ ImageMeta.isCube (ImageMeta.image image256) = false
  /\ ImageMeta.isCube (ImageMeta.image cubeImage) = true.
Proof. repeat split. Qed.

(** C4 as stated fails, [read] does not always return the declared
    uncompressed size: a texture object with 2 bytes declared reads as
    150 bytes; an uncompressed entry of 3 bytes that declares 5 reads as
    3 bytes; a zlib entry that declares 5 reads as the 4 bytes that the
    decoder returns. *)
Lemma read_length_is_declared_fails :
  outcome_length
    (outcome (@FileEntry_read stubNatives ddsEnums fourteenBytes
                (ScsArchiveTobjFile (entryAt 0 2 2 NONE) image256)))
  = Some 150%nat
  /\ outcome_length
       (outcome (@FileEntry_read stubNatives ddsEnums fourteenBytes
                   (ScsArchiveFileV2 (entryAt 0 3 5 NONE))))
     = Some 3%nat
  /\ outcome_length
       (outcome (@FileEntry_read stubNatives ddsEnums fourteenBytes
                   (ScsArchiveFileV2 (entryAt 0 2 5 ZLIB))))
     = Some 4%nat
  /\ ~ read_length_is_declared.
Proof.
  split; [reflexivity |]. split; [reflexivity |]. split; [reflexivity |].
  intros Hclaim.
  specialize (Hclaim stubNatives ddsEnums fourteenBytes
                (ScsArchiveFileV2 (entryAt 0 3 5 NONE)) [x01; x02; x03]
                eq_refl).
  vm_compute in Hclaim. discriminate Hclaim.
Qed.

Lemma read_length_by_compression_witness :
  length [x01; x02; x03] = (0 + Z.to_nat 3)%nat.
Proof.
  exact (@read_length_by_compression stubNatives ddsEnums fourteenBytes
           (ScsArchiveFileV2 (entryAt 0 3 5 NONE)) [x01; x02; x03] eq_refl).
Defined.

Lemma tobj_read_synthesizes_dds_witness :
  exists out,
    outcome (@FileEntry_read stubNatives ddsEnums fourteenBytes
               (ScsArchiveTobjFile (entryAt 0 14 14 NONE) image256)) = Ok out
    /\ length out = (4 + 124 + 20 + 14)%nat
    /\ Buffer.uintle (Buffer.field out 20 4) = 14.
Proof.
  destruct (@tobj_read_synthesizes_dds stubNatives ddsEnums fourteenBytes
              (entryAt 0 14 14 NONE) image256 fourteenBytes)
    as [out [Hout [Hlen [_ [_ [Hpitch _]]]]]].
  - simpl. lia.
  - reflexivity.
  - exists out. split; [exact Hout |]. split; [exact Hlen |]. exact Hpitch.
Defined.

Lemma read_gdeflate_strips_header_witness :
  trace (@read stubNatives fourteenBytes (entryAt 0 14 2 GDEFLATE))
  = [ReadSync 0 14; Gdeflate [x0d; x0e] 2].
Proof.
  destruct (@read_gdeflate_strips_header stubNatives fourteenBytes
              (entryAt 0 14 2 GDEFLATE) eq_refl eq_refl)
    as [_ [Htrace _]].
  exact Htrace.
Defined.

Example createMetadataMap_skips_mip_proxy :
  @ScsArchiveV2.createMetadataMap stubNatives (archiveOf mipProxyTable) oneSlot
  = ([ReadSync 0 4; Warn "skipped metadata types" [3]], Ok ∅).
Proof. reflexivity. Qed.

Example createMetadataMap_rejects_unknown :
  @ScsArchiveV2.createMetadataMap stubNatives (archiveOf unknownTable) oneSlot
  = ([ReadSync 0 4], Throw (Unreachable 7)).
Proof. reflexivity. Qed.

Lemma createMetadataMap_skips_and_rejects_witness :
  (length (List.filter is_warn
             (trace (@ScsArchiveV2.createMetadataMap stubNatives
                       (archiveOf mipProxyTable) oneSlot))) <= 1)%nat
  /\ exists e,
       outcome (@ScsArchiveV2.createMetadataMap stubNatives
                  (archiveOf unknownTable) oneSlot) = Throw e.
Proof.
  split.
  - exact (proj1 (proj2 (@createMetadataMap_skips_and_rejects stubNatives
                           (archiveOf mipProxyTable) oneSlot mipProxyTable
                           eq_refl))).
  - destruct (@createMetadataMap_skips_and_rejects stubNatives
                (archiveOf unknownTable) oneSlot unknownTable eq_refl)
      as [_ [_ [_ Hunknown]]].
    apply (Hunknown 0 {| MetadataEntryHeader.index := 0;
                         MetadataEntryHeader.type := 7 |}).
    + apply list_elem_of_here.
    + reflexivity.
    + intros Hin. apply list_elem_of_In in Hin. vm_compute in Hin.
      repeat (destruct Hin as [Hin | Hin]; [discriminate Hin |]).
      exact Hin.
Defined.

Example road_split_scenario :
  roads (@splitStage axisDistance scenarioNodes []
           [("sec+0000+0000", [RoadItem scenarioRoad; TerrainItem nearTerrain])])
  = [flag scenarioRoad]
  /\ roads (@splitStage axisDistance scenarioNodes []
              [("sec+0000+0000", [RoadItem scenarioRoad; TerrainItem farTerrain])])
     = [scenarioRoad]
  /\ roads (@splitStage axisDistance scenarioNodes []
              [("sec+0000+0000",
                [RoadItem scenarioRoad; swapEnds (TerrainItem nearTerrain)])])
     = [flag scenarioRoad].
Proof. repeat split. Qed.

Lemma road_flagged_iff_divider_near_witness :
  flag scenarioRoad
    ∈ roads (@splitStage axisDistance scenarioNodes [] [nearSector])
  /\ scenarioRoad
       ∈ roads (@splitStage axisDistance scenarioNodes [] [farSector]).
Proof.
  split.
  - destruct (@road_flagged_iff_divider_near axisDistance scenarioNodes
                [] [nearSector] nearSector.1 nearSector.2 scenarioRoad
                (nodeAt 1 0 0) (nodeAt 2 100 0))
      as [_ [Hflagged _]].
    + apply list_elem_of_here.
    + apply list_elem_of_here.
    + reflexivity.
    + reflexivity.
    + reflexivity.
    + apply Hflagged.
      exists (TerrainItem nearTerrain), (DTerrain nearTerrain),
        (nodeAt 3 (1 # 2) 0), (nodeAt 4 (201 # 2) 0).
      split; [apply list_elem_of_further, list_elem_of_here |].
      split; [constructor |].
      split; [reflexivity |]. split; [reflexivity |].
      left. split; reflexivity.
  - destruct (@road_flagged_iff_divider_near axisDistance scenarioNodes
                [] [farSector] farSector.1 farSector.2 scenarioRoad
                (nodeAt 1 0 0) (nodeAt 2 100 0))
      as [_ [_ [Hplain _]]].
    + apply list_elem_of_here.
    + apply list_elem_of_here.
    + reflexivity.
    + reflexivity.
    + reflexivity.
    + apply Hplain.
      intros [item [d [tStart [tEnd [Hin [Hdiv [Hts [Hte Hnear]]]]]]]].
      apply elem_of_cons in Hin. destruct Hin as [-> | Hin];
        [inversion Hdiv |].
      apply list_elem_of_singleton in Hin. subst item.
      inversion Hdiv; subst d.
      vm_compute in Hts. vm_compute in Hte.
      injection Hts as <-. injection Hte as <-.
      destruct Hnear as [[Hnear _] | [Hnear _]]; vm_compute in Hnear;
        discriminate Hnear.
Defined.

(** The node of the examples is at 12.345703125 and at the binary64
    value nearest to 0.015, which is below 0.015. The product of that
    value and 100 is 1.5 once rounded, so the target is put at the
    binary64 value nearest to 0.02, where rounding the coordinate itself
    to two decimals gives 0.01. *)
Example mileage_scenario :
  mileageStage targetNodes [("a", byNode); ("b", byPosition)]
  = [("a", {| target_x := Some (Finite (6952431924753203 # 562949953421312));
              target_y :=
                Some (Finite (5764607523034235 # 288230376151711744));
              nodeUid := None; others := "a" |});
     ("b", byPosition)]
  /\ binary64 ((1080863910568919 # 72057594037927936) * 100)
     = Finite (3 # 2)
  /\ binary64 (1235 # 100) = Finite (6952431924753203 # 562949953421312)
  /\ binary64 (2 # 100) = Finite (5764607523034235 # 288230376151711744)
  /\ (Math_round ((1080863910568919 # 72057594037927936) * 100) / 100
      == 1 # 100)%Q.
Proof. repeat split; vm_compute; reflexivity. Qed.

Lemma mileage_targets_augmented_witness :
  mileageStage targetNodes [("a", byNode); ("b", byPosition)] !! 0%nat
  = Some ("a",
          {| target_x := Some (round2 (6321 # 512));
             target_y :=
               Some (round2 (1080863910568919 # 72057594037927936));
             nodeUid := None; others := "a" |})
  /\ mileageStage targetNodes [("a", byNode); ("b", byPosition)] !! 1%nat
     = Some ("b", byPosition).
Proof.
  assert (Hnodup : NoDup [("a", byNode); ("b", byPosition)].*1).
  { apply NoDup_cons. split; [| apply NoDup_singleton].
    intros Hin. apply list_elem_of_singleton in Hin. discriminate Hin. }
  split.
  - destruct (mileage_targets_augmented targetNodes
                [("a", byNode); ("b", byPosition)] 0 "a" byNode
                Hnodup eq_refl)
      as [_ [Hmoved _]].
    apply (Hmoved 7 (nodeAt 7 (6321 # 512)
                       (1080863910568919 # 72057594037927936))).
    + intros [[v [Hv _]] _]. discriminate Hv.
    + reflexivity.
    + discriminate.
    + reflexivity.
  - destruct (mileage_targets_augmented targetNodes
                [("a", byNode); ("b", byPosition)] 1 "b" byPosition
                Hnodup eq_refl)
      as [_ [_ [Hkeep _]]].
    apply Hkeep. right. left. reflexivity.
Defined.

(** With the stand-in hash, the salted key ["7abcd"] of the path ["abcd"]
    hashes to 5, the hash of the entry. *)
Example smallArchive_lookup :
  match outcome (@ScsArchiveV2.parseEntries stubNatives smallArchive) with
  | Ok (e, _) =>
      get (files e) "abcd" = Some abcFile
      /\ get (files e) "abcde" = None
      /\ (@FileEntry_read stubNatives ddsEnums (ScsArchiveV2.fd smallArchive)
            <$> get (files e) "abcd")
         = Some ([ReadSync 48 3], Ok [x61; x62; x63])
  | Throw _ => False
  end.
Proof. vm_compute. repeat split. Qed.

Lemma store_lookup_hashes_salted_key_witness :
  exists (dirs : list DirectoryEntry) (fs : list FileEntry),
    forall p,
      get (@createStore stubNatives _ _ ([] : list DirectoryEntry) 7) p
      = Map_of_pairs ((fun v => (hash v, v)) <$> dirs)
          !! @city64 stubNatives ("7" +:+ p)
      /\ get (@createStore stubNatives _ _ [abcFile] 7) p
         = Map_of_pairs ((fun v => (hash v, v)) <$> fs)
             !! @city64 stubNatives ("7" +:+ p).
Proof.
  exact (proj1
           (@store_lookup_hashes_salted_key stubNatives smallArchive
              {| ScsArchiveV2.fd := ScsArchiveV2.fd smallArchive;
                 ScsArchiveV2.header := ScsArchiveV2.header smallArchive;
                 ScsArchiveV2.entries :=
                   Some {| directories := @createStore stubNatives _ _ [] 7;
                           files := @createStore stubNatives _ _ [abcFile] 7 |} |}
              {| directories := @createStore stubNatives _ _ [] 7;
                 files := @createStore stubNatives _ _ [abcFile] 7 |}
              eq_refl eq_refl)).
Defined.

Lemma parseEntries_cached_witness :
  @ScsArchiveV2.parseEntries stubNatives smallArchiveParsed
  = ([], Ok (smallEntries, smallArchiveParsed)).
Proof.
  exact (proj2 (proj2 (proj2 (proj2
           (@parseEntries_cached stubNatives smallArchive smallArchiveParsed
              smallEntries eq_refl))))).
Defined.

Lemma parseEntries_requires_valid_header_witness :
  @ScsArchiveV2.parseEntries stubNatives otherHashArchive
  = ([], Throw IllegalState).
Proof.
  refine (proj1 (proj1 (@parseEntries_requires_valid_header stubNatives
                          otherHashArchive)) _).
  right. left. discriminate.
Defined.

Lemma createMetadataMap_holds_described_slots_witness :
  0 ∈ ScsArchiveV2.slots [smallHeader]
  /\ exists m, smallMap !! 0 = Some m /\ describedAt smallTable 0 m.
Proof.
  destruct (@createMetadataMap_holds_described_slots stubNatives smallArchive
              [smallHeader] smallTable smallMap eq_refl eq_refl)
    as [Hslots _].
  destruct (smallMap !! 0) as [m |] eqn:Hm; [| discriminate Hm].
  destruct (proj1 (Hslots 0 m) Hm) as [Hin Hat].
  split; [exact Hin |]. exists m. split; [reflexivity | exact Hat].
Defined.

Lemma createEntryV2_kind_witness :
  entryHash (inr abcFile) = 5.
Proof.
  exact (proj1 (@createEntryV2_kind stubNatives
                  (ScsArchiveV2.fd smallArchive) smallHeader smallMap
                  (inr abcFile) eq_refl)).
Defined.

Lemma createEntryV2_rejects_witness :
  @createEntryV2 stubNatives [] tobjDirectoryHeader ∅
  = ([], Throw IllegalArgument).
Proof.
  exact (@createEntryV2_rejects stubNatives [] tobjDirectoryHeader ∅
           (or_introl (conj eq_refl eq_refl))).
Defined.

Lemma parseEntries_lookup_witness :
  hash abcFile = @city64 stubNatives "7abcd".
Proof.
  exact (proj1 (@parseEntries_lookup stubNatives smallArchive
                  smallArchiveParsed smallEntries [smallHeader] "abcd"
                  eq_refl eq_refl eq_refl) abcFile eq_refl).
Defined.

Lemma directory_listing_round_trip_witness :
  outcome (@newScsArchiveDirectoryV2 stubNatives listingFile listingEntry)
  = Ok {| ScsArchiveDirectoryV2.metadata := listingEntry;
          ScsArchiveDirectoryV2.subdirectories := ["a"];
          ScsArchiveDirectoryV2.files := ["b"] |}.
Proof.
  apply (@directory_listing_round_trip stubNatives listingFile listingEntry
           twoChildren []).
  - unfold twoChildren.
    constructor; [| constructor; [| constructor]];
      (split; [| split; [simpl; lia | first [exact I | reflexivity]]]).
    + change (wellFormedUtf8 [x2f; x61]).
      repeat (first [apply utf8_end
                    | apply utf8_00_7F;
                        [split; vm_compute; discriminate |]]).
    + change (wellFormedUtf8 [x62]).
      repeat (first [apply utf8_end
                    | apply utf8_00_7F;
                        [split; vm_compute; discriminate |]]).
  - simpl. lia.
  - reflexivity.
Defined.

Lemma emitted_dividers_have_nodes_witness :
  nodeAt 3 (1 # 2) 0
    ∈ mapData_nodes (@emitMapData axisDistance scenarioNodes [] []
                       kerbSectors []).
Proof.
  apply (@emitted_dividers_have_nodes axisDistance scenarioNodes [] []
           kerbSectors [] (DBuilding kerb) (nodeAt 3 (1 # 2) 0)).
  - apply list_elem_of_here.
  - left. reflexivity.
Defined.

Lemma mileageStage_idempotent_witness :
  mileageStage targetNodes
    (mileageStage targetNodes [("a", byNode); ("b", byPosition)])
  = mileageStage targetNodes [("a", byNode); ("b", byPosition)].
Proof.
  destruct (mileageStage_idempotent targetNodes
              [("a", byNode); ("b", byPosition)]) as [_ [Hagain _]].
  - apply NoDup_cons. split; [| apply NoDup_singleton].
    intros Hin. apply list_elem_of_singleton in Hin. discriminate Hin.
  - exact Hagain.
Defined.

Lemma cityStage_cases_witness :
  NoMatchingCityArea "atlantis" ∈ (cityStage berlinAreas twoCities).2
  /\ (length (cityStage berlinAreas twoCities).1
      + length (cityStage berlinAreas twoCities).2 = 2)%nat.
Proof.
  destruct (cityStage_cases berlinAreas twoCities)
    as [_ [Hmissing [_ [Hcount _]]]].
  - apply NoDup_cons. split; [| apply NoDup_singleton].
    intros Hin. apply list_elem_of_singleton in Hin. discriminate Hin.
  - split; [| exact Hcount].
    apply Hmissing. split; [| reflexivity].
    apply list_elem_of_further, list_elem_of_here.
Defined.

Lemma createTobjEntry_any_order_witness :
  exists image plain,
    createTobjEntry textureHeader textureMap
    = ([], Ok (ScsArchiveTobjFile (metadataOf textureHeader plain) image)).
Proof.
  destruct (createTobjEntry_any_order textureHeader textureMap
              sampleEntry tailEntry imageEntry
              eq_refl eq_refl eq_refl eq_refl eq_refl)
    as [Hcomplete _].
  - reflexivity.
  - right. right. reflexivity.
  - reflexivity.
  - destruct Hcomplete as [image [plain [_ [_ [_ [_ Hrun]]]]]].
    + split; [| split].
      * exists imageEntry. split; [| reflexivity].
        apply list_elem_of_further, list_elem_of_further, list_elem_of_here.
      * exists sampleEntry. split; [| reflexivity]. apply list_elem_of_here.
      * exists tailEntry. split; [| reflexivity].
        apply list_elem_of_further, list_elem_of_here.
    + exists image, plain. exact Hrun.
Defined.

Lemma parseEntries_past_end_witness :
  @ScsArchiveV2.parseEntries stubNatives emptyArchive
  = ([ReadSync 0 16; ReadSync 16 4], Throw AssertionFailed).
Proof.
  refine (proj2 (@parseEntries_past_end stubNatives emptyArchive
                   eq_refl eq_refl _ eq_refl eq_refl _)).
  - simpl. lia.
  - simpl. lia.
Defined.

Lemma directory_constructor_total_witness :
  outcome (@newScsArchiveDirectoryV2 stubNatives [x09] (entryAt 0 1 1 NONE))
  = Throw RangeError.
Proof.
  apply (@directory_constructor_total stubNatives [x09] (entryAt 0 1 1 NONE)
           [x09]).
  - reflexivity.
  - simpl. lia.
Defined.

Lemma created_entries_are_aligned_witness :
  EntryV2Metadata.offset (entryMetadata (inr abcFile)) mod 16 = 0.
Proof.
  exact (proj1 (proj2 (proj2
           (@created_entries_are_aligned stubNatives smallArchive
              [smallHeader] smallTable smallMap smallHeader (inr abcFile)
              eq_refl eq_refl eq_refl)))).
Defined.

Lemma emitted_nodes_distinct_witness :
  NoDup (mapData_nodes (@emitMapData axisDistance scenarioNodes [] []
                          kerbSectors [])).
Proof.
  refine (proj1 (@emitted_nodes_distinct axisDistance scenarioNodes [] []
                   kerbSectors [] _ _)).
  - intros uid node Hnode. unfold scenarioNodes in Hnode.
    repeat (apply lookup_insert_Some in Hnode;
            destruct Hnode as [[<- <-] | [_ Hnode]]; [reflexivity |]).
    rewrite lookup_empty in Hnode. discriminate Hnode.
  - constructor.
Defined.

Lemma createWithLocalizedName_cases_witness :
  Named.name (createWithLocalizedName germanNames berlinNamed)
  = "Berlin (DE)".
Proof.
  destruct (createWithLocalizedName_cases germanNames berlinNamed)
    as [_ [_ [Hfound _]]].
  apply (Hfound "@@berlin@@"); [reflexivity | discriminate | reflexivity].
Defined.

(** A name that is not well-formed UTF-8 is not kept as read: the byte
    [ff] becomes U+FFFD. *)
Example directory_name_replaced :
  outcome (@newScsArchiveDirectoryV2 stubNatives illFormedListing
             (entryAt 0 6 6 NONE))
  = Ok {| ScsArchiveDirectoryV2.metadata := entryAt 0 6 6 NONE;
          ScsArchiveDirectoryV2.subdirectories := [];
          ScsArchiveDirectoryV2.files :=
            [string_of_list_byte [xef; xbf; xbd]] |}.
Proof. vm_compute. reflexivity. Qed.

Lemma ScsArchive_dispatch_witness :
  @ScsArchive stubReaders "base.scs" firstVersionFile
  = ([ReadSync 0 6; ReadSync 6 2],
     Ok (@OfScsArchiveV1 stubReaders
           [x53; x43; x53; x23; x01; x00; x07; x00]))
  /\ @ScsArchive stubReaders "mod.zip" []
     = ([ReadSync 0 6; ReadSync 0 4], Throw AssertionFailed).
Proof.
  split.
  - destruct (@ScsArchive_dispatch stubReaders "base.scs" firstVersionFile)
      as [[_ [Htrace Houtcome]] | [[Hscs _] | [Hnot _]]].
    + destruct (@ScsArchive stubReaders "base.scs" firstVersionFile)
        as [t r].
      cbn [trace outcome fst snd] in Htrace, Houtcome.
      rewrite Htrace, Houtcome. reflexivity.
    + vm_compute in Hscs. discriminate Hscs.
    + exfalso. apply Hnot. reflexivity.
  - destruct (@ScsArchive_dispatch stubReaders "mod.zip" [])
      as [[Hscs _] | [[Hscs _] | [_ [_ [Htrace Houtcome]]]]].
    + vm_compute in Hscs. discriminate Hscs.
    + vm_compute in Hscs. discriminate Hscs.
    + destruct (@ScsArchive stubReaders "mod.zip" []) as [t r].
      cbn [trace outcome fst snd] in Htrace, Houtcome.
      rewrite Htrace, Houtcome. reflexivity.
Defined.

(** [binary64] at some landmarks: one tenth; ties going to the even
    significand; the greatest finite value and the overflow to infinity;
    the least positive value and the underflow to zero. *)
Example binary64_landmarks :
  binary64 (1 # 10) = Finite (3602879701896397 # 36028797018963968)
  /\ binary64 (inject_Z (2 ^ 53 + 1)) = Finite (inject_Z (2 ^ 53))
  /\ binary64 (inject_Z (2 ^ 53 + 3)) = Finite (inject_Z (2 ^ 53 + 4))
  /\ binary64 (inject_Z (2 ^ 1024 - 2 ^ 970 - 1))
     = Finite (inject_Z (2 ^ 1024 - 2 ^ 971))
  /\ binary64 (inject_Z (2 ^ 1024 - 2 ^ 970)) = Infinity false
  /\ binary64 (inject_Z (- 2 ^ 1024)) = Infinity true
  /\ binary64 (3 * 2 ^ (-1075))%Q = Finite (Qred (2 ^ (-1073))%Q)
  /\ binary64 (2 ^ (-1075))%Q = Finite 0.
Proof. repeat split; vm_compute; reflexivity. Qed.
